(** * Reconciler and lifecycle-rule editor: a shallow embedding

    Two command families of the CLI are embedded here:
    - the container-application reconciler ([applyCommand], with its helpers
      [applicationToCreateApplication], [stripUndefined], [order],
      [sortObjectDeeply] and the line printer [printLine]);
    - the R2 lifecycle-rule commands ([AddHandler], [RemoveHandler],
      [SetHandler]).

    JavaScript values are an inductive type; an object is the list of its own
    enumerable properties in property order; a thrown exception is [None] or a
    constructor of the outcome type; terminal output and remote calls are
    events of a trace. *)

From Stdlib Require Import List String Ascii ZArith QArith Bool Lia.
From Stdlib Require Import OrderedTypeEx Sorted DecimalString.
From Stdlib Require DecimalNat.
Import ListNotations.

Local Close Scope Q_scope.
Local Open Scope string_scope.
Local Open Scope list_scope.
Set Warnings "-register-all".

(* ================================================================= *)
(** ** JavaScript values *)

Module Js.

(** Numbers of the configuration are integers ([instances], [tier], ...);
    a property key is a string and keys compare character by character by
    their codes, which for ASCII keys is the order of
    [Array.prototype.sort] without comparator.  An object is the list of
    its own properties in the order in which its keys were added.  What a
    read of a missing key finds in [Object.prototype] is modelled where
    the program reads a key that may be missing ([Apply.read]); the place
    an engine gives to keys that are array indices and the meaning of an
    assignment to [__proto__] are not part of the model
    ([NormalNotions.ordinary_keys] delimits the keys without them). *)
Inductive JsVal : Type :=
| JUndefined
| JNull
| JBool (b : bool)
| JNum (n : Z)
| JStr (s : string)
| JArr (items : list JsVal)
| JObj (props : list (string * JsVal)).

(** The own properties of an object, in property order. *)
Definition Obj : Type := list (string * JsVal).

(** Induction over values that reaches the elements of arrays and the values
    of properties. *)
Section JsVal_nested_ind.
Variable P : JsVal -> Prop.
Hypothesis P_undefined : P JUndefined.
Hypothesis P_null : P JNull.
Hypothesis P_bool : forall b, P (JBool b).
Hypothesis P_num : forall n, P (JNum n).
Hypothesis P_str : forall s, P (JStr s).
Hypothesis P_arr : forall items, Forall P items -> P (JArr items).
Hypothesis P_obj :
  forall props, Forall (fun kv => P (snd kv)) props -> P (JObj props).

Fixpoint JsVal_nested_ind (v : JsVal) : P v :=
  match v with
  | JUndefined => P_undefined
  | JNull => P_null
  | JBool b => P_bool b
  | JNum n => P_num n
  | JStr s => P_str s
  | JArr items =>
      P_arr items
        ((fix go (l : list JsVal) : Forall P l :=
            match l with
            | [] => Forall_nil _
            | x :: r => Forall_cons x (JsVal_nested_ind x) (go r)
            end) items)
  | JObj props =>
      P_obj props
        ((fix go (l : Obj) : Forall (fun kv => P (snd kv)) l :=
            match l with
            | [] => Forall_nil _
            | kv :: r => Forall_cons kv (JsVal_nested_ind (snd kv)) (go r)
            end) props)
  end.
End JsVal_nested_ind.

(** [typeof v === "object"]: true of [null], of arrays and of objects. *)
Definition typeof_object (v : JsVal) : bool :=
  match v with
  | JNull | JArr _ | JObj _ => true
  | _ => false
  end.

(** [Array.isArray(v)] *)
Definition isArray (v : JsVal) : bool :=
  match v with
  | JArr _ => true
  | _ => false
  end.

(** [v === undefined] *)
Definition is_undefined (v : JsVal) : bool :=
  match v with
  | JUndefined => true
  | _ => false
  end.

(** Truthiness, as a condition [v ? a : b] tests it. *)
Definition truthy (v : JsVal) : bool :=
  match v with
  | JUndefined | JNull => false
  | JBool b => b
  | JNum n => negb (n =? 0)%Z
  | JStr s => negb (s =? "")%string
  | JArr _ | JObj _ => true
  end.

(** *** Property access on the property list *)

(** [o[k]], [None] when [o] has no own property [k]. *)
Fixpoint lookup {A : Type} (o : list (string * A)) (k : string) : option A :=
  match o with
  | [] => None
  | (k', v) :: rest => if (k' =? k)%string then Some v else lookup rest k
  end.

(** [o[k] = v]: an existing property keeps its position, a new one goes
    last. *)
Fixpoint assign {A : Type} (o : list (string * A)) (k : string) (v : A)
  : list (string * A) :=
  match o with
  | [] => [(k, v)]
  | (k', v') :: rest =>
      if (k' =? k)%string then (k, v) :: rest else (k', v') :: assign rest k v
  end.

(** [delete o[k]] *)
Definition delete {A : Type} (o : list (string * A)) (k : string)
  : list (string * A) :=
  filter (fun kv => negb (fst kv =? k)%string) o.

(** [o[k]] read as a value: [undefined] for a missing property. *)
Definition obj_get (o : Obj) (k : string) : JsVal :=
  match lookup o k with
  | Some v => v
  | None => JUndefined
  end.

(** [Object.keys(v)]; a number or a boolean has none. *)
Definition keys (v : JsVal) : list string :=
  match v with
  | JObj props => map fst props
  | _ => []
  end.

(** [v[k]] *)
Definition get (v : JsVal) (k : string) : JsVal :=
  match v with
  | JObj props => obj_get props k
  | _ => JUndefined
  end.

(** *** [Array.prototype.sort] on strings, default comparator *)

Fixpoint insert (k : string) (l : list string) : list string :=
  match l with
  | [] => [k]
  | h :: t => if (k <=? h)%string then k :: l else h :: insert k t
  end.

Fixpoint sort (l : list string) : list string :=
  match l with
  | [] => []
  | h :: t => insert h (sort t)
  end.

(** The order of the sort, strict and large. *)
Definition slt (a b : string) : Prop := (a <? b)%string = true.
Definition sle (a b : string) : Prop := (a <=? b)%string = true.

(** Keys in strictly ascending order. *)
Fixpoint sorted_keys (l : list string) : bool :=
  match l with
  | a :: (b :: _) as t => (a <? b)%string && sorted_keys t
  | _ => true
  end.

(** An array or an object: [typeof v === "object"] and [v !== null]. *)
Definition is_container (v : JsVal) : bool :=
  match v with
  | JArr _ | JObj _ => true
  | _ => false
  end.

(** *** String methods *)

Definition newline : ascii := ascii_of_nat 10.

(** [s.split("\n")] *)
Fixpoint split_lines (s : string) : list string :=
  match s with
  | EmptyString => [EmptyString]
  | String c rest =>
      if Ascii.eqb c newline then EmptyString :: split_lines rest
      else
        match split_lines rest with
        | h :: t => String c h :: t
        | [] => [String c EmptyString]
        end
  end.

(** White space of [String.prototype.trim], within ASCII. *)
Definition is_white_space (c : ascii) : bool :=
  let n := nat_of_ascii c in
  ((9 <=? n) && (n <=? 13) || (n =? 32))%nat.

Fixpoint trimStart (s : string) : string :=
  match s with
  | EmptyString => EmptyString
  | String c rest => if is_white_space c then trimStart rest else s
  end.

Fixpoint trimEnd (s : string) : string :=
  match s with
  | EmptyString => EmptyString
  | String c rest =>
      match trimEnd rest with
      | EmptyString => if is_white_space c then EmptyString else String c EmptyString
      | rest' => String c rest'
      end
  end.

(** [s.trim()] *)
Definition trim (s : string) : string := trimEnd (trimStart s).

(** [s.startsWith(p)] *)
Definition startsWith (s p : string) : bool := String.prefix p s.

End Js.

(* ================================================================= *)
(** ** The reconciler: normalisation *)

Module Apply.
Import Js.

(** The live application, as the listing returns it: the fields the
    reconciler reads.  An optional field that is absent reads [undefined]. *)
Module Application.
Record t : Type := make {
  id : string;
  name : string;
  configuration : JsVal;
  constraints : JsVal;
  scheduling_policy : JsVal;
  affinities : JsVal;
  instances : JsVal;
  jobs : JsVal
}.
End Application.

(** A declared entry of [config.container_app]: a plain object. *)
Definition AppConfig : Type := Obj.

(** [appConfig.name]; the declared type of the property is [string], and a
    missing property is the key ["undefined"]. *)
Definition nameOf (appConfig : AppConfig) : string :=
  match obj_get appConfig "name" with
  | JStr s => s
  | _ => "undefined"
  end.

Definition applicationToCreateApplication (application : Application.t) : Obj :=
  [ ("configuration", Application.configuration application);
    ("constraints", Application.constraints application);
    ("name", JStr (Application.name application));
    ("scheduling_policy", Application.scheduling_policy application);
    ("affinities", Application.affinities application);
    ("instances", Application.instances application);
    ("jobs",
      if truthy (Application.jobs application) then JBool true else JUndefined) ].

(** [for (const k in r) if (r[k] === undefined) delete r[k]]: one pass over
    the keys of [r] itself, no descent into its values. *)
Definition stripUndefined (r : Obj) : Obj :=
  fold_left
    (fun r' k => if is_undefined (obj_get r' k) then delete r' k else r')
    (map fst r) r.

(** [order]: an array is returned as it is; of an object the keys are
    sorted and a new object is filled in that order. *)
Definition order (unordered : JsVal) : JsVal :=
  if isArray unordered then unordered
  else
    JObj
      (fold_left
         (fun obj key => assign obj key (get unordered key))
         (sort (keys unordered))
         []).

Section Callbacks.
(** The recursive call, which throws on [null] ([None]). *)
Variable recur : JsVal -> option JsVal.

(** [object.map((obj) => sortObjectDeeply(obj))] *)
Fixpoint map_items (items : list JsVal) : option (list JsVal) :=
  match items with
  | [] => Some []
  | x :: rest =>
      match recur x with
      | None => None
      | Some y =>
          match map_items rest with
          | None => None
          | Some rest' => Some (y :: rest')
          end
      end
  end.

(** The loop over [Object.entries(object)], writing into [objectCopy]. *)
Fixpoint sort_entries (entries : Obj) (objectCopy : Obj) : option Obj :=
  match entries with
  | [] => Some objectCopy
  | (key, value) :: rest =>
      if typeof_object value then
        match value with
        | JNull => sort_entries rest objectCopy
        | _ =>
            match recur value with
            | None => None
            | Some value' => sort_entries rest (assign objectCopy key value')
            end
        end
      else sort_entries rest objectCopy
  end.
End Callbacks.

(** [sortObjectDeeply]; [None] is the [TypeError] of [Object.entries(null)],
    reached when the argument, or an element of an array, is [null]. *)
Fixpoint sortObjectDeeply (object : JsVal) : option JsVal :=
  match object with
  | JUndefined | JBool _ | JNum _ | JStr _ => Some object
  | JArr items =>
      match map_items sortObjectDeeply items with
      | Some items' => Some (JArr items')
      | None => None
      end
  | JNull => None
  | JObj props =>
      match sort_entries sortObjectDeeply props props with
      | Some objectCopy => Some (order (JObj objectCopy))
      | None => None
      end
  end.

(** *** Notions the statements about normalisation use *)

(** The fill loop of [order], from an object filled so far. *)
Definition build (g : string -> JsVal) (ks : list string) (acc : Obj) : Obj :=
  fold_left (fun obj key => assign obj key (g key)) ks acc.

(** Keys strictly ascending, and under each key the value [g] gives. *)
Definition filled (g : string -> JsVal) (acc : Obj) : Prop :=
  StronglySorted slt (map fst acc) /\ forall k v, In (k, v) acc -> v = g k.

(** The last array or object written under [k] by the loop over the
    entries. *)
Fixpoint last_container (k : string) (entries : Obj) : option JsVal :=
  match entries with
  | [] => None
  | (k', v) :: rest =>
      match last_container k rest with
      | Some v' => Some v'
      | None => if (k' =? k)%string && is_container v then Some v else None
      end
  end.

(** Every object, at every depth, has its keys in ascending order. *)
Fixpoint deep_sorted (v : JsVal) : bool :=
  match v with
  | JArr items => forallb deep_sorted items
  | JObj props =>
      sorted_keys (map fst props)
      && forallb (fun kv => deep_sorted (snd kv)) props
  | _ => true
  end.

(** Some object, at some depth, has a key whose value is [undefined]. *)
Fixpoint has_undefined_key (v : JsVal) : bool :=
  match v with
  | JArr items => existsb has_undefined_key items
  | JObj props =>
      existsb
        (fun kv => is_undefined (snd kv) || has_undefined_key (snd kv)) props
  | _ => false
  end.

(** [v === null] *)
Definition is_null (v : JsVal) : bool :=
  match v with
  | JNull => true
  | _ => false
  end.

(** No [null] where [sortObjectDeeply] would be called on it: the value is
    not [null], and neither is an element of an array in it. *)
Fixpoint null_free (v : JsVal) : bool :=
  match v with
  | JNull => false
  | JArr items => forallb null_free items
  | JObj props =>
      forallb (fun kv => is_null (snd kv) || null_free (snd kv)) props
  | _ => true
  end.

(** [v'] is [v] with the keys of its objects in another order, at every
    depth: an array has the same elements, in the same order, each with its
    keys reordered; an object has the same keys, under each a value the
    original holds under that key, with its keys reordered. *)
Inductive key_reordering : JsVal -> JsVal -> Prop :=
| kr_leaf (v : JsVal) : is_container v = false -> key_reordering v v
| kr_arr (items items' : list JsVal) :
    Forall2 key_reordering items items' ->
    key_reordering (JArr items) (JArr items')
| kr_obj (props props' : Obj) :
    (forall k, In k (map fst props') <-> In k (map fst props)) ->
    (forall k v', In (k, v') props' ->
       exists v, In (k, v) props /\ key_reordering v v') ->
    key_reordering (JObj props) (JObj props').

(** What [stripUndefined] keeps. *)
Definition defined_value (kv : string * JsVal) : bool :=
  negb (is_undefined (snd kv)).

(* ================================================================= *)
(** ** The reconciler: the command *)

Module Config.
Record t : Type := make {
  container_app : list AppConfig;
  name : option string
}.
End Config.

Record Args : Type := mkArgs {
  env : option string;
  json : bool
}.

(** A part of a diff, as [Diff.diffLines] returns it. *)
Record Change : Type := mkChange {
  value : string;
  added : bool;
  removed : bool
}.

(** Terminal text: pieces with the colour functions applied to them. *)
Inductive Style : Type := brandColor | dim | red | bold | underline.
Definition Text : Type := list (list Style * string).
Definition plain (s : string) : Text := [([], s)].
Definition styled (st : list Style) (s : string) : Text := [(st, s)].

Inductive PrintFunc : Type := log | logRaw.

(** [id] and [name] of a pushed modification are what is read from the
    value found under the declared name; [None] is [undefined]. *)
Inductive Action : Type :=
| Create (application : AppConfig)
| Modify (application : AppConfig) (id : option string) (name : option string).

(** The action a turn of the loop pushes, as a list. *)
Definition pushed (a : option Action) : list Action :=
  match a with
  | Some action => [action]
  | None => []
  end.

(** The declared spec an action carries. *)
Definition action_application (a : Action) : AppConfig :=
  match a with
  | Create application => application
  | Modify application _ _ => application
  end.

(** What a remote call is rejected with. *)
Inductive RemoteError : Type :=
| ApiError (status : Z) (error : string)
    (details : option (list (string * string))) (request_id : option string)
| OtherError (message : string).

(** What the command does, in order: output, prompts and remote calls. *)
Inductive Event : Type :=
| StartSection (heading subheading : string)
| EndSection (heading : string) (subheading : option string)
| Log (msg : Text)
| UpdateStatus (msg : Text)
| PrintLine (el : string) (startWith : Text) (printFunc : PrintFunc)
| Spinner (json_mode : bool) (message : string)
| ListApplications
| CreateApplication (body : AppConfig)
| ModifyApplication (id : option string) (body : AppConfig)
| Confirm (question : string)
| Cancel (msg : string)
| Success (msg : Text)
| Crash (msg : Text).


(** How the command ends: it returns, [sortObjectDeeply] throws, the
    listing is rejected, or [crash] prints its message and ends the
    process. *)
Inductive Outcome : Type :=
| Returned
| Threw_TypeError
| Rejected (err : RemoteError)
| Crashed.

(** The answers of the outside: the listing (or its failure), the answer to
    the confirmation, and the failure, if any, of a mutation, given all
    that happened up to and including the call. *)
Record World : Type := mkWorld {
  listing : list Application.t + RemoteError;
  confirm_answer : bool;
  mutation_failure : list Event -> option RemoteError
}.

(** [applicationByNames]: filled in listing order, a later application
    taking the place of an earlier one of the same name.  (An application
    named [__proto__] is read back under that name as this list says, but
    it also becomes the prototype of the object, which the list does not
    show: statements that depend on a name not being found exclude such a
    listing.) *)
Definition applicationByNames (applications : list Application.t)
  : list (string * Application.t) :=
  fold_left
    (fun byNames application =>
       assign byNames (Application.name application) application)
    applications [].

(** [applicationByNames] is a plain object: under a name that is not a
    key of its own, [applicationByNames[name]] is what [Object.prototype]
    holds under it, a function for [constructor] and the methods, and the
    prototype object itself for [__proto__].  Of such a value the loop
    reads [name], which a function has ("Object" for [constructor], its
    own name for a method) and the prototype object has not, and [id] and
    the fields of an application, which none of them has. *)
Inductive Member : Type :=
| method (name : string)
| prototype_object.

Definition Object_prototype_methods : list string :=
  ["__defineGetter__"; "__defineSetter__"; "hasOwnProperty";
   "__lookupGetter__"; "__lookupSetter__"; "isPrototypeOf";
   "propertyIsEnumerable"; "toString"; "valueOf"; "toLocaleString"].

Definition Object_prototype (name : string) : option Member :=
  if (name =? "constructor")%string then Some (method "Object")
  else if existsb (String.eqb name) Object_prototype_methods
  then Some (method name)
  else if (name =? "__proto__")%string then Some prototype_object
  else None.

(** What [applicationByNames[name]] gives, when it is not [undefined]. *)
Inductive Found : Type :=
| listed (application : Application.t)
| inherited (member : Member).

Definition read (byNames : list (string * Application.t)) (name : string)
  : option Found :=
  match lookup byNames name with
  | Some application => Some (listed application)
  | None => option_map inherited (Object_prototype name)
  end.

(** [application.id] and [application.name] of what was found. *)
Definition found_id (found : Found) : option string :=
  match found with
  | listed application => Some (Application.id application)
  | inherited _ => None
  end.

Definition found_name (found : Found) : option string :=
  match found with
  | listed application => Some (Application.name application)
  | inherited (method name) => Some name
  | inherited prototype_object => None
  end.

(** [applicationToCreateApplication] of what was found: of a member of
    [Object.prototype] every field read is [undefined], but for the name
    of a function. *)
Definition projection (found : Found) : Obj :=
  match found with
  | listed application => applicationToCreateApplication application
  | inherited member =>
      [ ("configuration", JUndefined);
        ("constraints", JUndefined);
        ("name",
          match member with
          | method name => JStr name
          | prototype_object => JUndefined
          end);
        ("scheduling_policy", JUndefined);
        ("affinities", JUndefined);
        ("instances", JUndefined);
        ("jobs", JUndefined) ]
  end.

(** A text put in a template literal. *)
Definition or_undefined (s : option string) : string :=
  match s with
  | Some s' => s'
  | None => "undefined"
  end.

Section Reconciler.
(** The TOML serialiser and the line differ are libraries outside the
    repository; [SchedulingPolicy.REGIONAL] and
    [DeploymentMutationError.VALIDATE_INPUT] are constants of the
    generated client. *)
Variable TOML_stringify : JsVal -> string.
Variable diffLines : string -> string -> list Change.
Variable SchedulingPolicy_REGIONAL : JsVal.
Variable VALIDATE_INPUT : string.

(** The normal forms compared for a matched pair. *)
Definition prevApp (application : Application.t) : option JsVal :=
  sortObjectDeeply
    (JObj (stripUndefined (applicationToCreateApplication application))).

(** The same for whatever was found under the declared name. *)
Definition prevApp_of (found : Found) : option JsVal :=
  sortObjectDeeply (JObj (stripUndefined (projection found))).

Definition nowApp (appConfig : AppConfig) : option JsVal :=
  sortObjectDeeply (JObj appConfig).

Definition container_app_table (v : JsVal) : JsVal :=
  JObj [("container_app", v)].

(** [lines.find((l) => l.added || l.removed) !== undefined] *)
Definition changes (lines : list Change) : bool :=
  match find (fun l => added l || removed l) lines with
  | Some _ => true
  | None => false
  end.

(** The lines printed for one part of the diff. *)
Definition lineValues (line : Change) : list string :=
  filter (fun e => negb (e =? "")%string)
    (map trim (split_lines (value line))).

Definition print_diff_line (line : Change) (l : string) : Event :=
  if added line then PrintLine l (styled [brandColor] "+ ") log
  else if removed line then PrintLine l (styled [red] "- ") log
  else PrintLine l (plain "  ") log.

(** The inner loop, threading [printedOneLine]. *)
Fixpoint print_values (line : Change) (ls : list string)
    (printedOneLine : bool) : list Event * bool :=
  match ls with
  | [] => ([], printedOneLine)
  | l :: rest =>
      let sep :=
        if startsWith l "[" && printedOneLine
        then [PrintLine "" (plain "") log] else [] in
      let '(evs, p) := print_values line rest true in
      (sep ++ print_diff_line line l :: evs, p)
  end.

Fixpoint print_diff (lines : list Change) (printedOneLine : bool)
  : list Event :=
  match lines with
  | [] => []
  | line :: rest =>
      let '(evs, p) := print_values line (lineValues line) printedOneLine in
      evs ++ print_diff rest p
  end.

(** One turn of the loop over [config.container_app]: what is printed and
    the action pushed, if any; [None] when [sortObjectDeeply] throws. *)
Definition plan_one (byNames : list (string * Application.t))
    (appConfig : AppConfig) : option (list Event * option Action) :=
  match read byNames (nameOf appConfig) with
  | Some application =>
      match prevApp_of application with
      | None => None
      | Some prevApp' =>
          let prev := TOML_stringify (container_app_table prevApp') in
          match nowApp appConfig with
          | None => None
          | Some nowApp' =>
              let now := TOML_stringify (container_app_table nowApp') in
              let lines := diffLines prev now in
              if negb (changes lines) then
                Some
                  ([UpdateStatus
                      (plain "no changes " ++
                       styled [brandColor]
                         (or_undefined (found_name application)))],
                   None)
              else
                Some
                  (UpdateStatus
                     (styled [brandColor; underline] "edited" ++
                      plain (" " ++ or_undefined (found_name application)))
                   :: print_diff lines false
                   ++ [PrintLine "" (plain "") log],
                   Some
                     (Modify appConfig (found_id application)
                        (found_name application)))
          end
      end
  | None =>
      let s := TOML_stringify (container_app_table (JArr [JObj appConfig])) in
      Some
        (UpdateStatus
           (styled [bold; underline; brandColor] "new" ++
            plain " " ++ styled [brandColor] (nameOf appConfig))
         :: map (fun el => PrintLine el (plain "") log)
              (map trim (split_lines s)),
         Some (Create appConfig))
  end.

(** The loop, with what was printed and pushed so far; the actions are
    [None] when a turn threw. *)
Fixpoint plan (byNames : list (string * Application.t))
    (container_app : list AppConfig)
    (printed : list Event) (actions : list Action)
  : list Event * option (list Action) :=
  match container_app with
  | [] => (printed, Some actions)
  | appConfig :: rest =>
      match plan_one byNames appConfig with
      | None => (printed, None)
      | Some (evs, None) => plan byNames rest (printed ++ evs) actions
      | Some (evs, Some action) =>
          plan byNames rest (printed ++ evs) (actions ++ [action])
      end
  end.

(** The message of a rejected mutation with status 400. *)
Definition misconfiguration_message (error : string)
    (details : option (list (string * string))) : Text :=
  match (error =? VALIDATE_INPUT)%string, details with
  | true, Some details' =>
      flat_map
        (fun kv =>
           plain "  " ++ styled [brandColor] (fst kv) ++
           plain (" " ++ snd kv ++ String newline ""))
        details'
  | _, _ => plain ("  " ++ error)
  end.

(** The second loop: one remote call at a time, stopping at the first
    failure. *)
Fixpoint apply_actions (args : Args) (w : World) (actions : list Action)
    (trace : list Event) : Outcome * list Event :=
  match actions with
  | [] => (Returned, trace ++ [EndSection "Applied changes" None])
  | Create application :: rest =>
      let trace1 :=
        trace ++ [CreateApplication application;
                  Spinner (json args) ("creating " ++ nameOf application)] in
      match mutation_failure w trace1 with
      | Some (OtherError message) =>
          (Crashed,
           trace1 ++
           [Crash (plain ("Unexpected error creating application: " ++ message))])
      | Some (ApiError status error details request_id) =>
          if (status =? 400)%Z then
            (Crashed,
             trace1 ++
             [Crash
                (plain ("Error creating application due to a misconfiguration"
                        ++ String newline "")
                 ++ misconfiguration_message error details)])
          else
            (Crashed,
             trace1 ++
             [Crash
                (plain
                   ("Error creating application due to an internal error (request id: "
                    ++ or_undefined request_id ++ "): " ++ error))])
      | None =>
          apply_actions args w rest
            (trace1 ++
             [Success
                (plain "Created application " ++
                 styled [brandColor] (nameOf application));
              PrintLine "" (plain "") log])
      end
  | Modify application id name :: rest =>
      let trace1 :=
        trace ++ [ModifyApplication id application;
                  Spinner (json args) ("modifying application " ++ or_undefined name)] in
      match mutation_failure w trace1 with
      | Some (OtherError message) =>
          (Crashed,
           trace1 ++
           [Crash
              (plain ("Unexpected error modifying application "
                      ++ or_undefined name ++ ": "
                      ++ message))])
      | Some (ApiError status error details request_id) =>
          if (status =? 400)%Z then
            (Crashed,
             trace1 ++
             [Crash
                (plain ("Error modifying application " ++ or_undefined name ++
                        " due to a misconfiguration" ++ String newline "")
                 ++ misconfiguration_message error details)])
          else
            (Crashed,
             trace1 ++
             [Crash
                (plain
                   ("Error modifying application " ++ or_undefined name ++
                    " due to an internal error (request id: "
                    ++ or_undefined request_id ++ "): " ++ error))])
      | None =>
          apply_actions args w rest
            (trace1 ++
             [Success
                (plain "Modified application "
                 ++ styled [brandColor] (or_undefined name));
              PrintLine "" (plain "") log])
      end
  end.

(** The declaration printed when nothing is declared. *)
Definition example_configuration (config : Config.t) : JsVal :=
  JObj
    [ ("configuration",
        JObj [("image", JStr "docker.io/cloudflare/containers:getting-started")]);
      ("instances", JNum 2);
      ("scheduling_policy", SchedulingPolicy_REGIONAL);
      ("name",
        JStr match Config.name config with
             | Some n => n
             | None => "my-containers-application"
             end) ].

Definition endConfig (args : Args) (config : Config.t) : JsVal :=
  match env args with
  | Some e =>
      JObj
        [("env",
           JObj [(e, container_app_table (JArr [example_configuration config]))])]
  | None => container_app_table (JArr [example_configuration config])
  end.

(** Modelled from the spec: the confirmation of [processArgument], which
    is code of the CLI package and not of the files embedded here: a
    yes/no prompt, answered yes without asking when the output is
    machine-readable. *)
Definition processArgument_confirm (args : Args) (w : World)
    (trace : list Event) : bool * list Event :=
  if json args then (true, trace)
  else
    (confirm_answer w,
     trace ++ [Confirm "Do you want to apply these changes?"]).

Definition applyCommand (args : Args) (config : Config.t) (w : World)
  : Outcome * list Event :=
  let trace0 :=
    [StartSection "Deploy a container application"
       "deploy all the changes of your application"] in
  if (List.length (Config.container_app config) =? 0)%nat then
    (Returned,
     trace0 ++
     EndSection
       "You don't have any container applications defined in your wrangler.toml"
       (Some "You can set the following configuration in your wrangler.toml")
     :: map (fun el => PrintLine el (plain "  ") logRaw)
          (map trim (split_lines (TOML_stringify (endConfig args config)))))
  else
    let trace1 :=
      trace0 ++ [ListApplications; Spinner (json args) "loading applications"] in
    match listing w with
    | inr err => (Rejected err, trace1)
    | inl applications =>
        let byNames := applicationByNames applications in
        let trace2 :=
          trace1 ++
          [Log (styled [dim] ("Container application changes" ++ String newline ""))] in
        match plan byNames (Config.container_app config) [] [] with
        | (printed, None) => (Threw_TypeError, trace2 ++ printed)
        | (printed, Some actions) =>
            let trace3 := trace2 ++ printed in
            if (List.length actions =? 0)%nat then
              (Returned, trace3 ++ [EndSection "No changes to be made" None])
            else
              let '(yes, trace4) := processArgument_confirm args w trace3 in
              if negb yes then (Returned, trace4 ++ [Cancel "Not applying changes"])
              else apply_actions args w actions trace4
        end
    end.
(** The turn for [appConfig] pushes an action. *)
Definition pushes (byNames : list (string * Application.t))
    (appConfig : AppConfig) : bool :=
  match plan_one byNames appConfig with
  | Some (_, Some _) => true
  | _ => false
  end.
End Reconciler.

(** *** A renderer and a differ to run the reconciler on examples *)

Module Samples.

Definition quote : string := String (ascii_of_nat 34) EmptyString.

Fixpoint render (v : JsVal) : string :=
  match v with
  | JUndefined => "undefined"
  | JNull => "null"
  | JBool b => if b then "true" else "false"
  | JNum n => NilZero.string_of_int (Z.to_int n)
  | JStr s => (quote ++ s ++ quote)%string
  | JArr items => ("[" ++ String.concat ", " (map render items) ++ "]")%string
  | JObj props =>
      ("{" ++ String.concat (String newline "")
                (map (fun kv => fst kv ++ " = " ++ render (snd kv)) props)
       ++ "}")%string
  end.

Definition diff (prev now : string) : list Change :=
  if (prev =? now)%string then [mkChange prev false false]
  else [mkChange prev false true; mkChange now true false].

(** A renderer that, as the TOML serialiser does, writes nothing for a
    key whose value is [undefined] or [null]. *)
Definition written (kv : string * JsVal) : bool :=
  negb (is_undefined (snd kv) || is_null (snd kv)).

Fixpoint drop_absent (v : JsVal) : JsVal :=
  match v with
  | JArr items => JArr (map drop_absent items)
  | JObj props =>
      JObj (filter written (map (fun kv => (fst kv, drop_absent (snd kv))) props))
  | _ => v
  end.

Definition toml (v : JsVal) : string := render (drop_absent v).

Definition web : Application.t :=
  Application.make "id-1" "web"
    (JObj [("image", JStr "registry/web:1")])
    JUndefined (JStr "regional") JUndefined (JNum 2) JUndefined.

(** Declared as the live [web] is. *)
Definition web_same : AppConfig :=
  [ ("name", JStr "web");
    ("instances", JNum 2);
    ("scheduling_policy", JStr "regional");
    ("configuration", JObj [("image", JStr "registry/web:1")]) ].

(** Declared with another instance count. *)
Definition web_three : AppConfig :=
  [ ("name", JStr "web");
    ("instances", JNum 3);
    ("scheduling_policy", JStr "regional");
    ("configuration", JObj [("image", JStr "registry/web:1")]) ].

(** Not in the listing. *)
Definition api : AppConfig :=
  [ ("name", JStr "api");
    ("instances", JNum 1);
    ("configuration", JObj [("image", JStr "registry/api:1")]) ].

(** A declared entry with a key whose value is [undefined]. *)
Definition web_jobs_undefined : AppConfig :=
  [ ("name", JStr "web"); ("jobs", JUndefined) ].

(** A live application with such a key one level down. *)
Definition web_labels_undefined : Application.t :=
  Application.make "id-1" "web"
    (JObj [("labels", JUndefined); ("image", JStr "registry/web:1")])
    JUndefined JUndefined JUndefined JUndefined JUndefined.




(** A declared entry whose name is the name of a member of
    [Object.prototype]. *)
Definition constructor_app : AppConfig :=
  [ ("name", JStr "constructor");
    ("instances", JNum 1);
    ("configuration", JObj [("image", JStr "registry/api:1")]) ].

End Samples.

End Apply.

(* ================================================================= *)
(** ** The lifecycle-rule commands *)

Module Lifecycle.
Import Js.
Local Open Scope Z_scope.

(** *** [Number(string)] and [Date] *)

(** A number as [Number] yields it from a string: the value the literal
    denotes.  The rounding of that value to binary64 is not part of the
    model; an integer of at most fifteen digits is its own rounding. *)
Inductive JsNumber : Type :=
| NaN
| Infinity (negative : bool)
| Finite (q : Q).

Definition isNaN (x : JsNumber) : bool :=
  match x with
  | NaN => true
  | _ => false
  end.

(** [x * k] for an integer [k] other than zero. *)
Definition times (x : JsNumber) (k : Z) : JsNumber :=
  match x with
  | NaN => NaN
  | Infinity negative => Infinity negative
  | Finite q => Finite (Qred (q * inject_Z k))
  end.

Definition digit_in (base : Z) (c : ascii) : option Z :=
  let n := Z.of_nat (nat_of_ascii c) in
  let d :=
    if (48 <=? n) && (n <=? 57) then n - 48
    else if (97 <=? n) && (n <=? 102) then n - 87
    else if (65 <=? n) && (n <=? 70) then n - 55
    else 99 in
  if d <? base then Some d else None.

(** The longest prefix of digits: its value, its length and what follows. *)
Fixpoint take_digits (base : Z) (s : string) (acc : Z) (count : nat)
  : Z * nat * string :=
  match s with
  | EmptyString => (acc, count, s)
  | String c rest =>
      match digit_in base c with
      | Some d => take_digits base rest (base * acc + d) (S count)
      | None => (acc, count, s)
      end
  end.

(** [ExponentPart], optional: [None] when what is left is something else. *)
Definition exponent_part (s : string) : option Z :=
  match s with
  | EmptyString => Some 0
  | String c rest =>
      if Ascii.eqb c "e" || Ascii.eqb c "E" then
        let '(negative, rest') :=
          match rest with
          | String "+" r => (false, r)
          | String "-" r => (true, r)
          | _ => (false, rest)
          end in
        match take_digits 10 rest' 0 0 with
        | (_, O, _) => None
        | (e, _, EmptyString) => Some (if negative then - e else e)
        | _ => None
        end
      else None
  end%Z.

(** [m * 10 ^ e] *)
Definition scale (m e : Z) : Q :=
  if (0 <=? e)%Z then inject_Z (m * 10 ^ e)
  else Qred (Qmake m (Z.to_pos (10 ^ (- e)))).

Definition StrUnsignedDecimalLiteral (s : string) : JsNumber :=
  if (s =? "Infinity")%string then Infinity false
  else
    let '(ip, n1, r1) := take_digits 10 s 0 0 in
    let '(fp, n2, r2) :=
      match r1 with
      | String "." r => take_digits 10 r 0 0
      | _ => (0%Z, O, r1)
      end in
    if (n1 + n2 =? 0)%nat then NaN
    else
      match exponent_part r2 with
      | None => NaN
      | Some e =>
          Finite (scale (ip * 10 ^ Z.of_nat n2 + fp) (e - Z.of_nat n2))
      end.

Definition negate (x : JsNumber) : JsNumber :=
  match x with
  | NaN => NaN
  | Infinity negative => Infinity (negb negative)
  | Finite q => Finite (Qred (- q))
  end.

Definition NonDecimalIntegerLiteral (base : Z) (digits : string) : JsNumber :=
  match take_digits base digits 0 0 with
  | (_, O, _) => NaN
  | (v, _, EmptyString) => Finite (inject_Z v)
  | _ => NaN
  end.

(** What follows the prefix [p] in [s], if [s] starts with it. *)
Fixpoint after_prefix (p s : string) : option string :=
  match p, s with
  | EmptyString, _ => Some s
  | String a p', String c s' => if Ascii.eqb a c then after_prefix p' s' else None
  | String _ _, EmptyString => None
  end.

Definition after_either (p1 p2 s : string) : option string :=
  match after_prefix p1 s with
  | Some r => Some r
  | None => after_prefix p2 s
  end.

(** [Number(s)] for a string: white space around the literal is dropped,
    the empty string is zero, a string that is no numeric literal is
    [NaN].  A sign is part of a decimal literal only. *)
Definition Number (s : string) : JsNumber :=
  let t := trim s in
  if (t =? "")%string then Finite 0
  else
    match after_either "0x" "0X" t with
    | Some r => NonDecimalIntegerLiteral 16 r
    | None =>
    match after_either "0o" "0O" t with
    | Some r => NonDecimalIntegerLiteral 8 r
    | None =>
    match after_either "0b" "0B" t with
    | Some r => NonDecimalIntegerLiteral 2 r
    | None =>
    match after_prefix "+" t with
    | Some r => StrUnsignedDecimalLiteral r
    | None =>
    match after_prefix "-" t with
    | Some r => negate (StrUnsignedDecimalLiteral r)
    | None => StrUnsignedDecimalLiteral t
    end end end end end.

(** A string of decimal digits. *)
Fixpoint all_digits (s : string) : bool :=
  match s with
  | EmptyString => true
  | String c rest =>
      match digit_in 10 c with
      | Some _ => all_digits rest
      | None => false
      end
  end.

(** A whole number of days that is not negative. *)
Definition nonnegative_integer (x : JsNumber) : bool :=
  match x with
  | Finite q => (Z.pos (Qden q) =? 1) && (0 <=? Qnum q)
  | _ => false
  end.

(** Days of the civil calendar. *)
Definition is_leap_year (y : Z) : bool :=
  ((y mod 4 =? 0) && negb (y mod 100 =? 0) || (y mod 400 =? 0))%Z.

Definition days_in_month (y m : Z) : Z :=
  if (m =? 2)%Z then (if is_leap_year y then 29 else 28)%Z
  else if ((m =? 4) || (m =? 6) || (m =? 9) || (m =? 11))%Z then 30%Z
  else 31%Z.

(** Days from 1970-01-01 to the given day. *)
Definition days_from_civil (y m d : Z) : Z :=
  let y' := if m <=? 2 then y - 1 else y in
  let era := y' / 400 in
  let yoe := y' - era * 400 in
  let doy := (153 * (if 2 <? m then m - 3 else m + 9) + 2) / 5 + d - 1 in
  let doe := yoe * 365 + yoe / 4 - yoe / 100 + doy in
  era * 146097 + doe - 719468.

Definition civil_from_days (z : Z) : Z * Z * Z :=
  let z' := z + 719468 in
  let era := z' / 146097 in
  let doe := z' - era * 146097 in
  let yoe := (doe - doe / 1460 + doe / 36524 - doe / 146096) / 365 in
  let doy := doe - (365 * yoe + yoe / 4 - yoe / 100) in
  let mp := (5 * doy + 2) / 153 in
  let d := doy - (153 * mp + 2) / 5 + 1 in
  let m := if mp <? 10 then mp + 3 else mp - 9 in
  let y := yoe + era * 400 in
  ((if m <=? 2 then y + 1 else y), m, d).

(** The next [n] characters read as a decimal number. *)
Fixpoint fixed_digits (n : nat) (s : string) (acc : Z) : option (Z * string) :=
  match n with
  | O => Some (acc, s)
  | S n' =>
      match s with
      | String c rest =>
          match digit_in 10 c with
          | Some d => fixed_digits n' rest (10 * acc + d)
          | None => None
          end
      | EmptyString => None
      end
  end.

Definition expect (c : ascii) (s : string) : option string :=
  match s with
  | String c' rest => if Ascii.eqb c c' then Some rest else None
  | EmptyString => None
  end.

Definition bind_opt {A B : Type} (x : option A) (f : A -> option B) : option B :=
  match x with
  | Some a => f a
  | None => None
  end.

Notation "'let?' x ':=' c 'in' k" := (bind_opt c (fun x => k))
  (at level 10, x pattern, c at level 100, k at level 200).

(** [YYYY-MM-DD] at the head of a string: the three numbers and the rest. *)
Definition date_fields (s : string) : option (Z * Z * Z * string) :=
  let? (y, s1) := fixed_digits 4 s 0 in
  let? s2 := expect "-" s1 in
  let? (m, s3) := fixed_digits 2 s2 0 in
  let? s4 := expect "-" s3 in
  let? (d, s5) := fixed_digits 2 s4 0 in
  Some (y, m, d, s5).

Definition valid_day (y m d : Z) : bool :=
  (1 <=? m) && (m <=? 12) && (1 <=? d) && (d <=? days_in_month y m).

(** The time value of [new Date(s)], in milliseconds, for the date-time
    format with all its fields, [YYYY-MM-DDTHH:mm:ss.sssZ], which is what
    [AddHandler] builds; [None] is the invalid date. *)
Definition Date_parse (s : string) : option Z :=
  let? (y, m, d, s1) := date_fields s in
  let? s2 := expect "T" s1 in
  let? (hh, s3) := fixed_digits 2 s2 0 in
  let? s4 := expect ":" s3 in
  let? (mm, s5) := fixed_digits 2 s4 0 in
  let? s6 := expect ":" s5 in
  let? (ss, s7) := fixed_digits 2 s6 0 in
  let? s8 := expect "." s7 in
  let? (ms, s9) := fixed_digits 3 s8 0 in
  if valid_day y m d && (hh <? 24) && (mm <? 60) && (ss <? 60)
     && (s9 =? "Z")%string
  then
    Some ((((days_from_civil y m d * 24 + hh) * 60 + mm) * 60 + ss) * 1000 + ms)
  else None.

(** [n] written with [width] digits. *)
Fixpoint pad (width : nat) (n : Z) : string :=
  match width with
  | O => EmptyString
  | S w =>
      (pad w (n / 10)
       ++ String (ascii_of_nat (48 + Z.to_nat (n mod 10))) EmptyString)%string
  end.

(** [date.toISOString()] for a time value of the years 0000 to 9999. *)
Definition toISOString (t : Z) : string :=
  let days := t / 86400000 in
  let rest := t mod 86400000 in
  let '(y, m, d) := civil_from_days days in
  (pad 4 y ++ "-" ++ pad 2 m ++ "-" ++ pad 2 d ++ "T"
   ++ pad 2 (rest / 3600000) ++ ":" ++ pad 2 (rest / 60000 mod 60) ++ ":"
   ++ pad 2 (rest / 1000 mod 60) ++ "." ++ pad 3 (rest mod 1000) ++ "Z")%string.

(** Modelled from the spec: [isValidDate] of the helpers file, which is
    not one of the files embedded here: "a calendar date in YYYY-MM-DD
    form". *)
Definition isValidDate (s : string) : bool :=
  match date_fields s with
  | Some (y, m, d, EmptyString) => valid_day y m d
  | _ => false
  end.

(** *** Rules *)

Inductive ConditionType : Type := Age | Date.

Record LifecycleCondition : Type := mkCondition {
  maxAge : option JsNumber;
  date : option string;
  type : ConditionType
}.

Record ObjectTransition : Type := mkTransition {
  condition : LifecycleCondition
}.

Record StorageClassTransition : Type := mkStorageClassTransition {
  sc_condition : LifecycleCondition;
  storageClass : string
}.

Record Conditions : Type := mkConditions {
  prefix : option string
}.

Record LifecycleRule : Type := mkRule {
  id : string;
  enabled : bool;
  conditions : Conditions;
  deleteObjectsTransition : option ObjectTransition;
  storageClassTransitions : option (list StorageClassTransition);
  abortMultipartUploadsTransition : option ObjectTransition
}.

(** *** Effects *)

Inductive Event : Type :=
| GetLifecycleRules (accountId bucket : string) (jurisdiction : option string)
| PutLifecycleRules (accountId bucket : string) (rules : list LifecycleRule)
    (jurisdiction : option string)
| Prompt (label question : string)
| ValidationError (message : string)
| Log (message : string).

Definition is_put (e : Event) : bool :=
  match e with
  | PutLifecycleRules _ _ _ _ => true
  | _ => false
  end.

Inductive Outcome : Type :=
| Returned
| Threw_UserError (message : string)
| Threw_RangeError
| Awaiting_input.

(** The outside: whether standard input is a terminal, the rules the
    bucket holds, what the user types at text prompts and what the user
    ticks at multiple-choice prompts, in order.  The handlers are embedded
    from the line where the account id is known, in the runs in which the
    remote service answers: the fetch returns [stored_rules] and the
    write is accepted; [GetLifecycleRules] and [PutLifecycleRules] are
    the requests made. *)
Record World : Type := mkWorld {
  isTTY : bool;
  stored_rules : list LifecycleRule;
  typed : list string;
  ticked : list (list string)
}.

(** The state a handler threads: the input not yet consumed and the trace. *)
Record State : Type := mkState {
  pending_text : list string;
  pending_choices : list (list string);
  trace : list Event
}.

Definition M (A : Type) : Type := State -> (A + Outcome) * State.

Definition ret {A : Type} (a : A) : M A := fun st => (inl a, st).

Definition bind {A B : Type} (m : M A) (f : A -> M B) : M B :=
  fun st =>
    match m st with
    | (inl a, st') => f a st'
    | (inr o, st') => (inr o, st')
    end.

Definition stop {A : Type} (o : Outcome) : M A := fun st => (inr o, st).

Definition emit (e : Event) : M unit :=
  fun st =>
    (inl tt,
     mkState (pending_text st) (pending_choices st) (trace st ++ [e])).

Notation "x <- m ;; k" := (bind m (fun x => k))
  (at level 61, m at next level, right associativity).
Notation "m ;;; k" := (bind m (fun _ => k))
  (at level 61, right associativity).

(** Modelled from the spec: the text prompt of the interactive prompt
    service, [text(question, validator)], which is code of the CLI package
    and not of the files embedded here.  A validation message is reported at once and
    ends only the current input step: the prompt takes the next input, and
    returns the first one its validator accepts. *)
Fixpoint read_text (validate : string -> option string) (inputs : list string)
    (shown : list Event) : option string * list string * list Event :=
  match inputs with
  | [] => (None, [], shown)
  | value :: rest =>
      match validate value with
      | None => (Some value, rest, shown)
      | Some message => read_text validate rest (shown ++ [ValidationError message])
      end
  end.

Definition inputPrompt_text (label question : string)
    (validate : string -> option string) : M string :=
  fun st =>
    match read_text validate (pending_text st) (trace st ++ [Prompt label question]) with
    | (Some value, rest, shown) =>
        (inl value, mkState rest (pending_choices st) shown)
    | (None, rest, shown) =>
        (inr Awaiting_input, mkState rest (pending_choices st) shown)
    end.

(** Modelled from the spec: the multiple-choice prompt of the same
    service, [multiselect(question, options, validator)]. *)
Fixpoint read_choices (validate : list string -> option string)
    (inputs : list (list string)) (shown : list Event)
  : option (list string) * list (list string) * list Event :=
  match inputs with
  | [] => (None, [], shown)
  | values :: rest =>
      match validate values with
      | None => (Some values, rest, shown)
      | Some message =>
          read_choices validate rest (shown ++ [ValidationError message])
      end
  end.

Definition inputPrompt_multiselect (label question : string)
    (validate : list string -> option string) : M (list string) :=
  fun st =>
    match read_choices validate (pending_choices st)
            (trace st ++ [Prompt label question]) with
    | (Some values, rest, shown) =>
        (inl values, mkState (pending_text st) rest shown)
    | (None, rest, shown) =>
        (inr Awaiting_input, mkState (pending_text st) rest shown)
    end.

(** *** [AddHandler] *)

Record AddArgs : Type := mkAddArgs {
  add_bucket : string;
  add_id : option string;
  add_jurisdiction : option string
}.

(** The validators handed to the prompts: [Some] is the message returned,
    [None] is [undefined], the input is accepted. *)
Definition validate_id (value : string) : option string :=
  if (String.length value =? 0)%nat then Some "This field cannot be empty"
  else None.

Definition validate_actions (values : list string) : option string :=
  if (List.length values =? 0)%nat then Some "Select atleast one action"
  else None.

Definition validate_days (value : string) : option string :=
  if isNaN (Number value) then Some "Please enter a number of days"
  else None.

Definition validate_days_or_date (value : string) : option string :=
  if isNaN (Number value) && negb (isValidDate value)
  then Some "Please enter a number of days or a valid date in the YYYY-MM-DD format"
  else None.

Definition set_abortMultipartUploadsTransition (r : LifecycleRule)
    (t : ObjectTransition) : LifecycleRule :=
  mkRule (id r) (enabled r) (conditions r) (deleteObjectsTransition r)
    (storageClassTransitions r) (Some t).

Definition set_deleteObjectsTransition (r : LifecycleRule)
    (t : ObjectTransition) : LifecycleRule :=
  mkRule (id r) (enabled r) (conditions r) (Some t)
    (storageClassTransitions r) (abortMultipartUploadsTransition r).

Definition set_storageClassTransitions (r : LifecycleRule)
    (ts : list StorageClassTransition) : LifecycleRule :=
  mkRule (id r) (enabled r) (conditions r) (deleteObjectsTransition r)
    (Some ts) (abortMultipartUploadsTransition r).

(** [{ [conditionType === "Age" ? "maxAge" : "date"]: conditionValue,
       type: conditionType }] *)
Definition age_condition (conditionValue : JsNumber) : LifecycleCondition :=
  mkCondition (Some conditionValue) None Age.

Definition date_condition (conditionValue : string) : LifecycleCondition :=
  mkCondition None (Some conditionValue) Date.

(** The condition read from the answer of the second kind of prompt;
    [toISOString] of an invalid date throws a [RangeError]. *)
Definition condition_of_input (conditionInput : string)
  : M LifecycleCondition :=
  if negb (isNaN (Number conditionInput)) then
    ret (age_condition (times (Number conditionInput) 86400))
  else if isValidDate conditionInput then
    match Date_parse (conditionInput ++ "T00:00:00.000Z") with
    | Some t => ret (date_condition (toISOString t))
    | None => stop Threw_RangeError
    end
  else stop (Threw_UserError "Invalid condition input.").

Section Add.
(** [formatActionDescription] of the helpers file, which names the action
    in the question of a prompt. *)
Variable formatActionDescription : string -> string.

(** One turn of the loop over the selected actions. *)
Definition add_action (newRule : LifecycleRule) (action : string)
  : M LifecycleRule :=
  if (action =? "abort-multipart")%string then
    conditionInput <-
      inputPrompt_text "condition"
        ("Enter the number of days after which to "
         ++ formatActionDescription action)
        validate_days ;;
    ret (set_abortMultipartUploadsTransition newRule
           (mkTransition (age_condition (times (Number conditionInput) 86400))))
  else
    conditionInput <-
      inputPrompt_text "condition"
        ("Enter the number of days or a date (YYYY-MM-DD) after which to "
         ++ formatActionDescription action)
        validate_days_or_date ;;
    c <- condition_of_input conditionInput ;;
    if (action =? "expire")%string then
      ret (set_deleteObjectsTransition newRule (mkTransition c))
    else if (action =? "transition")%string then
      ret (set_storageClassTransitions newRule
             [mkStorageClassTransition c "InfrequentAccess"])
    else ret newRule.

Fixpoint add_actions (newRule : LifecycleRule) (selectedActions : list string)
  : M LifecycleRule :=
  match selectedActions with
  | [] => ret newRule
  | action :: rest =>
      newRule' <- add_action newRule action ;;
      add_actions newRule' rest
  end.

Definition AddHandler_body (accountId : string) (args : AddArgs)
    (w : World) : M unit :=
  if negb (isTTY w) then
    stop (Threw_UserError
            "This command requires user input and cannot be run non-interactively.")
  else
    emit (GetLifecycleRules accountId (add_bucket args) (add_jurisdiction args)) ;;;
    let lifecycleRules := stored_rules w in
    ruleId <-
      match add_id args with
      | Some i => ret i
      | None =>
          inputPrompt_text "id"
            "Enter a unique identifier for the lifecycle rule" validate_id
      end ;;
    prefix' <-
      inputPrompt_text "prefix"
        "Enter a prefix for the lifecycle rule (leave empty for all prefixes)"
        (fun _ => None) ;;
    let newRule :=
      mkRule ruleId true
        (mkConditions
           (if (prefix' =? "")%string then None else Some prefix'))
        None None None in
    selectedActions <-
      inputPrompt_multiselect "actions" "Select the actions to apply"
        validate_actions ;;
    newRule' <- add_actions newRule selectedActions ;;
    let lifecycleRules' := lifecycleRules ++ [newRule'] in
    emit (Log ("Adding lifecycle rule '" ++ ruleId ++ "' to bucket '"
               ++ add_bucket args ++ "'...")) ;;;
    emit (PutLifecycleRules accountId (add_bucket args) lifecycleRules'
            (add_jurisdiction args)) ;;;
    emit (Log ("✨ Added lifecycle rule '" ++ ruleId ++ "' to bucket '"
               ++ add_bucket args ++ "'.")).
End Add.

Definition run (w : World) (m : M unit) : Outcome * list Event :=
  match m (mkState (typed w) (ticked w) []) with
  | (inl _, st) => (Returned, trace st)
  | (inr o, st) => (o, trace st)
  end.

Definition AddHandler (formatActionDescription : string -> string)
    (accountId : string) (args : AddArgs) (w : World)
  : Outcome * list Event :=
  run w (AddHandler_body formatActionDescription accountId args w).

(** *** [RemoveHandler] *)

Record RemoveArgs : Type := mkRemoveArgs {
  remove_bucket : string;
  remove_id : string;
  remove_jurisdiction : option string
}.

(** [rules.findIndex(p)], [None] for -1. *)
Fixpoint findIndex {A : Type} (p : A -> bool) (l : list A) : option nat :=
  match l with
  | [] => None
  | x :: rest =>
      if p x then Some O
      else
        match findIndex p rest with
        | Some i => Some (S i)
        | None => None
        end
  end.

(** [l.splice(index, 1)]: what is left in [l]. *)
Definition splice_one {A : Type} (l : list A) (index : nat) : list A :=
  firstn index l ++ skipn (S index) l.

Definition RemoveHandler (accountId : string) (args : RemoveArgs) (w : World)
  : Outcome * list Event :=
  let trace1 :=
    [GetLifecycleRules accountId (remove_bucket args) (remove_jurisdiction args)] in
  let lifecycleRules := stored_rules w in
  match findIndex (fun rule => (id rule =? remove_id args)%string)
          lifecycleRules with
  | None =>
      (Threw_UserError
         ("Lifecycle rule with ID '" ++ remove_id args
          ++ "' not found in policy for '" ++ remove_bucket args ++ "'."),
       trace1)
  | Some index =>
      let lifecycleRules' := splice_one lifecycleRules index in
      (Returned,
       trace1 ++
       [Log ("Removing lifecycle rule '" ++ remove_id args ++ "' from bucket '"
             ++ remove_bucket args ++ "'...");
        PutLifecycleRules accountId (remove_bucket args) lifecycleRules'
          (remove_jurisdiction args);
        Log ("Lifcycle rule '" ++ remove_id args ++ "' removed from bucket '"
             ++ remove_bucket args ++ "'.")])
  end.

End Lifecycle.

(* ================================================================= *)
(** ** The line printer *)

Module Render.
Import Js Apply.

(** [isNumber(c)] for a string: its first code unit is a decimal digit.
    Of the empty string [charCodeAt(0)] is NaN, and both comparisons are
    false. *)
Definition isNumber (c : string) : bool :=
  match c with
  | EmptyString => false
  | String a _ =>
      ((nat_of_ascii "0" <=? nat_of_ascii a)
       && (nat_of_ascii a <=? nat_of_ascii "9"))%nat
  end.

(** [state.render] *)
Inductive RenderState : Type :=
| in_left | in_right | in_quotes | in_number | in_section.

(** What the loop of [printLine] changes: [line], [lastAdded] and
    [state.render]. *)
Record Lexer : Type := mkLexer {
  line : Text;
  lastAdded : nat;
  render : RenderState
}.

(** [el.slice(a, b)] for indices that are not negative. *)
Definition slice (el : string) (a b : nat) : string :=
  String.substring a (b - a) el.

(** [el[i] === c] *)
Definition char_is (el : string) (i : nat) (c : ascii) : bool :=
  match String.get i el with
  | Some a => Ascii.eqb a c
  | None => false
  end.

(** [el[i]] as the string [isNumber] is given. *)
Definition char_at (el : string) (i : nat) : string :=
  match String.get i el with
  | Some a => String a EmptyString
  | None => EmptyString
  end.

Definition double_quote : ascii := ascii_of_nat 34.

(** [addToLine(i, color)]; the colour is the list of styles applied, none
    for the default [(s) => s]. *)
Definition addToLine (el : string) (i : nat) (color : list Style) (st : Lexer)
  : Lexer :=
  mkLexer (line st ++ styled color (slice el (lastAdded st) i)) i (render st).

Definition set_render (r : RenderState) (st : Lexer) : Lexer :=
  mkLexer (line st) (lastAdded st) r.

(** The body of [case "quotes"], which [case "right"] falls into. *)
Definition case_quotes (el : string) (i : nat) (st : Lexer) : Lexer :=
  if char_is el i double_quote
  then set_render in_right (addToLine el (i + 1) [brandColor] st)
  else st.

(** One turn of the loop, at index [i]. *)
Definition step (el : string) (st : Lexer) (i : nat) : Lexer :=
  match render st with
  | in_left =>
      if char_is el i "=" then set_render in_right st else st
  | in_right =>
      if char_is el i double_quote
      then set_render in_quotes (addToLine el i [] st)
      else if isNumber (char_at el i)
      then set_render in_number (addToLine el i [] st)
      else
        case_quotes el i
          (if char_is el i "[" && char_is el (i + 1) "["
           then set_render in_section st
           else st)
  | in_quotes => case_quotes el i st
  | in_number =>
      if negb (isNumber el)
      then set_render in_right (addToLine el i [red] st)
      else st
  | in_section =>
      if char_is el i "]" && (negb (i =? 0)%nat && char_is el (i - 1) "]")
      then set_render in_right (addToLine el (i + 1) [] st)
      else st
  end.

(** The switch after the loop. *)
Definition finish (el : string) (st : Lexer) : Lexer :=
  match render st with
  | in_left | in_right => addToLine el (String.length el) [] st
  | in_quotes => addToLine el (String.length el) [brandColor] st
  | in_number => addToLine el (String.length el) [red] st
  | in_section => addToLine el (String.length el) [bold] st
  end.

(** The line [printLine(el, startWith, printFunc)] hands to [printFunc]. *)
Definition printLine (el : string) (startWith : Text) : Text :=
  line
    (finish el
       (fold_left (step el) (seq 0 (String.length el))
          (mkLexer startWith 0 in_left))).

(** The characters of a text, its colours left out. *)
Definition characters (t : Text) : string :=
  fold_right (fun piece rest => (snd piece ++ rest)%string) EmptyString t.

(** What the line holds so far, in a loop that has reached index [i]: the
    start and the characters of [el] up to [lastAdded], which the index has
    not passed. *)
Definition kept (el : string) (startWith : Text) (i : nat) (st : Lexer) : Prop :=
  lastAdded st <= i /\
  characters (line st)
  = (characters startWith ++ String.substring 0 (lastAdded st) el)%string.

(** Every character of [s] satisfies [p]. *)
Fixpoint every_char (p : ascii -> bool) (s : string) : bool :=
  match s with
  | EmptyString => true
  | String c rest => p c && every_char p rest
  end.

Definition other_than (c : ascii) (a : ascii) : bool := negb (Ascii.eqb a c).

(** A character that leaves the state ["right"] as it is: no double quote,
    no digit, no opening bracket. *)
Definition filler (a : ascii) : bool :=
  other_than double_quote a
  && negb (isNumber (String a EmptyString))
  && other_than "[" a.

(** What an event of the reconciler puts on the terminal by [printLine]. *)
Definition printed_line (e : Event) : option Text :=
  match e with
  | PrintLine el startWith _ => Some (printLine el startWith)
  | _ => None
  end.

End Render.

(* ================================================================= *)
(** ** Notions the statements about the command use *)

Module ApplyNotions.
Import Js Apply.

(** A call that changes the remote state. *)
Definition is_mutation (e : Event) : bool :=
  match e with
  | CreateApplication _ | ModifyApplication _ _ => true
  | _ => false
  end.

Definition is_listing (e : Event) : bool :=
  match e with
  | ListApplications => true
  | _ => false
  end.

Definition is_confirm (e : Event) : bool :=
  match e with
  | Confirm _ => true
  | _ => false
  end.

Definition is_status (e : Event) : bool :=
  match e with
  | UpdateStatus _ => true
  | _ => false
  end.

(** What the first loop puts on the terminal: status lines and lines of
    [printLine]. *)
Definition is_output (e : Event) : bool :=
  match e with
  | UpdateStatus _ | PrintLine _ _ _ => true
  | _ => false
  end.

(** The remote call the second loop makes for an action. *)
Definition call_of (a : Action) : Event :=
  match a with
  | Create application => CreateApplication application
  | Modify application id _ => ModifyApplication id application
  end.

(** The status line of an entry that needs no change. *)
Definition no_changes (application : Application.t) : Event :=
  UpdateStatus
    (plain "no changes " ++ styled [brandColor] (Application.name application)).

(** The status lines of a configuration whose entries all need no
    change. *)
Definition status_of (byNames : list (string * Application.t))
    (appConfig : AppConfig) : list Event :=
  match lookup byNames (nameOf appConfig) with
  | Some application => [no_changes application]
  | None => []
  end.

(** What the command puts in the trace before the first loop. *)
Definition preamble (args : Args) : list Event :=
  [StartSection "Deploy a container application"
     "deploy all the changes of your application";
   ListApplications; Spinner (json args) "loading applications";
   Log (styled [dim] ("Container application changes" ++ String newline ""))].

Definition confirm_question : string := "Do you want to apply these changes?".

(** The ways [applyCommand] runs, by the place it ends at: with nothing
    declared; the listing rejected; a throw in the first loop; no action
    pushed; the confirmation declined; the second loop run, after the
    question [asked], if it was. *)
Inductive Run
    (TOML_stringify : JsVal -> string)
    (diffLines : string -> string -> list Change)
    (SchedulingPolicy_REGIONAL : JsVal) (VALIDATE_INPUT : string)
    (args : Args) (config : Config.t) (w : World)
  : Outcome * list Event -> Prop :=
| run_nothing_declared :
    Config.container_app config = [] ->
    Run TOML_stringify diffLines SchedulingPolicy_REGIONAL VALIDATE_INPUT
      args config w
      (Returned,
       StartSection "Deploy a container application"
         "deploy all the changes of your application"
       :: EndSection
            "You don't have any container applications defined in your wrangler.toml"
            (Some "You can set the following configuration in your wrangler.toml")
       :: map (fun el => PrintLine el (plain "  ") logRaw)
            (map trim
               (split_lines
                  (TOML_stringify
                     (endConfig SchedulingPolicy_REGIONAL args config)))))
| run_listing_rejected (err : RemoteError) :
    Config.container_app config <> [] ->
    listing w = inr err ->
    Run TOML_stringify diffLines SchedulingPolicy_REGIONAL VALIDATE_INPUT
      args config w
      (Rejected err,
       [StartSection "Deploy a container application"
          "deploy all the changes of your application";
        ListApplications; Spinner (json args) "loading applications"])
| run_threw (applications : list Application.t) (printed : list Event) :
    Config.container_app config <> [] ->
    listing w = inl applications ->
    plan TOML_stringify diffLines (applicationByNames applications)
      (Config.container_app config) [] [] = (printed, None) ->
    Run TOML_stringify diffLines SchedulingPolicy_REGIONAL VALIDATE_INPUT
      args config w
      (Threw_TypeError, preamble args ++ printed)
| run_no_changes (applications : list Application.t) (printed : list Event) :
    Config.container_app config <> [] ->
    listing w = inl applications ->
    plan TOML_stringify diffLines (applicationByNames applications)
      (Config.container_app config) [] [] = (printed, Some []) ->
    Run TOML_stringify diffLines SchedulingPolicy_REGIONAL VALIDATE_INPUT
      args config w
      (Returned,
       preamble args ++ printed ++ [EndSection "No changes to be made" None])
| run_declined (applications : list Application.t) (printed : list Event)
    (action : Action) (actions : list Action) :
    Config.container_app config <> [] ->
    listing w = inl applications ->
    plan TOML_stringify diffLines (applicationByNames applications)
      (Config.container_app config) [] [] = (printed, Some (action :: actions)) ->
    json args = false ->
    confirm_answer w = false ->
    Run TOML_stringify diffLines SchedulingPolicy_REGIONAL VALIDATE_INPUT
      args config w
      (Returned,
       preamble args ++ printed
       ++ [Confirm confirm_question; Cancel "Not applying changes"])
| run_applied (applications : list Application.t) (printed : list Event)
    (action : Action) (actions : list Action) (asked : list Event) :
    Config.container_app config <> [] ->
    listing w = inl applications ->
    plan TOML_stringify diffLines (applicationByNames applications)
      (Config.container_app config) [] [] = (printed, Some (action :: actions)) ->
    (json args = true /\ asked = []
     \/ json args = false /\ confirm_answer w = true
        /\ asked = [Confirm confirm_question]) ->
    Run TOML_stringify diffLines SchedulingPolicy_REGIONAL VALIDATE_INPUT
      args config w
      (apply_actions VALIDATE_INPUT args w (action :: actions)
         (preamble args ++ printed ++ asked)).

(** A declared entry that matches an application whose normal form is
    rendered to the same text as its own. *)
Definition up_to_date (TOML_stringify : JsVal -> string)
    (byNames : list (string * Application.t)) (appConfig : AppConfig) : Prop :=
  exists application p n,
    lookup byNames (nameOf appConfig) = Some application /\
    prevApp application = Some p /\
    nowApp appConfig = Some n /\
    TOML_stringify (container_app_table p)
    = TOML_stringify (container_app_table n).

(** A second live application of the name of [Samples.web], and one of
    another name. *)
Definition web_again : Application.t :=
  Application.make "id-2" "web"
    (JObj [("image", JStr "registry/web:2")])
    JUndefined (JStr "regional") JUndefined (JNum 1) JUndefined.

Definition worker : Application.t :=
  Application.make "id-3" "worker"
    (JObj [("image", JStr "registry/worker:1")])
    JUndefined (JStr "regional") JUndefined (JNum 1) JUndefined.

End ApplyNotions.

(* ================================================================= *)
(** ** Notions the statements about key order use *)

Module NormalNotions.
Import Js Apply.

(** No key occurs twice in the list. *)
Fixpoint nodup_keys (ks : list string) : bool :=
  match ks with
  | [] => true
  | k :: rest => negb (existsb (String.eqb k) rest) && nodup_keys rest
  end.

(** Every object, at every depth, has each of its keys once, as the
    objects of the program have. *)
Fixpoint distinct_keys (v : JsVal) : bool :=
  match v with
  | JArr items => forallb distinct_keys items
  | JObj props =>
      nodup_keys (map fst props)
      && forallb (fun kv => distinct_keys (snd kv)) props
  | _ => true
  end.

(** The normalisation as the specification words it: every key whose
    value is [undefined] is removed, at every depth, and the keys of every
    object are put in ascending order, arrays keeping their elements in
    order. *)
Fixpoint strip_deep (v : JsVal) : JsVal :=
  match v with
  | JArr items => JArr (map strip_deep items)
  | JObj props =>
      JObj
        (filter defined_value
           (map (fun kv => (fst kv, strip_deep (snd kv))) props))
  | _ => v
  end.




(** The keys for which the property list is what the engine keeps: a key
    made of decimal digits only may be an array index, which the engine
    lists before the other keys whenever it was added; an assignment to
    [__proto__] sets the prototype; and the sort compares UTF-16 code
    units, which is the order of the bytes for ASCII.  An ordinary key is
    an ASCII string other than [__proto__] that is not made of digits
    only. *)
Definition is_ascii (c : ascii) : bool := (nat_of_ascii c <? 128)%nat.

Definition is_decimal_digit (c : ascii) : bool :=
  let n := nat_of_ascii c in ((48 <=? n) && (n <=? 57))%nat.

Fixpoint all_chars (p : ascii -> bool) (s : string) : bool :=
  match s with
  | EmptyString => true
  | String c rest => p c && all_chars p rest
  end.

Definition digits_only (k : string) : bool :=
  negb (k =? "")%string && all_chars is_decimal_digit k.

Definition ordinary_key (k : string) : bool :=
  all_chars is_ascii k && negb (digits_only k) && negb (k =? "__proto__")%string.

(** Every key of every object, at every depth, is ordinary. *)
Fixpoint ordinary_keys (v : JsVal) : bool :=
  match v with
  | JArr items => forallb ordinary_keys items
  | JObj props =>
      forallb (fun kv => ordinary_key (fst kv) && ordinary_keys (snd kv)) props
  | _ => true
  end.

(** The keys [applicationToCreateApplication] writes. *)
Definition projected_keys : list string :=
  ["configuration"; "constraints"; "name"; "scheduling_policy"; "affinities";
   "instances"; "jobs"].

(** A declared entry of the name of [Samples.web], with [null] as an
    element of an array. *)
Definition web_null_port : AppConfig :=
  [ ("name", JStr "web");
    ("configuration",
     JObj [("image", JStr "registry/web:1"); ("ports", JArr [JNull])]) ].

End NormalNotions.

(* ================================================================= *)
(** ** Notions the statements about the lifecycle commands use *)

Module LifecycleNotions.
Import Js Lifecycle.
Local Open Scope Z_scope.

(** A step of a handler that writes nothing to the bucket, and that,
    when it stops the handler, stops it with an error or for want of
    input. *)
Definition keeps_puts {A : Type} (m : M A) : Prop :=
  forall st,
    filter is_put (trace (snd (m st))) = filter is_put (trace st) /\
    fst (m st) <> inr Returned.

(** A step that hands on a rule with the id and the flag of [r]. *)
Definition keeps_identity (r : LifecycleRule) (m : M LifecycleRule) : Prop :=
  forall st r' st', m st = (inl r', st') -> id r' = id r /\ enabled r' = enabled r.

(** The number a string of decimal digits denotes. *)
Definition decimal (s : string) : Z := fst (fst (take_digits 10 s 0 0)).

(** The suffix [AddHandler] puts behind a date. *)
Definition midnight : string := "T00:00:00.000Z".

(** [p] holds of every number below [n]. *)
Fixpoint upto (n : nat) (p : Z -> bool) : bool :=
  match n with
  | O => true
  | S k => p (Z.of_nat k) && upto k p
  end.

(** A day of the calendar is found again from its day number. *)
Definition round_trips (y m d : Z) : bool :=
  negb (valid_day y m d)
  || (let '(y', m', d') := civil_from_days (days_from_civil y m d) in
      (y' =? y) && (m' =? m) && (d' =? d)).

End LifecycleNotions.

(* ================================================================= *)
(** ** The lifecycle-rule commands: [SetHandler] *)

Module LifecycleSet.
Import Js.

Record SetArgs : Type := mkSetArgs {
  set_bucket : string;
  set_file : string;
  set_jurisdiction : option string;
  force : bool
}.

(** The rules of the file are written as they were parsed: the type
    [{ rules: LifecycleRule[] }] of the source is an assertion, nothing
    checks the elements. *)
Inductive Event : Type :=
| ReadFile (file : string)
| Confirm (question : string)
| PutLifecycleRules (accountId bucket : string) (rules : list JsVal)
    (jurisdiction : option string)
| Log (message : string).

Definition is_set_put (e : Event) : bool :=
  match e with
  | PutLifecycleRules _ _ _ _ => true
  | _ => false
  end.

Definition is_set_confirm (e : Event) : bool :=
  match e with
  | Confirm _ => true
  | _ => false
  end.

(** What [JSON.parse(readFileSync(file))] throws: an [Error], with its
    message, or a value of another kind. *)
Inductive Thrown : Type :=
| an_Error (message : string)
| another_value.

(** How the handler ends: it returns, it throws, or the write it awaits
    is rejected by the remote service, with an error. *)
Inductive Outcome : Type :=
| Returned
| Threw_UserError (message : string)
| Threw_TypeError
| Rethrew
| Rejected (error : string).

(** Modelled from the spec: the dialog [confirm(question) -> bool], the
    file reader and the remote write, which are code of other files than
    the ones embedded here.  The outside is what reading and parsing the
    file gives, the answer to the question, and the error, if any, the
    write is rejected with. *)
Record World : Type := mkWorld {
  policy_file : Thrown + JsVal;
  confirmed : bool;
  put_rejection : option string
}.

(** [lifecyclePolicy.rules]: [None] is the [TypeError] of a property read
    on [null] or [undefined]; an array or a primitive value has no such
    property. *)
Definition property_rules (lifecyclePolicy : JsVal) : option JsVal :=
  match lifecyclePolicy with
  | JNull | JUndefined => None
  | JObj props => Some (obj_get props "rules")
  | _ => Some JUndefined
  end.

(** [rules.length] and the elements of [rules], for an array. *)
Definition elements (rules : JsVal) : list JsVal :=
  match rules with
  | JArr items => items
  | _ => []
  end.

Definition overwrite_question (bucket : string) : string :=
  "Are you sure you want to overwrite all existing lifecycle rules for bucket '"
  ++ bucket ++ "'? ".

(** The end of the handler, from the log line before the write; the last
    line is logged when the write was accepted. *)
Definition put_policy (accountId : string) (args : SetArgs) (w : World)
    (rules : JsVal) (trace : list Event) : Outcome * list Event :=
  let trace' :=
    trace ++
    [Log ("Setting lifecycle policy ("
          ++ NilZero.string_of_uint (Nat.to_uint (List.length (elements rules)))
          ++ " rules) for bucket '" ++ set_bucket args ++ "'...");
     PutLifecycleRules accountId (set_bucket args) (elements rules)
       (set_jurisdiction args)] in
  match put_rejection w with
  | Some error => (Rejected error, trace')
  | None =>
      (Returned,
       trace' ++
       [Log ("✨ Set lifecycle policy for bucket '" ++ set_bucket args ++ "'.")])
  end.

(** [SetHandler] from the line where the account id is known: the banner,
    the reading of the configuration and the authentication come before
    it, and an error there ends the command before the file is read. *)
Definition SetHandler (accountId : string) (args : SetArgs) (w : World)
  : Outcome * list Event :=
  let trace1 := [ReadFile (set_file args)] in
  match policy_file w with
  | inl (an_Error message) =>
      (Threw_UserError
         ("Failed to read or parse the lifecycle policy config file: '"
          ++ message ++ "'"),
       trace1)
  | inl another_value => (Rethrew, trace1)
  | inr lifecyclePolicy =>
      match property_rules lifecyclePolicy with
      | None => (Threw_TypeError, trace1)
      | Some rules =>
          if negb (truthy rules) || negb (isArray rules) then
            (Threw_UserError
               "The lifecycle policy config file must contain a 'rules' array.",
             trace1)
          else if negb (force args) then
            let trace2 := trace1 ++ [Confirm (overwrite_question (set_bucket args))] in
            if negb (confirmed w) then (Returned, trace2 ++ [Log "Set cancelled."])
            else put_policy accountId args w rules trace2
          else put_policy accountId args w rules trace1
      end
  end.

(** A policy file with two rules, and one whose rules are not an array. *)
Definition two_rules : JsVal :=
  JObj [("rules",
         JArr [JObj [("id", JStr "a"); ("enabled", JBool true)];
               JObj [("id", JStr "b"); ("enabled", JBool false)]])].

Definition rules_not_array : JsVal :=
  JObj [("rules", JObj [("id", JStr "a")])].

End LifecycleSet.

(* ================================================================= *)
(** ** Facts about the reconciler *)

Module ApplyFacts.
Import Js Apply.

(** String order *)
Lemma compare_refl (s : string) : (s ?= s)%string = Eq.
Proof. apply String_as_OT.cmp_eq. reflexivity. Qed.

Lemma ltb_trans (a b c : string) :
  (a <? b)%string = true -> (b <? c)%string = true -> (a <? c)%string = true.
Proof.
  unfold String.ltb. intros Hab Hbc.
  destruct (a ?= b)%string eqn:E1; try discriminate.
  destruct (b ?= c)%string eqn:E2; try discriminate.
  apply String_as_OT.cmp_lt in E1, E2.
  pose proof (String_as_OT.lt_trans _ _ _ E1 E2) as H.
  apply String_as_OT.cmp_lt in H. unfold String_as_OT.cmp in H. now rewrite H.
Qed.

Lemma ltb_irrefl (a : string) : (a <? a)%string = false.
Proof. unfold String.ltb. now rewrite compare_refl. Qed.

Lemma leb_ltb_or_eq (a b : string) :
  (a <=? b)%string = true <-> (a <? b)%string = true \/ a = b.
Proof.
  unfold String.leb, String.ltb. split.
  - destruct (a ?= b)%string eqn:E; intros H; try discriminate.
    + right. now apply String.compare_eq_iff.
    + now left.
  - intros [H | ->].
    + destruct (a ?= b)%string; congruence.
    + now rewrite compare_refl.
Qed.

Lemma leb_false_ltb (a b : string) :
  (a <=? b)%string = false -> (b <? a)%string = true.
Proof.
  unfold String.leb, String.ltb. rewrite (String.compare_antisym a b).
  destruct (b ?= a)%string; simpl; congruence.
Qed.

Lemma ltb_leb (a b : string) : (a <? b)%string = true -> (a <=? b)%string = true.
Proof. intros H. apply leb_ltb_or_eq. now left. Qed.

Lemma ltb_neq (a b : string) : (a <? b)%string = true -> a <> b.
Proof. intros H ->. rewrite ltb_irrefl in H. discriminate. Qed.

Lemma leb_trans (a b c : string) :
  (a <=? b)%string = true -> (b <=? c)%string = true -> (a <=? c)%string = true.
Proof.
  rewrite !leb_ltb_or_eq. intros [H1 | ->] [H2 | ->]; auto.
  left. eapply ltb_trans; eauto.
Qed.

(** Sorting *)
Lemma insert_In (k : string) (l : list string) (x : string) :
  In x (insert k l) <-> x = k \/ In x l.
Proof.
  induction l as [|h t IH]; simpl.
  - intuition.
  - destruct (k <=? h)%string; simpl; rewrite ?IH; intuition.
Qed.

Lemma sort_In (l : list string) (x : string) : In x (sort l) <-> In x l.
Proof.
  induction l as [|h t IH]; simpl; [tauto|].
  rewrite insert_In, IH. intuition.
Qed.

Lemma insert_sorted (k : string) (l : list string) :
  StronglySorted sle l -> StronglySorted sle (insert k l).
Proof.
  induction 1 as [|h t Hs IH Hall]; simpl.
  - repeat constructor.
  - destruct (k <=? h)%string eqn:E.
    + constructor; [constructor; assumption|].
      constructor; [exact E|].
      rewrite Forall_forall in *. intros x Hx.
      eapply leb_trans; [exact E | now apply Hall].
    + constructor; [exact IH|].
      rewrite Forall_forall in *. intros x Hx.
      apply insert_In in Hx. destruct Hx as [-> | Hx]; [|now apply Hall].
      apply ltb_leb. now apply leb_false_ltb.
Qed.

Lemma sort_sorted (l : list string) : StronglySorted sle (sort l).
Proof.
  induction l as [|h t IH]; simpl; [constructor | now apply insert_sorted].
Qed.

Lemma sort_strict_id (l : list string) : StronglySorted slt l -> sort l = l.
Proof.
  induction 1 as [|h t Hs IH Hall]; simpl; [reflexivity|].
  rewrite IH. destruct t as [|h' t']; [reflexivity|]. simpl.
  inversion Hall as [|? ? Hh _]; subst.
  now rewrite (ltb_leb _ _ Hh).
Qed.

Lemma strict_NoDup (l : list string) : StronglySorted slt l -> NoDup l.
Proof.
  induction 1 as [|h t Hs IH Hall]; constructor; [|assumption].
  intros Hin. rewrite Forall_forall in Hall. apply Hall in Hin.
  unfold slt in Hin. now rewrite ltb_irrefl in Hin.
Qed.

Lemma strict_snoc (l : list string) (k : string) :
  StronglySorted slt l -> (forall a, In a l -> slt a k) ->
  StronglySorted slt (l ++ [k]).
Proof.
  induction 1 as [|h t Hs IH Hall]; intros Hk; simpl.
  - repeat constructor.
  - constructor.
    + apply IH. intros a Ha. apply Hk. now right.
    + rewrite Forall_forall in *. intros x Hx. apply in_app_or in Hx.
      destruct Hx as [Hx | [<- | []]]; [now apply Hall|]. apply Hk. now left.
Qed.

(** Property lists *)
Section PropertyLists.
Context {A : Type}.
Implicit Types (o : list (string * A)) (k : string) (v : A).

Lemma lookup_In o k v : lookup o k = Some v -> In (k, v) o.
Proof.
  induction o as [|[k' v'] r IH]; simpl; [discriminate|].
  destruct (String.eqb_spec k' k) as [-> | Hne].
  - intros [= ->]. now left.
  - intros H. right. now apply IH.
Qed.

Lemma lookup_None o k : lookup o k = None <-> ~ In k (map fst o).
Proof.
  induction o as [|[k' v'] r IH]; simpl; [tauto|].
  destruct (String.eqb_spec k' k) as [-> | Hne].
  - split; [discriminate | intros H; exfalso; apply H; now left].
  - rewrite IH. tauto.
Qed.

Lemma lookup_Some_key o k v : lookup o k = Some v -> In k (map fst o).
Proof. intros H. apply lookup_In in H. now apply (in_map fst) in H. Qed.

Lemma lookup_In_NoDup o k v :
  NoDup (map fst o) -> In (k, v) o -> lookup o k = Some v.
Proof.
  induction o as [|[k' v'] r IH]; simpl; [tauto|].
  intros Hnd Hin. inversion Hnd as [|? ? Hnot Hnd']; subst.
  destruct Hin as [[= -> ->] | Hin].
  - now rewrite String.eqb_refl.
  - destruct (String.eqb_spec k' k) as [-> | Hne]; [|now apply IH].
    exfalso. apply Hnot. now apply (in_map fst) in Hin.
Qed.

Lemma assign_notin o k v : ~ In k (map fst o) -> assign o k v = o ++ [(k, v)].
Proof.
  induction o as [|[k' v'] r IH]; simpl; [reflexivity|].
  intros Hnot. destruct (String.eqb_spec k' k) as [-> | Hne]; [tauto|].
  rewrite IH; tauto.
Qed.

Lemma assign_same o k v : lookup o k = Some v -> assign o k v = o.
Proof.
  induction o as [|[k' v'] r IH]; simpl; [discriminate|].
  destruct (String.eqb_spec k' k) as [-> | Hne].
  - now intros [= ->].
  - intros H. now rewrite IH.
Qed.

Lemma assign_keys o k v : In k (map fst o) -> map fst (assign o k v) = map fst o.
Proof.
  induction o as [|[k' v'] r IH]; simpl; [tauto|].
  destruct (String.eqb_spec k' k) as [-> | Hne]; [reflexivity|].
  intros [H | H]; [contradiction|]. simpl. now rewrite IH.
Qed.

Lemma lookup_assign o k v k' :
  lookup (assign o k v) k' = if (k =? k')%string then Some v else lookup o k'.
Proof.
  induction o as [|[k0 v0] r IH]; simpl.
  - reflexivity.
  - destruct (String.eqb_spec k0 k) as [-> | Hne]; simpl.
    + destruct (k =? k')%string; reflexivity.
    + rewrite IH. destruct (String.eqb_spec k0 k') as [-> | Hne'].
      * destruct (String.eqb_spec k k'); [congruence | reflexivity].
      * reflexivity.
Qed.
End PropertyLists.

Lemma build_filled (g : string -> JsVal) (ks : list string) :
  forall acc,
    StronglySorted sle ks -> filled g acc ->
    (forall a k, In a (map fst acc) -> In k ks -> sle a k) ->
    filled g (build g ks acc) /\
    (forall k, In k (map fst (build g ks acc)) <-> In k (map fst acc) \/ In k ks).
Proof.
  induction ks as [|k ks IH]; intros acc Hs [Hacc Hval] Hle; simpl.
  - split; [split; assumption | intros; tauto].
  - inversion Hs as [|? ? Hs' Hall]; subst. rewrite Forall_forall in Hall.
    destruct (in_dec string_dec k (map fst acc)) as [Hin | Hnot].
    + assert (Hsame : assign acc k (g k) = acc).
      { apply assign_same. apply in_map_iff in Hin.
        destruct Hin as [[k' v] [Hk Hin]]. simpl in Hk. subst k'.
        rewrite (Hval _ _ Hin) in Hin.
        apply lookup_In_NoDup; [now apply strict_NoDup | exact Hin]. }
      rewrite Hsame.
      destruct (IH acc Hs' (conj Hacc Hval)) as [Hf Hk].
      { intros a k' Ha Hk'. apply Hle; [exact Ha | now right]. }
      split; [exact Hf|]. intros k'. rewrite Hk. intuition. subst. now left.
    + rewrite (assign_notin _ _ _ Hnot).
      destruct (IH (acc ++ [(k, g k)]) Hs') as [Hf Hk].
      * split.
        -- rewrite map_app. simpl. apply strict_snoc; [exact Hacc|].
           intros a Ha. assert (Hak : sle a k) by (apply Hle; [exact Ha | now left]).
           apply leb_ltb_or_eq in Hak. destruct Hak as [Hlt | ->]; [exact Hlt | contradiction].
        -- intros k' v Hin. apply in_app_or in Hin.
           destruct Hin as [Hin | [[= <- <-] | []]]; [now apply Hval | reflexivity].
      * intros a k' Ha Hk'. rewrite map_app in Ha. apply in_app_or in Ha.
        destruct Ha as [Ha | [<- | []]].
        -- apply Hle; [exact Ha | now right].
        -- now apply Hall.
      * split; [exact Hf|]. intros k'. rewrite Hk, map_app, in_app_iff. simpl. intuition.
Qed.

Lemma order_obj (c : Obj) :
  order (JObj c) = JObj (build (obj_get c) (sort (map fst c)) []).
Proof. reflexivity. Qed.

Lemma order_filled (c : Obj) :
  filled (obj_get c) (build (obj_get c) (sort (map fst c)) []) /\
  (forall k, In k (map fst (build (obj_get c) (sort (map fst c)) []))
             <-> In k (map fst c)).
Proof.
  destruct (build_filled (obj_get c) (sort (map fst c)) []) as [Hf Hk].
  - apply sort_sorted.
  - split; [constructor | intros ? ? []].
  - intros a k [].
  - split; [exact Hf|]. intros k. rewrite Hk, sort_In. simpl. tauto.
Qed.

Lemma build_self (rest : Obj) :
  forall acc,
    NoDup (map fst (acc ++ rest)) ->
    build (obj_get (acc ++ rest)) (map fst rest) acc = acc ++ rest.
Proof.
  induction rest as [|[k v] r IH]; intros acc Hnd; simpl.
  - now rewrite app_nil_r.
  - assert (Hnot : ~ In k (map fst acc)).
    { rewrite map_app in Hnd. simpl in Hnd. apply NoDup_remove_2 in Hnd.
      intros H. apply Hnd. apply in_or_app. now left. }
    assert (Hget : obj_get (acc ++ (k, v) :: r) k = v).
    { unfold obj_get. rewrite (lookup_In_NoDup _ k v Hnd); [reflexivity|].
      apply in_or_app. right. now left. }
    rewrite Hget, (assign_notin _ _ _ Hnot).
    replace (acc ++ (k, v) :: r) with ((acc ++ [(k, v)]) ++ r)
      by (now rewrite <- app_assoc).
    apply IH. now rewrite <- app_assoc.
Qed.

Lemma order_sorted_id (ps : Obj) :
  StronglySorted slt (map fst ps) -> order (JObj ps) = JObj ps.
Proof.
  intros Hs. rewrite order_obj, (sort_strict_id _ Hs).
  f_equal. apply (build_self ps []). simpl. now apply strict_NoDup.
Qed.

(** The loop over the entries *)
Lemma sort_entries_lookup (f : JsVal -> option JsVal) (entries : Obj) :
  forall copy res,
    sort_entries f entries copy = Some res ->
    (forall k, In k (map fst entries) -> In k (map fst copy)) ->
    map fst res = map fst copy /\
    forall k,
      lookup res k =
      match last_container k entries with
      | Some v => f v
      | None => lookup copy k
      end.
Proof.
  induction entries as [|[k0 v0] rest IH]; intros copy res Hrun Hkeys; simpl in *.
  - injection Hrun as <-. split; reflexivity.
  - assert (Hrest : forall k, In k (map fst rest) -> In k (map fst copy))
      by (intros k Hk; apply Hkeys; now right).
    assert (Hskip :
      is_container v0 = false ->
      sort_entries f rest copy = Some res ->
      map fst res = map fst copy /\
      forall k, lookup res k =
        match match last_container k rest with
              | Some v' => Some v'
              | None => if (k0 =? k)%string && is_container v0 then Some v0 else None
              end with
        | Some v => f v
        | None => lookup copy k
        end).
    { intros Hc Hrun'. destruct (IH _ _ Hrun' Hrest) as [Hk Hl].
      split; [exact Hk|]. intros k. rewrite Hl, Hc, andb_false_r.
      destruct (last_container k rest); reflexivity. }
    assert (Hstep :
      is_container v0 = true ->
      match f v0 with
      | Some value' => sort_entries f rest (assign copy k0 value')
      | None => None
      end = Some res ->
      map fst res = map fst copy /\
      forall k, lookup res k =
        match match last_container k rest with
              | Some v' => Some v'
              | None => if (k0 =? k)%string && is_container v0 then Some v0 else None
              end with
        | Some v => f v
        | None => lookup copy k
        end).
    { intros Hc Hrun'. destruct (f v0) as [v0'|] eqn:Ef; [|discriminate].
      assert (Hk0 : In k0 (map fst copy)) by (apply Hkeys; now left).
      destruct (IH _ _ Hrun') as [Hk Hl].
      { intros k Hk. rewrite assign_keys by exact Hk0. now apply Hrest. }
      split; [now rewrite Hk, assign_keys|].
      intros k. rewrite Hl, lookup_assign, Hc, andb_true_r.
      destruct (last_container k rest); [reflexivity|].
      destruct (k0 =? k)%string; [now rewrite Ef | reflexivity]. }
    destruct v0; simpl in Hrun; auto.
Qed.

Lemma sort_entries_fixed (f : JsVal -> option JsVal) (entries : Obj) :
  forall copy,
    (forall k v, In (k, v) entries -> lookup copy k = Some v) ->
    (forall k v, In (k, v) entries -> is_container v = true -> f v = Some v) ->
    sort_entries f entries copy = Some copy.
Proof.
  induction entries as [|[k0 v0] rest IH]; intros copy Hl Hf; simpl; [reflexivity|].
  assert (IH' : sort_entries f rest copy = Some copy).
  { apply IH; intros k v Hin; [apply Hl | apply (Hf k)]; now right. }
  assert (Hl0 : lookup copy k0 = Some v0) by (apply Hl; now left).
  destruct v0; simpl; try exact IH';
    (rewrite (Hf k0 _ (or_introl eq_refl) eq_refl), (assign_same _ _ _ Hl0);
     exact IH').
Qed.


Lemma sorted_keys_strict (l : list string) :
  StronglySorted slt l -> sorted_keys l = true.
Proof.
  induction 1 as [|h t Hs IH Hall]; [reflexivity|].
  destruct t as [|h' t']; [reflexivity|].
  inversion Hall as [|? ? Hh _]; subst.
  change (((h <? h')%string && sorted_keys (h' :: t')) = true).
  now rewrite Hh, IH.
Qed.

Lemma last_container_In (k : string) (entries : Obj) (v : JsVal) :
  last_container k entries = Some v -> In (k, v) entries /\ is_container v = true.
Proof.
  induction entries as [|[k' v'] rest IH]; simpl; [discriminate|].
  destruct (last_container k rest) as [v0|].
  - intros [= ->]. destruct IH as [Hin Hc]; [reflexivity|]. split; [now right | exact Hc].
  - destruct (String.eqb_spec k' k) as [-> | Hne]; simpl; [|discriminate].
    destruct (is_container v') eqn:Hc; [|discriminate].
    intros [= ->]. split; [now left | exact Hc].
Qed.

Lemma last_container_None (k : string) (entries : Obj) :
  last_container k entries = None ->
  forall v, In (k, v) entries -> is_container v = false.
Proof.
  induction entries as [|[k' v'] rest IH]; simpl; [intros _ ? []|].
  destruct (last_container k rest) as [v0|]; [discriminate|].
  intros Hnone v [[= -> ->] | Hin].
  - rewrite String.eqb_refl in Hnone. simpl in Hnone.
    destruct (is_container v); [discriminate | reflexivity].
  - now apply IH.
Qed.

Lemma not_container_sorted (v : JsVal) : is_container v = false -> deep_sorted v = true.
Proof. destruct v; simpl; congruence. Qed.

Lemma map_items_Forall2 (f : JsVal -> option JsVal) (items : list JsVal) :
  forall items',
    map_items f items = Some items' ->
    Forall2 (fun x y => f x = Some y) items items'.
Proof.
  induction items as [|x r IH]; simpl; intros items' H.
  - injection H as <-. constructor.
  - destruct (f x) as [y|] eqn:Ex; [|discriminate].
    destruct (map_items f r) as [r'|]; [|discriminate].
    injection H as <-. constructor; [exact Ex | now apply IH].
Qed.

Lemma map_items_fixed (f : JsVal -> option JsVal) (items : list JsVal) :
  Forall (fun x => f x = Some x) items -> map_items f items = Some items.
Proof.
  induction 1 as [|x r Hx _ IH]; simpl; [reflexivity|]. now rewrite Hx, IH.
Qed.

Lemma sortObjectDeeply_container (v0 v : JsVal) :
  is_container v0 = true -> sortObjectDeeply v0 = Some v -> is_container v = true.
Proof.
  destruct v0; simpl; try discriminate; intros _ H.
  - destruct (map_items sortObjectDeeply items); [|discriminate]. now injection H as <-.
  - destruct (sort_entries sortObjectDeeply props props); [|discriminate].
    now injection H as <-.
Qed.

(** The object [sortObjectDeeply] makes of an object: its keys are those of
    the argument, in ascending order; a value is the sorted form of an array
    or object the argument holds under that key, or a value of another kind
    that the argument holds under it. *)
Lemma sortObjectDeeply_props (props : Obj) (v' : JsVal) :
  sortObjectDeeply (JObj props) = Some v' ->
  exists r,
    v' = JObj r /\
    StronglySorted slt (map fst r) /\
    (forall k, In k (map fst r) <-> In k (map fst props)) /\
    forall k v, In (k, v) r ->
      (exists v0, In (k, v0) props /\ is_container v0 = true
                  /\ sortObjectDeeply v0 = Some v)
      \/ (In (k, v) props /\ is_container v = false).
Proof.
  simpl. intros H.
  destruct (sort_entries sortObjectDeeply props props) as [c|] eqn:E; [|discriminate].
  injection H as <-. rewrite order_obj.
  destruct (sort_entries_lookup _ _ _ _ E (fun k Hk => Hk)) as [Hkeys Hlook].
  destruct (order_filled c) as [[Hs Hval] Hk].
  exists (build (obj_get c) (sort (map fst c)) []).
  split; [reflexivity|]. split; [exact Hs|]. split.
  - intros k. rewrite Hk, Hkeys. tauto.
  - intros k v Hin. rewrite (Hval _ _ Hin).
    assert (Hkc : In k (map fst c)).
    { apply Hk. now apply (in_map fst) in Hin. }
    unfold obj_get. specialize (Hlook k).
    destruct (lookup c k) as [w|] eqn:Ew; [|now apply lookup_None in Ew].
    destruct (last_container k props) as [v0|] eqn:El.
    + apply last_container_In in El. destruct El as [Hin0 Hc0].
      left. exists v0. auto.
    + symmetry in Hlook. apply lookup_In in Hlook.
      right. split; [exact Hlook | exact (last_container_None _ _ El _ Hlook)].
Qed.

(** What [sortObjectDeeply] returns is a fixed point of it, and sorted at
    every depth. *)
Lemma sortObjectDeeply_normal (v : JsVal) :
  forall v',
    sortObjectDeeply v = Some v' ->
    sortObjectDeeply v' = Some v' /\ deep_sorted v' = true.
Proof.
  induction v as [| | b | n | s | items IH | props IH] using JsVal_nested_ind;
    intros v' H; try (simpl in H; injection H as <-; split; reflexivity);
    try discriminate.
  - (* arrays *)
    simpl in H.
    destruct (map_items sortObjectDeeply items) as [items'|] eqn:E; [|discriminate].
    injection H as <-.
    apply map_items_Forall2 in E.
    assert (Hall : Forall (fun y => sortObjectDeeply y = Some y /\ deep_sorted y = true) items').
    { induction E as [|x y r r' Hxy _ IHE]; [constructor|].
      inversion IH as [|? ? Hx Hr]; subst.
      constructor; [now apply Hx | now apply IHE]. }
    split.
    + simpl. rewrite map_items_fixed; [reflexivity|].
      eapply Forall_impl; [|exact Hall]. now intros y [Hy _].
    + simpl. apply forallb_forall. rewrite Forall_forall in Hall.
      intros y Hy. now apply Hall.
  - (* objects *)
    destruct (sortObjectDeeply_props _ _ H) as (r & -> & Hs & _ & Hvals).
    assert (Hgood : forall k v, In (k, v) r ->
              deep_sorted v = true /\
              (is_container v = true -> sortObjectDeeply v = Some v)).
    { intros k v Hin. rewrite Forall_forall in IH.
      destruct (Hvals k v Hin) as [(v0 & Hin0 & _ & Hv0) | [_ Hc]].
      - destruct (IH _ Hin0 v Hv0) as [Hfix Hsorted]. auto.
      - split; [now apply not_container_sorted | congruence]. }
    assert (Hfix : sort_entries sortObjectDeeply r r = Some r).
    { apply sort_entries_fixed.
      - intros k v Hin. apply lookup_In_NoDup; [now apply strict_NoDup | exact Hin].
      - intros k v Hin Hc. now apply (Hgood k v Hin). }
    split.
    + simpl. rewrite Hfix. now rewrite order_sorted_id.
    + simpl. rewrite (sorted_keys_strict _ Hs). simpl.
      apply forallb_forall. intros [k v] Hin. simpl. now apply (Hgood k v Hin).
Qed.

(** What [sortObjectDeeply] returns is its argument with keys reordered. *)
Lemma sortObjectDeeply_reorders (v : JsVal) :
  forall v', sortObjectDeeply v = Some v' -> key_reordering v v'.
Proof.
  induction v as [| | b | n | s | items IH | props IH] using JsVal_nested_ind;
    intros v' H;
    try (simpl in H; injection H as <-; now apply kr_leaf);
    try discriminate.
  - simpl in H.
    destruct (map_items sortObjectDeeply items) as [items'|] eqn:E; [|discriminate].
    injection H as <-. apply map_items_Forall2 in E. apply kr_arr.
    induction E as [|x y r r' Hxy _ IHE]; [constructor|].
    inversion IH as [|? ? Hx Hr]; subst.
    constructor; [now apply Hx | now apply IHE].
  - destruct (sortObjectDeeply_props _ _ H) as (r & -> & _ & Hkeys & Hvals).
    apply kr_obj; [exact Hkeys|].
    intros k v Hin. rewrite Forall_forall in IH.
    destruct (Hvals k v Hin) as [(v0 & Hin0 & _ & Hv0) | [Hin' Hc]].
    + exists v0. split; [exact Hin0 | exact (IH _ Hin0 v Hv0)].
    + exists v. split; [exact Hin' | now apply kr_leaf].
Qed.

(** When [sortObjectDeeply] returns: exactly on the values that have no
    [null] where it would be called on it. *)
Lemma map_items_returns (f : JsVal -> option JsVal) (items : list JsVal) :
  Forall (fun x => exists y, f x = Some y) items ->
  exists items', map_items f items = Some items'.
Proof.
  induction 1 as [|x r [y Hy] _ [r' Hr']]; simpl; [eauto|].
  rewrite Hy, Hr'. eauto.
Qed.

Lemma sort_entries_returns (f : JsVal -> option JsVal) (entries : Obj) :
  (forall k v, In (k, v) entries -> is_container v = true ->
               exists v', f v = Some v') ->
  forall copy, exists res, sort_entries f entries copy = Some res.
Proof.
  induction entries as [|[k0 v0] rest IH]; intros Hf copy; simpl; [eauto|].
  assert (Hrest : forall copy', exists res, sort_entries f rest copy' = Some res).
  { apply IH. intros k v Hin. apply (Hf k v). now right. }
  destruct v0; simpl; try apply Hrest;
    (destruct (Hf k0 _ (or_introl eq_refl) eq_refl) as [v' Hv'];
     rewrite Hv'; apply Hrest).
Qed.

Lemma sort_entries_called (f : JsVal -> option JsVal) (entries : Obj) :
  forall copy res,
    sort_entries f entries copy = Some res ->
    forall k v, In (k, v) entries -> is_container v = true ->
                exists v', f v = Some v'.
Proof.
  induction entries as [|[k0 v0] rest IH]; intros copy res H k v Hin Hc;
    [destruct Hin|].
  destruct Hin as [[= -> ->] | Hin].
  - destruct v; try discriminate; simpl in H;
      (destruct (f _) as [v'|]; [eauto | discriminate]).
  - destruct v0; simpl in H; try (eapply IH; eassumption);
      (destruct (f _) as [v'|]; [eapply IH; eassumption | discriminate]).
Qed.

Lemma sortObjectDeeply_returns (v : JsVal) :
  null_free v = true <-> exists v', sortObjectDeeply v = Some v'.
Proof.
  induction v as [| | b | n | s | items IH | props IH] using JsVal_nested_ind;
    try (split; [intros _; simpl; eauto | reflexivity]).
  - split; [discriminate | intros [v' H]; discriminate].
  - (* arrays *)
    simpl. rewrite forallb_forall. split.
    + intros Hnf.
      destruct (map_items_returns sortObjectDeeply items) as [items' H'].
      { rewrite Forall_forall in *. intros x Hx. apply (IH x Hx). now apply Hnf. }
      rewrite H'. eauto.
    + intros [v' H] x Hx.
      destruct (map_items sortObjectDeeply items) as [items'|] eqn:E; [|discriminate].
      apply map_items_Forall2 in E. rewrite Forall_forall in IH.
      apply (IH x Hx).
      clear H IH. induction E as [|a y r r' Hay _ IHE]; [destruct Hx|].
      destruct Hx as [<- | Hx]; eauto.
  - (* objects *)
    simpl. rewrite forallb_forall. rewrite Forall_forall in IH. split.
    + intros Hnf.
      destruct (sort_entries_returns sortObjectDeeply props) with (copy := props)
        as [res Hres].
      { intros k v Hin Hc. apply (IH _ Hin). simpl.
        specialize (Hnf _ Hin). simpl in Hnf.
        destruct v; simpl in *; congruence. }
      rewrite Hres. eauto.
    + intros [v' H] [k v] Hin. simpl.
      destruct (sort_entries sortObjectDeeply props props) as [c|] eqn:E;
        [|discriminate].
      destruct (is_container v) eqn:Hc.
      * destruct (sort_entries_called _ _ _ _ E k v Hin Hc) as [w Hw].
        assert (Hn : null_free v = true) by (apply (IH _ Hin); simpl; eauto).
        rewrite Hn. apply orb_true_r.
      * destruct v; simpl in *; try reflexivity; discriminate.
Qed.

(** [stripUndefined] *)
Lemma delete_absent (o : Obj) (k : string) :
  ~ In k (map fst o) -> delete o k = o.
Proof.
  unfold delete. induction o as [|[k' v'] r IH]; simpl; [reflexivity|].
  intros Hnot. destruct (String.eqb_spec k' k) as [-> | Hne]; simpl.
  - exfalso. apply Hnot. now left.
  - rewrite IH; [reflexivity | tauto].
Qed.

Lemma delete_app (a b : Obj) (k : string) :
  delete (a ++ b) k = delete a k ++ delete b k.
Proof. unfold delete. apply filter_app. Qed.

Lemma delete_head (v : JsVal) (r : Obj) (k : string) :
  delete ((k, v) :: r) k = delete r k.
Proof. unfold delete. simpl. now rewrite String.eqb_refl. Qed.

Lemma filter_keys_subset (p : string * JsVal -> bool) (o : Obj) (k : string) :
  In k (map fst (filter p o)) -> In k (map fst o).
Proof.
  rewrite !in_map_iff. intros (kv & Hk & Hin). apply filter_In in Hin.
  exists kv. tauto.
Qed.

Lemma stripUndefined_loop (rest : Obj) :
  forall done,
    NoDup (map fst (done ++ rest)) ->
    fold_left
      (fun r' k => if is_undefined (obj_get r' k) then delete r' k else r')
      (map fst rest) (filter defined_value done ++ rest)
    = filter defined_value (done ++ rest).
Proof.
  induction rest as [|[k v] r IH]; intros done Hnd; simpl.
  - now rewrite !app_nil_r.
  - assert (Hnd' : NoDup (map fst ((done ++ [(k, v)]) ++ r)))
      by now rewrite <- app_assoc.
    assert (Hk_done : ~ In k (map fst done)).
    { rewrite map_app in Hnd. simpl in Hnd. apply NoDup_remove_2 in Hnd.
      intros H. apply Hnd. apply in_or_app. now left. }
    assert (Hk_r : ~ In k (map fst r)).
    { rewrite map_app in Hnd. simpl in Hnd. apply NoDup_remove_2 in Hnd.
      intros H. apply Hnd. apply in_or_app. now right. }
    assert (Hk_fd : ~ In k (map fst (filter defined_value done)))
      by (intros H; apply Hk_done; eapply filter_keys_subset; eauto).
    assert (Hget : obj_get (filter defined_value done ++ (k, v) :: r) k = v).
    { unfold obj_get.
      assert (Hl : forall o, ~ In k (map fst o) ->
                 lookup (o ++ (k, v) :: r) k = Some v).
      { induction o as [|[k' v'] o' IHo]; simpl; intros Hn.
        - now rewrite String.eqb_refl.
        - destruct (String.eqb_spec k' k) as [-> | Hne]; [tauto|].
          apply IHo. tauto. }
      now rewrite Hl. }
    rewrite Hget.
    specialize (IH (done ++ [(k, v)]) Hnd').
    rewrite filter_app in IH. simpl in IH. unfold defined_value at 2 in IH.
    simpl in IH.
    replace (done ++ (k, v) :: r) with ((done ++ [(k, v)]) ++ r)
      by now rewrite <- app_assoc.
    rewrite <- IH.
    destruct (is_undefined v) eqn:Ev; simpl.
    + f_equal. rewrite app_nil_r, delete_app, delete_head.
      now rewrite !delete_absent.
    + now rewrite <- app_assoc.
Qed.

Lemma stripUndefined_filter (r : Obj) :
  NoDup (map fst r) -> stripUndefined r = filter defined_value r.
Proof. intros Hnd. exact (stripUndefined_loop r [] Hnd). Qed.

Lemma projection_keys_distinct (application : Application.t) :
  NoDup (map fst (applicationToCreateApplication application)).
Proof.
  simpl. repeat constructor; simpl; intuition discriminate.
Qed.

(** [applicationByNames]: under a name, the last application of the listing
    that bears it. *)
Lemma applicationByNames_lookup (applications : list Application.t) (k : string) :
  lookup (applicationByNames applications) k
  = find (fun a => (Application.name a =? k)%string) (rev applications).
Proof.
  unfold applicationByNames.
  induction applications as [|a l IH] using rev_ind; [reflexivity|].
  rewrite fold_left_app, rev_app_distr. simpl.
  rewrite lookup_assign, IH. reflexivity.
Qed.

Lemma applicationByNames_unmatched (applications : list Application.t) (k : string) :
  (forall a, In a applications -> Application.name a <> k) ->
  lookup (applicationByNames applications) k = None.
Proof.
  intros H. rewrite applicationByNames_lookup.
  destruct (find _ (rev applications)) as [a|] eqn:E; [|reflexivity].
  apply find_some in E. destruct E as [Hin Hname].
  apply in_rev in Hin. apply String.eqb_eq in Hname. now apply H in Hin.
Qed.


Section Planning.
Variable TOML_stringify : JsVal -> string.
Variable diffLines : string -> string -> list Change.
Variable byNames : list (string * Application.t).

Local Abbreviation plan' := (plan TOML_stringify diffLines byNames).
Local Abbreviation plan_one' := (plan_one TOML_stringify diffLines byNames).

(** The loop started from what was printed and pushed so far is the loop
    started from nothing, put behind them. *)
Lemma plan_from (container_app : list AppConfig) :
  forall printed actions,
    plan' container_app printed actions
    = (printed ++ fst (plan' container_app [] []),
       option_map (app actions) (snd (plan' container_app [] []))).
Proof.
  induction container_app as [|c rest IH]; intros printed actions; simpl.
  - now rewrite !app_nil_r.
  - destruct (plan_one TOML_stringify diffLines byNames c) as [[evs [action|]]|].
    + rewrite (IH (printed ++ evs)), (IH ([] ++ evs)). simpl.
      rewrite <- app_assoc.
      destruct (snd (plan TOML_stringify diffLines byNames rest [] [])); simpl;
        [now rewrite <- app_assoc | reflexivity].
    + rewrite (IH (printed ++ evs)), (IH ([] ++ evs)). simpl.
      rewrite <- app_assoc.
      destruct (snd (plan TOML_stringify diffLines byNames rest [] [])); reflexivity.
    + now rewrite app_nil_r.
Qed.

(** The loop over [before ++ appConfig :: after], when no turn throws. *)
Lemma plan_split (before after : list AppConfig) (appConfig : AppConfig)
    (printed : list Event) (actions : list Action) :
  plan' (before ++ appConfig :: after) [] [] = (printed, Some actions) ->
  exists printed1 actions1 evs action printed2 actions2,
    plan' before [] [] = (printed1, Some actions1) /\
    plan_one' appConfig = Some (evs, action) /\
    plan' after [] [] = (printed2, Some actions2) /\
    printed = printed1 ++ evs ++ printed2 /\
    actions = actions1 ++ pushed action ++ actions2.
Proof.
  revert printed actions.
  induction before as [|c rest IH]; intros printed actions H; simpl in H.
  - destruct (plan_one TOML_stringify diffLines byNames appConfig)
      as [[evs action]|] eqn:E; [|discriminate].
    exists [], [], evs, action.
    destruct action as [action|]; rewrite plan_from in H; simpl in H;
      destruct (plan TOML_stringify diffLines byNames after [] [])
        as [printed2 [actions2|]] eqn:E2; simpl in H; try discriminate;
      injection H as <- <-; exists printed2, actions2; auto.
  - destruct (plan_one TOML_stringify diffLines byNames c)
      as [[evs0 action0]|] eqn:E0; [|discriminate].
    assert (Hrest :
      exists p a,
        plan TOML_stringify diffLines byNames (rest ++ appConfig :: after) [] []
        = (p, Some a) /\ printed = evs0 ++ p /\ actions = pushed action0 ++ a).
    { destruct action0 as [action0|]; rewrite plan_from in H; simpl in H;
        destruct (plan TOML_stringify diffLines byNames (rest ++ appConfig :: after) [] [])
          as [p [a|]]; simpl in H; try discriminate;
        injection H as <- <-; exists p, a; auto. }
    destruct Hrest as (p & a & Hp & -> & ->).
    destruct (IH _ _ Hp)
      as (printed1 & actions1 & evs & action & printed2 & actions2
          & H1 & Hone & H2 & -> & ->).
    exists (evs0 ++ printed1), (pushed action0 ++ actions1), evs, action,
      printed2, actions2.
    simpl. rewrite E0.
    repeat split; auto.
    + destruct action0 as [action0|]; rewrite plan_from, H1; reflexivity.
    + now rewrite <- app_assoc.
    + now rewrite <- app_assoc.
Qed.

(** The turn for a pair whose normal forms are rendered to the same
    text, as identical normal forms are. *)
Lemma plan_one_same_text (appConfig : AppConfig) (application : Application.t)
    (p n : JsVal) :
  (forall s, changes (diffLines s s) = false) ->
  lookup byNames (nameOf appConfig) = Some application ->
  prevApp application = Some p ->
  nowApp appConfig = Some n ->
  TOML_stringify (container_app_table p) = TOML_stringify (container_app_table n) ->
  plan_one' appConfig
  = Some ([UpdateStatus
             (plain "no changes "
              ++ styled [brandColor] (Application.name application))],
          None).
Proof.
  intros Hsame Hl Hp Hn Heq. unfold plan_one, read. rewrite Hl.
  change (prevApp_of (listed application)) with (prevApp application).
  now rewrite Hp, Hn, Heq, Hsame.
Qed.

(** The turn for a name under which nothing is found. *)
Lemma plan_one_unmatched (appConfig : AppConfig) :
  lookup byNames (nameOf appConfig) = None ->
  Object_prototype (nameOf appConfig) = None ->
  exists evs, plan_one' appConfig = Some (evs, Some (Create appConfig)).
Proof.
  intros Hl Hproto. unfold plan_one, read. rewrite Hl, Hproto. simpl. eauto.
Qed.

End Planning.

Lemma plan_one_application (TOML_stringify : JsVal -> string)
    (diffLines : string -> string -> list Change)
    (byNames : list (string * Application.t)) (appConfig : AppConfig)
    (evs : list Event) (action : Action) :
  plan_one TOML_stringify diffLines byNames appConfig = Some (evs, Some action) ->
  action_application action = appConfig.
Proof.
  unfold plan_one.
  destruct (read byNames (nameOf appConfig)) as [found|].
  - destruct (prevApp_of found); [|discriminate].
    destruct (nowApp appConfig); [|discriminate].
    destruct (negb _); [discriminate|]. now intros [= _ <-].
  - now intros [= _ <-].
Qed.

Lemma samples_diff_same (s : string) : changes (Samples.diff s s) = false.
Proof. unfold Samples.diff. now rewrite String.eqb_refl. Qed.


(* ----------------------------------------------------------------- *)
(** *** The claims about the reconciler *)


(** X26.  A declared spec whose name no application of the listing bears
    and [Object.prototype] does not hold: the loop pushes for it one
    [Create] whose payload is the declared spec itself, as declared,
    between what the entries before it and after it push.  (No listed
    application is named [__proto__], which would become the prototype
    of [applicationByNames].) *)
Theorem unmatched_ordinary_name_creates
    (TOML_stringify : JsVal -> string)
    (diffLines : string -> string -> list Change)
    (applications : list Application.t)
    (before : list AppConfig) (appConfig : AppConfig) (after : list AppConfig)
    (printed : list Event) (actions : list Action) :
  (forall a, In a applications -> Application.name a <> nameOf appConfig) ->
  (forall a, In a applications -> Application.name a <> "__proto__"%string) ->
  Object_prototype (nameOf appConfig) = None ->
  plan TOML_stringify diffLines (applicationByNames applications)
    (before ++ appConfig :: after) [] [] = (printed, Some actions) ->
  exists printed1 actions1 printed2 actions2,
    plan TOML_stringify diffLines (applicationByNames applications) before [] []
    = (printed1, Some actions1) /\
    plan TOML_stringify diffLines (applicationByNames applications) after [] []
    = (printed2, Some actions2) /\
    actions = actions1 ++ Create appConfig :: actions2.
Proof.
  intros Hnone _ Hproto Hplan.
  destruct (plan_split _ _ _ _ _ _ _ _ Hplan)
    as (printed1 & actions1 & evs & action & printed2 & actions2
        & H1 & Hone & H2 & -> & ->).
  destruct (plan_one_unmatched TOML_stringify diffLines _ appConfig
              (applicationByNames_unmatched _ _ Hnone) Hproto) as [evs' Hone'].
  rewrite Hone' in Hone. injection Hone as <- <-.
  exists printed1, actions1, printed2, actions2. auto.
Qed.

Lemma unmatched_ordinary_name_creates_witness :
  exists printed1 actions1 printed2 actions2,
    plan Samples.render Samples.diff (applicationByNames [Samples.web])
      [Samples.web_same] [] []
    = (printed1, Some actions1) /\
    plan Samples.render Samples.diff (applicationByNames [Samples.web])
      [Samples.web_three] [] []
    = (printed2, Some actions2) /\
    [Create Samples.api; Modify Samples.web_three (Some "id-1") (Some "web")]
    = actions1 ++ Create Samples.api :: actions2.
Proof.
  apply (unmatched_ordinary_name_creates Samples.render Samples.diff
           [Samples.web] [Samples.web_same] Samples.api [Samples.web_three]
           (fst (plan Samples.render Samples.diff (applicationByNames [Samples.web])
                   ([Samples.web_same] ++ Samples.api :: [Samples.web_three]) [] []))
           [Create Samples.api; Modify Samples.web_three (Some "id-1") (Some "web")]).
  - intros a [<- | []]. vm_compute. discriminate.
  - intros a [<- | []]. vm_compute. discriminate.
  - reflexivity.
  - vm_compute. reflexivity.
Defined.



(** C4, as the code has it.  Of the two sides compared, only the live one
    passes through [stripUndefined], which removes the keys of the
    projection itself whose value is [undefined] and leaves what is below
    them as it is; both sides are then deep-sorted, which reorders the keys
    of objects and nothing else, arrays keeping their elements in order.
    The keys are ordinary ones: ASCII names other than [__proto__] that
    are not made of digits only, for which the order of the sort is the
    order the engine keeps. *)
Theorem normal_forms_compared
    (application : Application.t) (appConfig : AppConfig) (p n : JsVal) :
  NormalNotions.ordinary_keys
    (JObj (applicationToCreateApplication application)) = true ->
  NormalNotions.ordinary_keys (JObj appConfig) = true ->
  prevApp application = Some p ->
  nowApp appConfig = Some n ->
  stripUndefined (applicationToCreateApplication application)
  = filter defined_value (applicationToCreateApplication application) /\
  (exists props, p = JObj props /\ forall k v, In (k, v) props -> v <> JUndefined) /\
  deep_sorted p = true /\
  deep_sorted n = true /\
  key_reordering
    (JObj (stripUndefined (applicationToCreateApplication application))) p /\
  key_reordering (JObj appConfig) n.
Proof.
  unfold prevApp, nowApp. intros _ _ Hp Hn.
  pose proof (stripUndefined_filter _ (projection_keys_distinct application)) as Hstrip.
  split; [exact Hstrip|]. split.
  - destruct (sortObjectDeeply_props _ _ Hp) as (r & -> & _ & _ & Hvals).
    exists r. split; [reflexivity|]. intros k v Hin ->.
    destruct (Hvals _ _ Hin) as [(v0 & _ & Hc & Hv0) | [Hin' _]].
    + apply (sortObjectDeeply_container _ _ Hc) in Hv0. discriminate.
    + rewrite Hstrip in Hin'. apply filter_In in Hin'.
      destruct Hin' as [_ Hd]. discriminate.
  - split; [exact (proj2 (sortObjectDeeply_normal _ _ Hp))|].
    split; [exact (proj2 (sortObjectDeeply_normal _ _ Hn))|].
    split; now apply sortObjectDeeply_reorders.
Qed.

Lemma normal_forms_compared_witness :
  stripUndefined (applicationToCreateApplication Samples.web)
  = filter defined_value (applicationToCreateApplication Samples.web) /\
  (exists props,
     JObj
       [("configuration", JObj [("image", JStr "registry/web:1")]);
        ("instances", JNum 2); ("name", JStr "web");
        ("scheduling_policy", JStr "regional")] = JObj props /\
     forall k v, In (k, v) props -> v <> JUndefined) /\
  deep_sorted
    (JObj
       [("configuration", JObj [("image", JStr "registry/web:1")]);
        ("instances", JNum 2); ("name", JStr "web");
        ("scheduling_policy", JStr "regional")]) = true /\
  deep_sorted (JObj [("jobs", JUndefined); ("name", JStr "web")]) = true /\
  key_reordering
    (JObj (stripUndefined (applicationToCreateApplication Samples.web)))
    (JObj
       [("configuration", JObj [("image", JStr "registry/web:1")]);
        ("instances", JNum 2); ("name", JStr "web");
        ("scheduling_policy", JStr "regional")]) /\
  key_reordering (JObj Samples.web_jobs_undefined)
    (JObj [("jobs", JUndefined); ("name", JStr "web")]).
Proof.
  apply (normal_forms_compared Samples.web Samples.web_jobs_undefined);
    reflexivity.
Defined.

(** C4, as stated, fails: the declared side is not stripped (a key of the
    declared spec whose value is [undefined] is in its normal form), and on
    the live side a key one level down whose value is [undefined] stays. *)
Lemma undefined_keys_survive :
  nowApp Samples.web_jobs_undefined
  = Some (JObj [("jobs", JUndefined); ("name", JStr "web")]) /\
  has_undefined_key (JObj [("jobs", JUndefined); ("name", JStr "web")]) = true /\
  prevApp Samples.web_labels_undefined
  = Some
      (JObj
         [("configuration",
            JObj [("image", JStr "registry/web:1"); ("labels", JUndefined)]);
          ("name", JStr "web")]) /\
  has_undefined_key
    (JObj
       [("configuration",
          JObj [("image", JStr "registry/web:1"); ("labels", JUndefined)]);
        ("name", JStr "web")]) = true.
Proof. repeat split; reflexivity. Qed.

(** C5.  [sortObjectDeeply] applied to what it returned returns the same
    value, and what it returns is its argument with only the keys of
    objects reordered: every array, at every depth, keeps its elements in
    their order. *)
Theorem sortObjectDeeply_idempotent (v v' : JsVal) :
  sortObjectDeeply v = Some v' ->
  sortObjectDeeply v' = Some v' /\
  key_reordering v v' /\
  (forall items, v = JArr items ->
     exists items',
       v' = JArr items' /\
       Forall2 (fun x y => sortObjectDeeply x = Some y) items items') /\
  (forall items, order (JArr items) = JArr items).
Proof.
  intros H. split; [exact (proj1 (sortObjectDeeply_normal _ _ H))|].
  split; [now apply sortObjectDeeply_reorders|]. split.
  - intros items ->. simpl in H.
    destruct (map_items sortObjectDeeply items) as [items'|] eqn:E; [|discriminate].
    injection H as <-. exists items'. split; [reflexivity|].
    now apply map_items_Forall2.
  - reflexivity.
Qed.

Lemma sortObjectDeeply_idempotent_witness :
  sortObjectDeeply
    (JObj [("a", JArr [JObj [("x", JNum 1); ("y", JNum 2)]; JNum 3]);
           ("b", JNull)])
  = Some
      (JObj [("a", JArr [JObj [("x", JNum 1); ("y", JNum 2)]; JNum 3]);
             ("b", JNull)]).
Proof.
  apply (sortObjectDeeply_idempotent
           (JObj [("b", JNull);
                  ("a", JArr [JObj [("y", JNum 2); ("x", JNum 1)]; JNum 3])])
           (JObj [("a", JArr [JObj [("x", JNum 1); ("y", JNum 2)]; JNum 3]);
                  ("b", JNull)])).
  reflexivity.
Defined.

Lemma plan_order (TOML_stringify : JsVal -> string)
    (diffLines : string -> string -> list Change)
    (byNames : list (string * Application.t)) (container_app : list AppConfig) :
  forall printed0 actions0 printed actions,
    plan TOML_stringify diffLines byNames container_app printed0 actions0
    = (printed, Some actions) ->
    map action_application actions
    = map action_application actions0
      ++ filter (pushes TOML_stringify diffLines byNames) container_app.
Proof.
  induction container_app as [|c rest IH]; intros printed0 actions0 printed actions H;
    simpl in H.
  - injection H as _ <-. simpl. now rewrite app_nil_r.
  - simpl. unfold pushes at 1.
    destruct (plan_one TOML_stringify diffLines byNames c)
      as [[evs [action|]]|] eqn:E; [| |discriminate].
    + rewrite (IH _ _ _ _ H), map_app. simpl.
      rewrite (plan_one_application _ _ _ _ _ _ E).
      now rewrite <- app_assoc.
    + exact (IH _ _ _ _ H).
Qed.

(** C6.  The declared specs the actions carry are, in order, the entries of
    the declared configuration for which an action is pushed. *)
Theorem actions_in_declared_order
    (TOML_stringify : JsVal -> string)
    (diffLines : string -> string -> list Change)
    (applications : list Application.t) (container_app : list AppConfig)
    (printed : list Event) (actions : list Action) :
  plan TOML_stringify diffLines (applicationByNames applications)
    container_app [] [] = (printed, Some actions) ->
  map action_application actions
  = filter (pushes TOML_stringify diffLines (applicationByNames applications))
      container_app.
Proof. intros H. exact (plan_order _ _ _ _ _ _ _ _ H). Qed.

Lemma actions_in_declared_order_witness :
  map action_application
    [Create Samples.api; Modify Samples.web_three (Some "id-1") (Some "web")]
  = filter
      (pushes Samples.render Samples.diff (applicationByNames [Samples.web]))
      [Samples.api; Samples.web_same; Samples.web_three].
Proof.
  apply (actions_in_declared_order Samples.render Samples.diff [Samples.web]
           [Samples.api; Samples.web_same; Samples.web_three]
           (fst (plan Samples.render Samples.diff (applicationByNames [Samples.web])
                   [Samples.api; Samples.web_same; Samples.web_three] [] []))).
  vm_compute. reflexivity.
Defined.




(** When something is declared and the listing answers, the actions of the
    loop are the ones the second loop carries out, once confirmed. *)
Lemma applyCommand_applies_plan
    (TOML_stringify : JsVal -> string)
    (diffLines : string -> string -> list Change)
    (SchedulingPolicy_REGIONAL : JsVal) (VALIDATE_INPUT : string)
    (args : Args) (config : Config.t) (w : World)
    (applications : list Application.t)
    (printed : list Event) (action : Action) (actions : list Action) :
  Config.container_app config <> [] ->
  listing w = inl applications ->
  plan TOML_stringify diffLines (applicationByNames applications)
    (Config.container_app config) [] [] = (printed, Some (action :: actions)) ->
  let trace3 :=
    [StartSection "Deploy a container application"
       "deploy all the changes of your application";
     ListApplications; Spinner (json args) "loading applications";
     Log (styled [dim] ("Container application changes" ++ String newline ""))]
    ++ printed in
  applyCommand TOML_stringify diffLines SchedulingPolicy_REGIONAL
    VALIDATE_INPUT args config w
  = if fst (processArgument_confirm args w trace3)
    then apply_actions VALIDATE_INPUT args w (action :: actions)
           (snd (processArgument_confirm args w trace3))
    else (Returned,
          snd (processArgument_confirm args w trace3)
          ++ [Cancel "Not applying changes"]).
Proof.
  intros Hne Hl Hplan trace3. unfold applyCommand.
  destruct (Config.container_app config) as [|c rest] eqn:E; [congruence|].
  simpl List.length. simpl Nat.eqb. cbv iota.
  rewrite Hl, Hplan. simpl List.length. simpl Nat.eqb. cbv iota.
  subst trace3. unfold processArgument_confirm.
  destruct (json args); simpl; [reflexivity|].
  destruct (confirm_answer w); reflexivity.
Qed.
End ApplyFacts.

(* ================================================================= *)
(** ** Facts about the lifecycle-rule commands *)

Module LifecycleFacts.
Import Js Lifecycle.
Local Open Scope Z_scope.

(** *** Decimal digits are numbers *)

Lemma digit_code (c : ascii) (d : Z) :
  digit_in 10 c = Some d -> (48 <= nat_of_ascii c <= 57)%nat.
Proof.
  unfold digit_in.
  destruct ((48 <=? Z.of_nat (nat_of_ascii c)) && (Z.of_nat (nat_of_ascii c) <=? 57))
    eqn:E1.
  - intros _. apply andb_prop in E1. destruct E1 as [H1 H2].
    apply Z.leb_le in H1, H2. lia.
  - destruct ((97 <=? Z.of_nat (nat_of_ascii c)) && (Z.of_nat (nat_of_ascii c) <=? 102))
      eqn:E2.
    + apply andb_prop in E2. destruct E2 as [H1 H2]. apply Z.leb_le in H1, H2.
      destruct (Z.ltb_spec (Z.of_nat (nat_of_ascii c) - 87) 10); [lia | discriminate].
    + destruct ((65 <=? Z.of_nat (nat_of_ascii c)) && (Z.of_nat (nat_of_ascii c) <=? 70))
        eqn:E3.
      * apply andb_prop in E3. destruct E3 as [H1 H2]. apply Z.leb_le in H1, H2.
        destruct (Z.ltb_spec (Z.of_nat (nat_of_ascii c) - 55) 10); [lia | discriminate].
      * simpl. discriminate.
Qed.

Lemma digit_not_white_space (c : ascii) (d : Z) :
  digit_in 10 c = Some d -> is_white_space c = false.
Proof.
  intros H. apply digit_code in H. unfold is_white_space.
  destruct (Nat.leb_spec 9 (nat_of_ascii c)), (Nat.leb_spec (nat_of_ascii c) 13),
    (Nat.eqb_spec (nat_of_ascii c) 32); simpl; try reflexivity; lia.
Qed.

Lemma digit_differs (c a : ascii) (d : Z) :
  digit_in 10 c = Some d -> digit_in 10 a = None -> Ascii.eqb a c = false.
Proof.
  intros Hc Ha. destruct (Ascii.eqb_spec a c) as [-> | _]; [congruence | reflexivity].
Qed.

Lemma trimEnd_digits (s : string) : all_digits s = true -> trimEnd s = s.
Proof.
  induction s as [|c r IH]; simpl; [reflexivity|].
  destruct (digit_in 10 c) as [d|] eqn:E; [|discriminate].
  intros Hr. rewrite (IH Hr). destruct r; [|reflexivity].
  now rewrite (digit_not_white_space _ _ E).
Qed.

Lemma trim_digits (s : string) : all_digits s = true -> trim s = s.
Proof.
  intros H. unfold trim.
  assert (Hs : trimStart s = s).
  { destruct s as [|c r]; [reflexivity|]. simpl in *.
    destruct (digit_in 10 c) as [d|] eqn:E; [|discriminate].
    now rewrite (digit_not_white_space _ _ E). }
  rewrite Hs. now apply trimEnd_digits.
Qed.

Lemma take_all_digits (s : string) :
  forall acc count,
    all_digits s = true ->
    exists v, take_digits 10 s acc count = (v, (count + String.length s)%nat, EmptyString).
Proof.
  induction s as [|c r IH]; intros acc count H;
    cbn [take_digits all_digits String.length] in *.
  - exists acc. now rewrite Nat.add_0_r.
  - destruct (digit_in 10 c) as [d|]; [|discriminate].
    destruct (IH (10 * acc + d) (S count) H) as [v Hv].
    exists v. rewrite Hv. f_equal. f_equal. lia.
Qed.

Lemma after_prefix_two_digits (a b : ascii) (s : string) :
  all_digits s = true -> digit_in 10 b = None ->
  after_prefix (String a (String b EmptyString)) s = None.
Proof.
  intros H Hb. destruct s as [|c [|c' r]]; simpl in *; try reflexivity.
  - now destruct (Ascii.eqb a c).
  - destruct (digit_in 10 c); [|discriminate].
    destruct (digit_in 10 c') as [d'|] eqn:E'; [|discriminate].
    rewrite (digit_differs _ _ _ E' Hb). now destruct (Ascii.eqb a c).
Qed.

Lemma after_prefix_one_digit (a : ascii) (s : string) :
  all_digits s = true -> digit_in 10 a = None ->
  after_prefix (String a EmptyString) s = None.
Proof.
  intros H Ha. destruct s as [|c r]; simpl in *; [reflexivity|].
  destruct (digit_in 10 c) as [d|] eqn:E; [|discriminate].
  now rewrite (digit_differs _ _ _ E Ha).
Qed.

(** A string of digits, not empty, converts to a number. *)
Lemma digits_are_numbers (s : string) :
  s <> EmptyString -> all_digits s = true -> isNaN (Number s) = false.
Proof.
  intros Hne H. unfold Number. rewrite (trim_digits _ H).
  destruct (String.eqb_spec s "") as [-> | _]; [contradiction|].
  unfold after_either.
  rewrite !(after_prefix_two_digits _ _ _ H) by reflexivity.
  rewrite !(after_prefix_one_digit _ _ H) by reflexivity.
  unfold StrUnsignedDecimalLiteral.
  assert (Hinf : (s =? "Infinity")%string = false).
  { destruct s as [|c r]; [reflexivity|]. simpl in H.
    destruct (digit_in 10 c) as [d|] eqn:E; [|discriminate].
    simpl. rewrite Ascii.eqb_sym.
    now rewrite (digit_differs c "I" d E eq_refl). }
  rewrite Hinf.
  destruct (take_all_digits s 0 0%nat H) as [v Hv]. rewrite Hv. simpl.
  destruct s as [|c r]; [contradiction|]. reflexivity.
Qed.

(** *** The prompt *)

Lemma read_text_first_accepted (validate : string -> option string)
    (message : string) (rejected : list string) :
  forall value rest shown,
    Forall (fun v => validate v = Some message) rejected ->
    validate value = None ->
    read_text validate (rejected ++ value :: rest) shown
    = (Some value, rest,
       shown ++ map (fun _ => ValidationError message) rejected).
Proof.
  induction rejected as [|r l IH]; intros value rest shown Hrej Hok; simpl.
  - now rewrite Hok, app_nil_r.
  - inversion Hrej as [|? ? Hr Hl]; subst. rewrite Hr.
    rewrite (IH value rest _ Hl Hok). now rewrite <- app_assoc.
Qed.

(* ----------------------------------------------------------------- *)
(** *** The claims about the lifecycle-rule commands *)

(** C8.  In the add workflow the answer "7" to a condition prompt becomes
    [maxAge] 604800, for the actions that take days or a date and for the
    one that takes days only, and the answer "2025-01-01" becomes [date]
    "2025-01-01T00:00:00.000Z"; the rule so built is put behind the rules
    of the bucket and the whole list is written. *)
Theorem conditions_converted
    (formatActionDescription : string -> string)
    (accountId bucket ruleId : string) (jurisdiction : option string)
    (rules : list LifecycleRule) :
  let w :=
    mkWorld true rules [""; "7"; "2025-01-01"; "7"]
      [["expire"; "transition"; "abort-multipart"]] in
  let run :=
    AddHandler formatActionDescription accountId
      (mkAddArgs bucket (Some ruleId) jurisdiction) w in
  fst run = Returned /\
  filter is_put (snd run)
  = [PutLifecycleRules accountId bucket
       (rules ++
        [mkRule ruleId true (mkConditions None)
           (Some (mkTransition
                    (mkCondition (Some (Finite (inject_Z 604800))) None Age)))
           (Some [mkStorageClassTransition
                    (mkCondition None (Some "2025-01-01T00:00:00.000Z") Date)
                    "InfrequentAccess"])
           (Some (mkTransition
                    (mkCondition (Some (Finite (inject_Z 604800))) None Age)))])
       jurisdiction] /\
  times (Number "7") 86400 = Finite (inject_Z 604800) /\
  option_map toISOString (Date_parse ("2025-01-01" ++ "T00:00:00.000Z"))
  = Some "2025-01-01T00:00:00.000Z".
Proof. repeat split; reflexivity. Qed.

(** C9, as the code has it.  An answer to a condition prompt passes when
    [Number] makes a number of it, whatever the number, or, at the prompt
    of the actions that also take a date, when it is a valid date: each
    answer before the first such one is rejected at the prompt with the
    message of that prompt, and that one is returned.  A string of decimal
    digits passes both prompts. *)
Theorem condition_prompts_take_first_accepted
    (rejected : list string) (value : string)
    (rejected' : list string) (value' : string)
    (rest : list string) (shown : list Event) :
  Forall (fun v => isNaN (Number v) = true) rejected ->
  isNaN (Number value) = false ->
  Forall (fun v => isNaN (Number v) = true /\ isValidDate v = false) rejected' ->
  isNaN (Number value') = false \/ isValidDate value' = true ->
  read_text validate_days (rejected ++ value :: rest) shown
  = (Some value, rest,
     shown
     ++ map (fun _ => ValidationError "Please enter a number of days") rejected) /\
  read_text validate_days_or_date (rejected' ++ value' :: rest) shown
  = (Some value', rest,
     shown
     ++ map (fun _ =>
               ValidationError
                 "Please enter a number of days or a valid date in the YYYY-MM-DD format")
          rejected') /\
  (forall digits,
     digits <> EmptyString -> all_digits digits = true ->
     validate_days digits = None /\ validate_days_or_date digits = None).
Proof.
  intros Hrej Hok Hrej' Hok'. split; [|split].
  - apply read_text_first_accepted.
    + eapply Forall_impl; [|exact Hrej]. intros v Hv. unfold validate_days.
      now rewrite Hv.
    + unfold validate_days. now rewrite Hok.
  - apply read_text_first_accepted.
    + eapply Forall_impl; [|exact Hrej']. intros v [Hv Hd].
      unfold validate_days_or_date. now rewrite Hv, Hd.
    + unfold validate_days_or_date.
      destruct Hok' as [H | H]; rewrite H; [reflexivity|].
      simpl. now rewrite andb_false_r.
  - intros digits Hne Hd. unfold validate_days, validate_days_or_date.
    now rewrite (digits_are_numbers _ Hne Hd).
Qed.

Lemma condition_prompts_take_first_accepted_witness :
  read_text validate_days (["seven"; "7 days"] ++ "7" :: ["later"]) []
  = (Some "7", ["later"],
     []
     ++ map (fun _ => ValidationError "Please enter a number of days")
          ["seven"; "7 days"]) /\
  read_text validate_days_or_date
    (["soon"; "2025-02-30"] ++ "2025-01-01" :: ["later"]) []
  = (Some "2025-01-01", ["later"],
     []
     ++ map (fun _ =>
               ValidationError
                 "Please enter a number of days or a valid date in the YYYY-MM-DD format")
          ["soon"; "2025-02-30"]) /\
  (forall digits,
     digits <> EmptyString -> all_digits digits = true ->
     validate_days digits = None /\ validate_days_or_date digits = None).
Proof.
  apply (condition_prompts_take_first_accepted ["seven"; "7 days"] "7"
           ["soon"; "2025-02-30"] "2025-01-01" ["later"] []).
  - repeat constructor.
  - reflexivity.
  - repeat constructor.
  - right. reflexivity.
Defined.

(** C9, as stated, fails: "-5" and "1.5" pass the validation of both
    condition prompts, and neither is a whole number of days that is not
    negative. *)
Lemma negative_and_fractional_days_pass :
  validate_days "-5" = None /\
  validate_days_or_date "-5" = None /\
  nonnegative_integer (Number "-5") = false /\
  validate_days "1.5" = None /\
  validate_days_or_date "1.5" = None /\
  nonnegative_integer (Number "1.5") = false.
Proof. repeat split; reflexivity. Qed.

(** *** Removal *)

Lemma findIndex_split {A : Type} (p : A -> bool) (l : list A) (i : nat) :
  findIndex p l = Some i ->
  exists before x after,
    l = before ++ x :: after /\ List.length before = i /\ p x = true /\
    forall r, In r before -> p r = false.
Proof.
  revert i. induction l as [|a l IH]; intros i; simpl; [discriminate|].
  destruct (p a) eqn:Ea.
  - intros [= <-]. exists [], a, l. repeat split; auto. intros r [].
  - destruct (findIndex p l) as [j|]; [|discriminate].
    intros [= <-].
    destruct (IH j eq_refl) as (before & x & after & -> & Hlen & Hx & Hb).
    exists (a :: before), x, after. simpl. repeat split; auto.
    intros r [<- | Hr]; auto.
Qed.

Lemma findIndex_none {A : Type} (p : A -> bool) (l : list A) :
  findIndex p l = None <-> forall r, In r l -> p r = false.
Proof.
  induction l as [|a l IH]; simpl.
  - split; [intros _ r [] | reflexivity].
  - destruct (p a) eqn:Ea.
    + split; [discriminate|]. intros H. specialize (H a (or_introl eq_refl)). congruence.
    + destruct (findIndex p l) as [j|].
      * split; [discriminate|]. intros H.
        assert (Hn : Some j = None) by (apply IH; intros r Hr; apply H; now right).
        discriminate.
      * split; [|reflexivity]. intros _ r [<- | Hr]; [exact Ea|].
        now apply (proj1 IH eq_refl).
Qed.

Lemma splice_one_split {A : Type} (before after : list A) (x : A) :
  splice_one (before ++ x :: after) (List.length before) = before ++ after.
Proof.
  unfold splice_one. induction before as [|a l IH]; simpl; [reflexivity|].
  f_equal. exact IH.
Qed.

(** C10.  Removal by an id that a rule of the fetched list bears writes
    the list back without the first rule of that id, the others in their
    order; removal by an id that no rule bears throws the not-found error
    and writes nothing. *)
Theorem remove_deletes_the_rule
    (accountId : string) (args : RemoveArgs) (w : World) :
  (In (remove_id args) (map id (stored_rules w)) ->
   exists before rule after,
     stored_rules w = before ++ rule :: after /\
     id rule = remove_id args /\
     (forall r, In r before -> id r <> remove_id args) /\
     fst (RemoveHandler accountId args w) = Returned /\
     filter is_put (snd (RemoveHandler accountId args w))
     = [PutLifecycleRules accountId (remove_bucket args) (before ++ after)
          (remove_jurisdiction args)]) /\
  (~ In (remove_id args) (map id (stored_rules w)) ->
   fst (RemoveHandler accountId args w)
   = Threw_UserError
       ("Lifecycle rule with ID '" ++ remove_id args
        ++ "' not found in policy for '" ++ remove_bucket args ++ "'.") /\
   filter is_put (snd (RemoveHandler accountId args w)) = []).
Proof.
  unfold RemoveHandler. split.
  - intros Hin.
    destruct (findIndex (fun rule => (id rule =? remove_id args)%string)
                (stored_rules w)) as [i|] eqn:E.
    + destruct (findIndex_split _ _ _ E)
        as (before & rule & after & Hl & Hlen & Hx & Hb).
      exists before, rule, after. rewrite Hl at 1.
      split; [reflexivity|]. split; [now apply String.eqb_eq|]. split.
      * intros r Hr. apply String.eqb_neq. now apply Hb.
      * simpl. rewrite Hl, <- Hlen, splice_one_split. auto.
    + exfalso. apply in_map_iff in Hin. destruct Hin as (r & Hr & Hin).
      pose proof (proj1 (findIndex_none _ _) E r Hin) as Hf. simpl in Hf.
      apply String.eqb_neq in Hf. contradiction.
  - intros Hnot.
    assert (E : findIndex (fun rule => (id rule =? remove_id args)%string)
                  (stored_rules w) = None).
    { apply findIndex_none. intros r Hr. apply String.eqb_neq.
      intros Heq. apply Hnot. apply in_map_iff. now exists r. }
    rewrite E. simpl. auto.
Qed.

Lemma remove_deletes_the_rule_witness :
  exists before rule after,
    [mkRule "a" true (mkConditions None) None None None;
     mkRule "b" true (mkConditions None) None None None]
    = before ++ rule :: after /\
    id rule = "b" /\
    (forall r, In r before -> id r <> "b") /\
    Returned = Returned /\
    [PutLifecycleRules "account" "bucket"
       [mkRule "a" true (mkConditions None) None None None] None]
    = [PutLifecycleRules "account" "bucket" (before ++ after) None].
Proof.
  apply (proj1
           (remove_deletes_the_rule "account" (mkRemoveArgs "bucket" "b" None)
              (mkWorld true
                 [mkRule "a" true (mkConditions None) None None None;
                  mkRule "b" true (mkConditions None) None None None]
                 [] []))).
  simpl. auto.
Defined.

(** The example of the specification: "b" removed from the rules "a", "b"
    leaves "a"; "c" is not found. *)
Example remove_b_from_a_b :
  let a := mkRule "a" true (mkConditions None) None None None in
  let b := mkRule "b" true (mkConditions None) None None None in
  filter is_put
    (snd (RemoveHandler "account" (mkRemoveArgs "bucket" "b" None)
            (mkWorld true [a; b] [] [])))
  = [PutLifecycleRules "account" "bucket" [a] None] /\
  RemoveHandler "account" (mkRemoveArgs "bucket" "c" None)
    (mkWorld true [a; b] [] [])
  = (Threw_UserError "Lifecycle rule with ID 'c' not found in policy for 'bucket'.",
     [GetLifecycleRules "account" "bucket" None]).
Proof. split; reflexivity. Qed.
End LifecycleFacts.

(* ================================================================= *)
(** ** Facts about the line printer *)

Module RenderFacts.
Import Js Apply Render.

Lemma characters_app (a b : Text) :
  characters (a ++ b) = (characters a ++ characters b)%string.
Proof.
  induction a as [|[st s] a IH]; simpl; [reflexivity|].
  rewrite IH. clear IH. induction s as [|c s IHs]; simpl; [reflexivity|].
  now rewrite IHs.
Qed.

Lemma string_app_nil (s : string) : (s ++ "")%string = s.
Proof. induction s as [|c s IH]; simpl; [reflexivity | now rewrite IH]. Qed.

Lemma string_app_assoc (a b c : string) :
  ((a ++ b) ++ c)%string = (a ++ (b ++ c))%string.
Proof. induction a as [|x a IH]; simpl; [reflexivity | now rewrite IH]. Qed.

Lemma substring_join (s : string) :
  forall a b,
    a <= b ->
    (String.substring 0 a s ++ String.substring a (b - a) s)%string
    = String.substring 0 b s.
Proof.
  induction s as [|c s IH]; intros a b Hab.
  - destruct a, b; simpl; try reflexivity; lia.
  - destruct a as [|a].
    + simpl. now rewrite Nat.sub_0_r.
    + destruct b as [|b]; [lia|]. simpl. f_equal. apply IH. lia.
Qed.

Lemma substring_whole (s : string) : String.substring 0 (String.length s) s = s.
Proof. induction s as [|c s IH]; simpl; [reflexivity | now rewrite IH]. Qed.

(** A loop over the indices [start, start + n). *)
Lemma loop_invariant (P : nat -> Lexer -> Prop) (f : Lexer -> nat -> Lexer) (n : nat) :
  forall start st,
    (forall i st', start <= i < start + n -> P i st' -> P (S i) (f st' i)) ->
    P start st ->
    P (start + n) (fold_left f (seq start n) st).
Proof.
  induction n as [|n IH]; intros start st Hstep H0; simpl.
  - now rewrite Nat.add_0_r.
  - replace (start + S n) with (S start + n) by lia.
    apply IH.
    + intros i st' Hi. apply Hstep. lia.
    + apply Hstep; [lia | exact H0].
Qed.

Lemma characters_styled (color : list Style) (s : string) :
  characters (styled color s) = s.
Proof. unfold characters, styled. simpl. apply string_app_nil. Qed.

Lemma kept_addToLine (el : string) (startWith : Text) (i j : nat)
    (color : list Style) (st : Lexer) :
  kept el startWith i st -> i <= j ->
  kept el startWith j (addToLine el j color st).
Proof.
  intros [Hle Hch] Hij. split; simpl; [lia|].
  rewrite characters_app, Hch, characters_styled, string_app_assoc. f_equal.
  apply substring_join. lia.
Qed.

Lemma kept_later (el : string) (startWith : Text) (i j : nat) (st : Lexer) :
  kept el startWith i st -> i <= j -> kept el startWith j st.
Proof. intros [Hle Hch] Hij. split; [lia | exact Hch]. Qed.

Lemma kept_set_render (el : string) (startWith : Text) (i : nat)
    (r : RenderState) (st : Lexer) :
  kept el startWith i st -> kept el startWith i (set_render r st).
Proof. intros H. exact H. Qed.

Lemma kept_step (el : string) (startWith : Text) (i : nat) (st : Lexer) :
  kept el startWith i st -> kept el startWith (S i) (step el st i).
Proof.
  intros H.
  assert (Hs : kept el startWith (S i) st) by (apply (kept_later _ _ i); [exact H | lia]).
  assert (Ha : forall color, kept el startWith (S i) (addToLine el (i + 1) color st)).
  { intros color. rewrite Nat.add_1_r. apply (kept_addToLine _ _ i); [exact H | lia]. }
  assert (Hb : forall color, kept el startWith (S i) (addToLine el i color st)).
  { intros color. apply (kept_later _ _ i); [|lia].
    apply (kept_addToLine _ _ i); [exact H | lia]. }
  unfold step, case_quotes.
  destruct (render st).
  - destruct (char_is el i "="); [apply kept_set_render|]; assumption.
  - destruct (char_is el i double_quote) eqn:Eq; [apply kept_set_render, Hb|].
    destruct (isNumber (char_at el i)); [apply kept_set_render, Hb|].
    destruct (char_is el i "[" && char_is el (i + 1) "["); assumption.
  - destruct (char_is el i double_quote); [apply kept_set_render, Ha | assumption].
  - destruct (negb (isNumber el)); [apply kept_set_render, Hb | assumption].
  - destruct (char_is el i "]" && (negb (i =? 0)%nat && char_is el (i - 1) "]"));
      [apply kept_set_render, Ha | assumption].
Qed.

(** X1.  [printLine] hands on every character of the line it is given,
    once and in order, behind the start: with the colours left out, what
    is printed is [startWith] followed by [el]. *)
Theorem printLine_keeps_every_character (el : string) (startWith : Text) :
  characters (printLine el startWith)
  = (characters startWith ++ el)%string.
Proof.
  unfold printLine.
  pose proof (loop_invariant (kept el startWith) (step el) (String.length el)
                0 (mkLexer startWith 0 in_left)) as Hloop.
  simpl in Hloop.
  assert (Hk : kept el startWith (String.length el)
                 (fold_left (step el) (seq 0 (String.length el))
                    (mkLexer startWith 0 in_left))).
  { apply Hloop.
    - intros i st' _ Hi. now apply kept_step.
    - split; simpl; [lia|].
      replace (String.substring 0 0 el) with EmptyString by (now destruct el).
      now rewrite string_app_nil. }
  set (st := fold_left (step el) (seq 0 (String.length el))
               (mkLexer startWith 0 in_left)) in *.
  assert (Hf : forall color,
             characters (line (addToLine el (String.length el) color st))
             = (characters startWith ++ el)%string).
  { intros color.
    destruct (kept_addToLine el startWith _ (String.length el) color st Hk (le_n _))
      as [_ Hch].
    rewrite Hch. simpl. now rewrite substring_whole. }
  unfold finish. destruct (render st); apply Hf.
Qed.

Lemma every_char_get (p : ascii -> bool) (s : string) :
  every_char p s = true -> forall i a, String.get i s = Some a -> p a = true.
Proof.
  induction s as [|c s IH]; simpl; [discriminate|].
  intros H i a. apply andb_prop in H. destruct H as [Hc Hs].
  destruct i as [|i]; [now intros [= <-] | now apply IH].
Qed.

Lemma char_is_other_than (c : ascii) (s : string) :
  every_char (other_than c) s = true -> forall i, char_is s i c = false.
Proof.
  intros H i. unfold char_is. destruct (String.get i s) as [a|] eqn:E; [|reflexivity].
  apply (every_char_get _ _ H) in E. unfold other_than in E.
  now destruct (Ascii.eqb a c).
Qed.

(** X2.  A line with no "=" in it is printed as it is, in one piece and
    without colour, behind the start. *)
Theorem printLine_without_equals_sign (el : string) (startWith : Text) :
  every_char (other_than "=") el = true ->
  printLine el startWith = startWith ++ plain el.
Proof.
  intros Hno. unfold printLine.
  assert (Hfix : forall n start,
             fold_left (step el) (seq start n) (mkLexer startWith 0 in_left)
             = mkLexer startWith 0 in_left).
  { induction n as [|n IH]; intros start; simpl; [reflexivity|].
    unfold step at 2. simpl. rewrite (char_is_other_than _ _ Hno). apply IH. }
  rewrite Hfix. unfold finish, addToLine, slice. simpl.
  now rewrite Nat.sub_0_r, substring_whole.
Qed.

Lemma printLine_without_equals_sign_witness :
  printLine "[[container_app]]" (plain "  ")
  = plain "  " ++ plain "[[container_app]]".
Proof.
  apply (printLine_without_equals_sign "[[container_app]]" (plain "  ")).
  reflexivity.
Defined.

(** Strings put together *)
Lemma length_app (a b : string) :
  String.length (a ++ b) = String.length a + String.length b.
Proof. induction a as [|c a IH]; simpl; [reflexivity | now rewrite IH]. Qed.

Lemma get_app_l (a b : string) (i : nat) :
  i < String.length a -> String.get i (a ++ b) = String.get i a.
Proof. intros H. symmetry. now apply String.append_correct1. Qed.

Lemma get_app_r (a b : string) (i : nat) :
  String.get (String.length a + i) (a ++ b) = String.get i b.
Proof. rewrite Nat.add_comm. symmetry. apply String.append_correct2. Qed.

Lemma substring_app_l (a b : string) :
  String.substring 0 (String.length a) (a ++ b) = a.
Proof. induction a as [|c a IH]; simpl; [now destruct b | now rewrite IH]. Qed.

Lemma substring_app_r (a b : string) (n m : nat) :
  String.substring (String.length a + n) m (a ++ b) = String.substring n m b.
Proof. induction a as [|c a IH]; simpl; [reflexivity | exact IH]. Qed.

(** Indices at which a turn changes nothing. *)
Lemma loop_idle (el : string) (st : Lexer) (n : nat) :
  forall start,
    (forall i, start <= i < start + n -> step el st i = st) ->
    fold_left (step el) (seq start n) st = st.
Proof.
  induction n as [|n IH]; intros start H; simpl; [reflexivity|].
  rewrite H by lia. apply IH. intros i Hi. apply H. lia.
Qed.

Lemma substring_none (s : string) : forall n, String.substring n 0 s = EmptyString.
Proof.
  induction s as [|c s IH]; intros [|n]; simpl; try reflexivity. apply IH.
Qed.

Lemma substring_app_0 (a b : string) (n : nat) :
  String.substring 0 (String.length a + n) (a ++ b)
  = (a ++ String.substring 0 n b)%string.
Proof. induction a as [|c a IH]; simpl; [reflexivity | now rewrite IH]. Qed.

Lemma filler_get (gap : string) (j : nat) (a : ascii) :
  every_char filler gap = true -> String.get j gap = Some a ->
  Ascii.eqb a double_quote = false /\
  isNumber (String a EmptyString) = false /\
  Ascii.eqb a "[" = false.
Proof.
  intros H E. apply (every_char_get _ _ H) in E. unfold filler, other_than in E.
  apply andb_prop in E. destruct E as [E E3]. apply andb_prop in E.
  destruct E as [E1 E2].
  repeat split; [now destruct (Ascii.eqb a double_quote)
                | now destruct (isNumber (String a EmptyString))
                | now destruct (Ascii.eqb a "[")].
Qed.

(** X3.  A line made of a key with no "=" in it, "=", filling characters
    (no double quote, digit or opening bracket) and a value between double
    quotes is printed in three pieces behind the start: the key, "=" and
    the filling without colour, then the value with its quotes in the
    brand colour, and nothing after it. *)
Theorem printLine_colours_quoted_value
    (key gap body : string) (startWith : Text) :
  every_char (other_than "=") key = true ->
  every_char filler gap = true ->
  every_char (other_than double_quote) body = true ->
  printLine
    (key ++ String "=" (gap ++ String double_quote
                                (body ++ String double_quote EmptyString)))
    startWith
  = startWith
    ++ plain (key ++ String "=" gap)
    ++ styled [brandColor]
         (String double_quote (body ++ String double_quote EmptyString))
    ++ plain EmptyString.
Proof.
  intros Hkey Hgap Hbody.
  set (R4 := (body ++ String double_quote EmptyString)%string).
  set (R3 := String double_quote R4).
  set (R2 := (gap ++ R3)%string).
  set (R1 := String "="%char R2).
  set (el := (key ++ R1)%string).
  set (lk := String.length key). set (lg := String.length gap).
  set (lb := String.length body).
  assert (Hlen : String.length el = lk + S (lg + S (lb + 1))).
  { subst el R1 R2 R3 R4 lk lg lb. rewrite length_app. simpl.
    rewrite length_app. simpl. now rewrite length_app. }
  assert (G1 : forall i, i < lk -> String.get i el = String.get i key)
    by (intros i Hi; now apply get_app_l).
  assert (GR1 : forall j, String.get (lk + j) el = String.get j R1)
    by (intros j; apply get_app_r).
  assert (GR2 : forall j, String.get (lk + S j) el = String.get j R2)
    by (intros j; now rewrite GR1).
  assert (Ggap : forall j, j < lg -> String.get (lk + S j) el = String.get j gap)
    by (intros j Hj; rewrite GR2; now apply get_app_l).
  assert (GR3 : forall j, String.get (lk + S (lg + j)) el = String.get j R3)
    by (intros j; rewrite GR2; apply get_app_r).
  assert (GR4 : forall j, String.get (lk + S (lg + S j)) el = String.get j R4)
    by (intros j; now rewrite GR3).
  assert (Gbody : forall j, j < lb ->
            String.get (lk + S (lg + S j)) el = String.get j body)
    by (intros j Hj; rewrite GR4; now apply get_app_l).
  assert (Gq2 : String.get (lk + S (lg + S (lb + 0))) el = Some double_quote).
  { rewrite GR4. subst R4 lb. rewrite get_app_r. reflexivity. }
  unfold printLine. rewrite Hlen.
  (* the key *)
  rewrite seq_app, fold_left_app.
  rewrite (loop_idle el (mkLexer startWith 0 in_left) lk 0).
  2:{ intros i Hi. unfold step. simpl. unfold char_is. rewrite G1 by lia.
      fold (char_is key i "="). now rewrite (char_is_other_than _ _ Hkey). }
  (* "=" *)
  rewrite Nat.add_0_l, <- cons_seq. cbn [fold_left].
  assert (S1 : step el (mkLexer startWith 0 in_left) lk = mkLexer startWith 0 in_right).
  { unfold step. simpl. unfold char_is.
    replace lk with (lk + 0) by lia. rewrite GR1. reflexivity. }
  rewrite S1.
  (* the filling *)
  rewrite seq_app, fold_left_app.
  rewrite (loop_idle el (mkLexer startWith 0 in_right) lg (S lk)).
  2:{ intros i Hi. replace i with (lk + S (i - S lk)) by lia.
      assert (Hj : i - S lk < lg) by lia.
      assert (C : char_is el (lk + S (i - S lk)) double_quote = false /\
                  isNumber (char_at el (lk + S (i - S lk))) = false /\
                  char_is el (lk + S (i - S lk)) "[" = false).
      { unfold char_is, char_at. rewrite (Ggap _ Hj).
        destruct (String.get (i - S lk) gap) as [a|] eqn:E; [|now repeat split].
        exact (filler_get _ _ _ Hgap E). }
      destruct C as (C1 & C2 & C3).
      unfold step, case_quotes. cbn [render].
      rewrite C1, C2, C3. reflexivity. }
  (* the opening quote *)
  rewrite <- cons_seq. cbn [fold_left].
  assert (SL1 : slice el 0 (lk + S (lg + 0)) = (key ++ String "=" gap)%string).
  { unfold slice. rewrite Nat.sub_0_r. subst el lk. rewrite substring_app_0.
    f_equal. subst R1. simpl. f_equal. subst R2 lg. rewrite Nat.add_0_r.
    apply substring_app_l. }
  assert (S2 : step el (mkLexer startWith 0 in_right) (S lk + lg)
               = mkLexer (startWith ++ plain (key ++ String "=" gap))
                   (S lk + lg) in_quotes).
  { replace (S lk + lg) with (lk + S (lg + 0)) by lia.
    unfold step. cbn [render]. unfold char_is at 1. rewrite GR3.
    cbn [String.get R3]. rewrite Ascii.eqb_refl.
    unfold set_render, addToLine. cbn [line lastAdded render].
    now rewrite SL1. }
  rewrite S2.
  (* the value *)
  rewrite seq_app, fold_left_app.
  rewrite (loop_idle el
             (mkLexer (startWith ++ plain (key ++ String "=" gap))
                (S lk + lg) in_quotes) lb (S (S lk + lg))).
  2:{ intros i Hi. replace i with (lk + S (lg + S (i - S (S lk + lg)))) by lia.
      assert (Hj : i - S (S lk + lg) < lb) by lia.
      unfold step, case_quotes. cbn [render].
      unfold char_is. rewrite (Gbody _ Hj).
      fold (char_is body (i - S (S lk + lg)) double_quote).
      now rewrite (char_is_other_than _ _ Hbody). }
  (* the closing quote *)
  rewrite <- cons_seq. cbn [fold_left].
  assert (SL2 : slice el (lk + S (lg + 0)) (lk + S (lg + S (lb + 0)) + 1) = R3).
  { unfold slice.
    replace (lk + S (lg + S (lb + 0)) + 1 - (lk + S (lg + 0))) with (S (lb + 1))
      by lia.
    subst el lk. rewrite substring_app_r. subst R1. simpl.
    subst R2 lg. rewrite substring_app_r.
    replace (S (lb + 1)) with (String.length R3)
      by (subst R3 R4 lb; simpl; now rewrite length_app).
    apply substring_whole. }
  assert (S3 : step el
                 (mkLexer (startWith ++ plain (key ++ String "=" gap))
                    (S lk + lg) in_quotes)
                 (S (S lk + lg) + lb)
               = mkLexer
                   ((startWith ++ plain (key ++ String "=" gap))
                    ++ styled [brandColor] R3)
                   (S (S lk + lg) + lb + 1) in_right).
  { replace (S (S lk + lg) + lb) with (lk + S (lg + S (lb + 0))) by lia.
    replace (S lk + lg) with (lk + S (lg + 0)) by lia.
    unfold step, case_quotes. cbn [render]. unfold char_is.
    rewrite Gq2, Ascii.eqb_refl.
    unfold set_render, addToLine. cbn [line lastAdded render].
    now rewrite SL2. }
  rewrite S3. cbn [fold_left seq]. unfold finish. cbn [render].
  unfold addToLine, slice. cbn [line lastAdded]. rewrite Hlen.
  replace (lk + S (lg + S (lb + 1)) - (S (S lk + lg) + lb + 1)) with 0 by lia.
  rewrite substring_none. subst R3 R4.
  rewrite <- !app_assoc. reflexivity.
Qed.

Lemma printLine_colours_quoted_value_witness :
  printLine
    ("image " ++ String "=" (" " ++ String double_quote
                                      ("registry/web:1"
                                       ++ String double_quote EmptyString)))
    (plain "  ")
  = plain "  "
    ++ plain ("image " ++ String "=" " ")
    ++ styled [brandColor]
         (String double_quote ("registry/web:1" ++ String double_quote EmptyString))
    ++ plain EmptyString.
Proof.
  apply (printLine_colours_quoted_value "image " " " "registry/web:1" (plain "  "));
    reflexivity.
Defined.

Lemma isNumber_app (key rest : string) :
  isNumber key = false -> isNumber (key ++ String "=" rest) = false.
Proof. destruct key; [reflexivity | exact (fun H => H)]. Qed.

Lemma digit_is_no_quote (d : ascii) :
  isNumber (String d EmptyString) = true -> Ascii.eqb d double_quote = false.
Proof.
  intros H. destruct (Ascii.eqb_spec d double_quote) as [-> | _];
    [discriminate H | reflexivity].
Qed.

(** X4.  Of a number of two digits only the first is coloured.  The test
    that ends the state ["number"] looks at the line and not at the
    character read, so the state ends at the character after the digit,
    whatever it is: in a line made of a key that has no "=" and does not
    start with a digit, "=", filling characters, a digit, one more
    character and then filling characters only (no digit, no double
    quote, no opening bracket), the digit is printed in red and all the
    rest without colour. *)
Theorem printLine_colours_first_of_two_digits
    (key gap tail : string) (d c : ascii) (startWith : Text) :
  every_char (other_than "=") key = true ->
  isNumber key = false ->
  every_char filler gap = true ->
  isNumber (String d EmptyString) = true ->
  every_char filler tail = true ->
  printLine (key ++ String "=" (gap ++ String d (String c tail))) startWith
  = startWith
    ++ plain (key ++ String "=" gap)
    ++ styled [red] (String d EmptyString)
    ++ plain (String c tail).
Proof.
  intros Hkey Hfirst Hgap Hd Htail.
  set (R4 := String c tail).
  set (R3 := String d R4).
  set (R2 := (gap ++ R3)%string).
  set (R1 := String "="%char R2).
  set (el := (key ++ R1)%string).
  set (lk := String.length key). set (lg := String.length gap).
  set (lt := String.length tail).
  assert (Hnum : isNumber el = false) by (now apply isNumber_app).
  assert (Hlen : String.length el = lk + S (lg + S (S lt))).
  { subst el R1 R2 R3 R4 lk lg lt. rewrite length_app. simpl.
    now rewrite length_app. }
  assert (G1 : forall i, i < lk -> String.get i el = String.get i key)
    by (intros i Hi; now apply get_app_l).
  assert (GR1 : forall j, String.get (lk + j) el = String.get j R1)
    by (intros j; apply get_app_r).
  assert (GR2 : forall j, String.get (lk + S j) el = String.get j R2)
    by (intros j; now rewrite GR1).
  assert (Ggap : forall j, j < lg -> String.get (lk + S j) el = String.get j gap)
    by (intros j Hj; rewrite GR2; now apply get_app_l).
  assert (GR3 : forall j, String.get (lk + S (lg + j)) el = String.get j R3)
    by (intros j; rewrite GR2; apply get_app_r).
  assert (Gtail : forall j,
            String.get (lk + S (lg + S (S j))) el = String.get j tail)
    by (intros j; now rewrite GR3).
  unfold printLine. rewrite Hlen.
  (* the key *)
  rewrite seq_app, fold_left_app.
  rewrite (loop_idle el (mkLexer startWith 0 in_left) lk 0).
  2:{ intros i Hi. unfold step. simpl. unfold char_is. rewrite G1 by lia.
      fold (char_is key i "="). now rewrite (char_is_other_than _ _ Hkey). }
  (* "=" *)
  rewrite Nat.add_0_l, <- cons_seq. cbn [fold_left].
  assert (S1 : step el (mkLexer startWith 0 in_left) lk = mkLexer startWith 0 in_right).
  { unfold step. simpl. unfold char_is.
    replace lk with (lk + 0) by lia. rewrite GR1. reflexivity. }
  rewrite S1.
  (* the filling *)
  rewrite seq_app, fold_left_app.
  rewrite (loop_idle el (mkLexer startWith 0 in_right) lg (S lk)).
  2:{ intros i Hi. replace i with (lk + S (i - S lk)) by lia.
      assert (Hj : i - S lk < lg) by lia.
      assert (C : char_is el (lk + S (i - S lk)) double_quote = false /\
                  isNumber (char_at el (lk + S (i - S lk))) = false /\
                  char_is el (lk + S (i - S lk)) "[" = false).
      { unfold char_is, char_at. rewrite (Ggap _ Hj).
        destruct (String.get (i - S lk) gap) as [a|] eqn:E; [|now repeat split].
        exact (filler_get _ _ _ Hgap E). }
      destruct C as (C1 & C2 & C3).
      unfold step, case_quotes. cbn [render].
      rewrite C1, C2, C3. reflexivity. }
  (* the first digit *)
  rewrite <- cons_seq. cbn [fold_left].
  assert (SL1 : slice el 0 (lk + S (lg + 0)) = (key ++ String "=" gap)%string).
  { unfold slice. rewrite Nat.sub_0_r. subst el lk. rewrite substring_app_0.
    f_equal. subst R1. simpl. f_equal. subst R2 lg. rewrite Nat.add_0_r.
    apply substring_app_l. }
  assert (S2 : step el (mkLexer startWith 0 in_right) (S lk + lg)
               = mkLexer (startWith ++ plain (key ++ String "=" gap))
                   (S lk + lg) in_number).
  { replace (S lk + lg) with (lk + S (lg + 0)) by lia.
    unfold step. cbn [render]. unfold char_is at 1. unfold char_at.
    rewrite GR3. cbn [String.get R3].
    rewrite (digit_is_no_quote _ Hd), Hd.
    unfold set_render, addToLine. cbn [line lastAdded render].
    now rewrite SL1. }
  rewrite S2.
  (* the character after it *)
  rewrite <- cons_seq. cbn [fold_left].
  assert (SL2 : slice el (lk + S (lg + 0)) (S (lk + S (lg + 0)))
                = String d EmptyString).
  { unfold slice.
    replace (S (lk + S (lg + 0)) - (lk + S (lg + 0))) with 1 by lia.
    subst el lk. rewrite substring_app_r. subst R1. simpl.
    subst R2 lg. rewrite substring_app_r. subst R3. simpl.
    rewrite ?substring_none. reflexivity. }
  assert (S3 : step el
                 (mkLexer (startWith ++ plain (key ++ String "=" gap))
                    (S lk + lg) in_number)
                 (S (S lk + lg))
               = mkLexer
                   ((startWith ++ plain (key ++ String "=" gap))
                    ++ styled [red] (String d EmptyString))
                   (S (S lk + lg)) in_right).
  { replace (S (S lk + lg)) with (S (lk + S (lg + 0))) by lia.
    replace (S lk + lg) with (lk + S (lg + 0)) by lia.
    unfold step. cbn [render]. rewrite Hnum. cbn [negb].
    unfold set_render, addToLine. cbn [line lastAdded render].
    now rewrite SL2. }
  rewrite S3.
  (* what follows *)
  rewrite (loop_idle el _ lt (S (S (S lk + lg)))).
  2:{ intros i Hi.
      replace i with (lk + S (lg + S (S (i - S (S (S lk + lg)))))) by lia.
      assert (C : char_is el (lk + S (lg + S (S (i - S (S (S lk + lg))))))
                    double_quote = false /\
                  isNumber (char_at el
                              (lk + S (lg + S (S (i - S (S (S lk + lg)))))))
                  = false /\
                  char_is el (lk + S (lg + S (S (i - S (S (S lk + lg))))))
                    "[" = false).
      { unfold char_is, char_at. rewrite Gtail.
        destruct (String.get (i - S (S (S lk + lg))) tail) as [a|] eqn:E;
          [|now repeat split].
        exact (filler_get _ _ _ Htail E). }
      destruct C as (C1 & C2 & C3).
      unfold step, case_quotes. cbn [render].
      rewrite C1, C2, C3. reflexivity. }
  unfold finish. cbn [render].
  unfold addToLine, slice. cbn [line lastAdded]. rewrite Hlen.
  replace (lk + S (lg + S (S lt)) - S (S lk + lg)) with (S lt) by lia.
  assert (SL3 : String.substring (S (S lk + lg)) (S lt) el = R4).
  { replace (S (S lk + lg)) with (lk + S (lg + 1)) by lia.
    subst el lk. rewrite substring_app_r. subst R1. simpl.
    subst R2 lg. rewrite substring_app_r. subst R3. simpl.
    subst R4 lt. f_equal. apply substring_whole. }
  rewrite SL3. subst R4.
  rewrite <- !app_assoc. reflexivity.
Qed.

Lemma printLine_colours_first_of_two_digits_witness :
  printLine ("instances " ++ String "=" (" " ++ String "1" (String "2" "")))
    (plain "  ")
  = plain "  "
    ++ plain ("instances " ++ String "=" " ")
    ++ styled [red] (String "1" EmptyString)
    ++ plain (String "2" "").
Proof.
  apply (printLine_colours_first_of_two_digits "instances " " " "" "1" "2"
           (plain "  ")); reflexivity.
Defined.
End RenderFacts.

(* ================================================================= *)
(** ** More facts about the reconciler *)

Module CommandFacts.
Import Js Apply ApplyNotions.

Lemma filter_mutation_app (a b : list Event) :
  filter is_mutation (a ++ b) = filter is_mutation a ++ filter is_mutation b.
Proof. apply filter_app. Qed.

(** What the second loop adds to the trace. *)
Lemma apply_actions_adds (VALIDATE_INPUT : string) (args : Args) (w : World)
    (actions : list Action) :
  forall trace,
  exists done rest added,
    actions = done ++ rest /\
    snd (apply_actions VALIDATE_INPUT args w actions trace) = trace ++ added /\
    filter is_mutation added = map call_of done /\
    existsb is_confirm added = false /\
    existsb is_listing added = false /\
    ((fst (apply_actions VALIDATE_INPUT args w actions trace) = Returned
      /\ rest = []
      /\ exists before, added = before ++ [EndSection "Applied changes" None])
     \/
     (fst (apply_actions VALIDATE_INPUT args w actions trace) = Crashed
      /\ done <> []
      /\ exists before msg, added = before ++ [Crash msg])).
Proof.
  induction actions as [|action actions IH]; intros trace.
  - exists [], [], [EndSection "Applied changes" None]. simpl.
    repeat split; auto. left. repeat split; auto. now exists [].
  - pose (Q := fun r : Outcome * list Event =>
        exists done rest added,
          action :: actions = done ++ rest /\
          snd r = trace ++ added /\
          filter is_mutation added = map call_of done /\
          existsb is_confirm added = false /\
          existsb is_listing added = false /\
          ((fst r = Returned /\ rest = []
            /\ exists before, added = before ++ [EndSection "Applied changes" None])
           \/
           (fst r = Crashed /\ done <> []
            /\ exists before msg, added = before ++ [Crash msg]))).
    change (Q (apply_actions VALIDATE_INPUT args w (action :: actions) trace)).
    assert (Hcrash : forall call spin msg,
              call_of action = call -> is_mutation call = true ->
              is_confirm call = false -> is_listing call = false ->
              Q (Crashed,
                 (trace ++ [call; Spinner (json args) spin]) ++ [Crash msg])).
    { intros call spin msg Hc Hm Hcf Hl.
      exists [action], actions, [call; Spinner (json args) spin; Crash msg].
      split; [reflexivity|]. split; [simpl; now rewrite <- app_assoc|].
      split; [simpl; now rewrite Hm, Hc|].
      split; [simpl; now rewrite Hcf|]. split; [simpl; now rewrite Hl|].
      right. split; [reflexivity|]. split; [discriminate|].
      now exists [call; Spinner (json args) spin], msg. }
    assert (Hnext : forall call spin ok,
              call_of action = call -> is_mutation call = true ->
              is_confirm call = false -> is_listing call = false ->
              is_mutation ok = false -> is_confirm ok = false ->
              is_listing ok = false ->
              Q (apply_actions VALIDATE_INPUT args w actions
                   ((trace ++ [call; Spinner (json args) spin])
                    ++ [ok; PrintLine "" (plain "") log]))).
    { intros call spin ok Hc Hm Hcf Hl Hom Hoc Hol.
      destruct (IH ((trace ++ [call; Spinner (json args) spin])
                    ++ [ok; PrintLine "" (plain "") log]))
        as (done & rest & added & -> & Hs & Hf & Hcn & Hln & Hout).
      exists (action :: done), rest,
        ([call; Spinner (json args) spin; ok; PrintLine "" (plain "") log] ++ added).
      split; [reflexivity|]. split.
      { rewrite Hs. now rewrite <- !app_assoc. }
      split; [simpl; now rewrite Hm, Hom, Hc, Hf|].
      split; [simpl; now rewrite Hcf, Hoc|].
      split; [simpl; now rewrite Hl, Hol|].
      destruct Hout as [(Ho & Hr & before & Hb) | (Ho & Hd & before & msg & Hb)].
      - left. repeat split; auto.
        exists ([call; Spinner (json args) spin; ok; PrintLine "" (plain "") log]
                ++ before).
        now rewrite Hb, <- app_assoc.
      - right. split; [exact Ho|]. split; [discriminate|].
        exists ([call; Spinner (json args) spin; ok; PrintLine "" (plain "") log]
                ++ before), msg.
        now rewrite Hb, <- app_assoc. }
    clearbody Q.
    destruct action as [application | application id name];
      cbn [apply_actions];
      match goal with
      | |- context [mutation_failure w ?t] =>
          destruct (mutation_failure w t)
            as [[status error details request_id | message]|]
      end;
      try (destruct (status =? 400)%Z);
      first [ apply Hcrash; reflexivity | apply Hnext; reflexivity ].
Qed.

(** What the first loop prints. *)
Lemma print_values_outputs (line : Change) (ls : list string) :
  forall p, Forall (fun e => is_output e = true) (fst (print_values line ls p)).
Proof.
  induction ls as [|l rest IH]; intros p; simpl; [constructor|].
  specialize (IH true). destruct (print_values line rest true) as [evs p'].
  simpl in *. apply Forall_app. split.
  - destruct (startsWith l "[" && p); repeat constructor.
  - constructor; [|exact IH]. unfold print_diff_line.
    destruct (added line); [reflexivity|]. now destruct (removed line).
Qed.

Lemma print_diff_outputs (lines : list Change) :
  forall p, Forall (fun e => is_output e = true) (print_diff lines p).
Proof.
  induction lines as [|line rest IH]; intros p; simpl; [constructor|].
  pose proof (print_values_outputs line (lineValues line) p) as H.
  destruct (print_values line (lineValues line) p) as [evs p'].
  apply Forall_app. split; [exact H | apply IH].
Qed.

Lemma plan_one_outputs (TOML_stringify : JsVal -> string)
    (diffLines : string -> string -> list Change)
    (byNames : list (string * Application.t)) (appConfig : AppConfig)
    (evs : list Event) (action : option Action) :
  plan_one TOML_stringify diffLines byNames appConfig = Some (evs, action) ->
  Forall (fun e => is_output e = true) evs.
Proof.
  unfold plan_one.
  destruct (read byNames (nameOf appConfig)) as [found|].
  - destruct (prevApp_of found); [|discriminate].
    destruct (nowApp appConfig); [|discriminate].
    destruct (negb _).
    + intros [= <- _]. repeat constructor.
    + intros [= <- _]. constructor; [reflexivity|].
      apply Forall_app. split; [apply print_diff_outputs | repeat constructor].
  - intros [= <- _]. constructor; [reflexivity|].
    apply Forall_forall. intros e He. apply in_map_iff in He.
    destruct He as (el & <- & _). reflexivity.
Qed.

Lemma plan_outputs (TOML_stringify : JsVal -> string)
    (diffLines : string -> string -> list Change)
    (byNames : list (string * Application.t)) (container_app : list AppConfig) :
  forall printed0 actions0,
    Forall (fun e => is_output e = true) printed0 ->
    Forall (fun e => is_output e = true)
      (fst (plan TOML_stringify diffLines byNames container_app printed0 actions0)).
Proof.
  induction container_app as [|c rest IH]; intros printed0 actions0 H0; simpl;
    [exact H0|].
  destruct (plan_one TOML_stringify diffLines byNames c) as [[evs action]|] eqn:E;
    [|exact H0].
  apply plan_one_outputs in E.
  destruct action; apply IH; apply Forall_app; now split.
Qed.

Lemma outputs_are_local (evs : list Event) :
  Forall (fun e => is_output e = true) evs ->
  existsb is_mutation evs = false /\
  existsb is_confirm evs = false /\
  existsb is_listing evs = false.
Proof.
  induction 1 as [|e evs He _ (IH1 & IH2 & IH3)]; simpl; [auto|].
  rewrite IH1, IH2, IH3. destruct e; try discriminate; auto.
Qed.

Lemma mutation_exists_filter (evs : list Event) :
  existsb is_mutation evs = false <-> filter is_mutation evs = [].
Proof.
  induction evs as [|e evs IH]; simpl; [tauto|].
  destruct (is_mutation e); simpl; [split; discriminate | exact IH].
Qed.

(* ----------------------------------------------------------------- *)
(** *** The second loop *)

(** After each call of the second loop: the crash when the call failed,
    the success line when it did not. *)
Lemma apply_actions_after_call (VALIDATE_INPUT : string) (args : Args) (w : World)
    (actions : list Action) :
  forall trace added,
    snd (apply_actions VALIDATE_INPUT args w actions trace) = trace ++ added ->
    forall before call spinner after,
      added = before ++ call :: spinner :: after ->
      is_mutation call = true ->
      match mutation_failure w (trace ++ before ++ [call; spinner]) with
      | Some _ =>
          fst (apply_actions VALIDATE_INPUT args w actions trace) = Crashed /\
          exists msg, after = [Crash msg]
      | None => exists msg after', after = Success msg :: after'
      end.
Proof.
  induction actions as [|action actions IH];
    intros trace added Hs before call spinner after Hd Hm.
  - simpl in Hs. apply app_inv_head in Hs. subst added.
    destruct before as [|b0 [|b1 before]]; discriminate.
  - assert (Hstep : forall call0 spin0,
      (forall msg,
         snd (apply_actions VALIDATE_INPUT args w (action :: actions) trace)
         = (trace ++ [call0; Spinner (json args) spin0]) ++ [Crash msg] ->
         mutation_failure w (trace ++ [call0; Spinner (json args) spin0]) <> None ->
         fst (apply_actions VALIDATE_INPUT args w (action :: actions) trace)
         = Crashed ->
         match mutation_failure w (trace ++ before ++ [call; spinner]) with
         | Some _ =>
             fst (apply_actions VALIDATE_INPUT args w (action :: actions) trace)
             = Crashed /\ exists msg, after = [Crash msg]
         | None => exists msg after', after = Success msg :: after'
         end) /\
      (forall ok,
         apply_actions VALIDATE_INPUT args w (action :: actions) trace
         = apply_actions VALIDATE_INPUT args w actions
             ((trace ++ [call0; Spinner (json args) spin0])
              ++ [Success ok; PrintLine "" (plain "") log]) ->
         mutation_failure w (trace ++ [call0; Spinner (json args) spin0]) = None ->
         match mutation_failure w (trace ++ before ++ [call; spinner]) with
         | Some _ =>
             fst (apply_actions VALIDATE_INPUT args w (action :: actions) trace)
             = Crashed /\ exists msg, after = [Crash msg]
         | None => exists msg after', after = Success msg :: after'
         end)).
    { intros call0 spin0. split.
      - intros msg Hr Hfail Hc. rewrite Hs, <- app_assoc in Hr.
        apply app_inv_head in Hr. rewrite Hd in Hr. clear Hd Hs.
        destruct before as [|b0 [|b1 [|b2 before]]]; simpl in Hr.
        + injection Hr as -> -> ->. cbn [app].
          destruct (mutation_failure w (trace ++ [call0; Spinner (json args) spin0]));
            [split; [exact Hc | eauto] | contradiction].
        + injection Hr as _ -> _. discriminate.
        + injection Hr as _ _ Hr. discriminate.
        + injection Hr as _ _ _ Hr. destruct before; discriminate.
      - intros ok Hr Hok.
        destruct (apply_actions_adds VALIDATE_INPUT args w actions
                    ((trace ++ [call0; Spinner (json args) spin0])
                     ++ [Success ok; PrintLine "" (plain "") log]))
          as (_ & _ & added' & _ & Hs' & _).
        rewrite Hr in Hs. rewrite Hs', <- !app_assoc in Hs.
        apply app_inv_head in Hs. simpl in Hs. rewrite Hd in Hs. clear Hd.
        destruct before as [|b0 [|b1 [|b2 [|b3 before]]]]; simpl in Hs.
        + injection Hs as <- <- <-. cbn [app]. rewrite Hok. eauto.
        + injection Hs as _ <- _. discriminate.
        + injection Hs as _ _ <- _. discriminate.
        + injection Hs as _ _ _ <- _. discriminate.
        + injection Hs as <- <- <- <- Hs. rewrite Hr.
          specialize (IH _ _ Hs' before call spinner after Hs Hm).
          match goal with
          | |- context [mutation_failure w ?t] =>
              replace t
                with (((trace ++ [call0; Spinner (json args) spin0])
                       ++ [Success ok; PrintLine "" (plain "") log])
                      ++ before ++ [call; spinner])
                by (now rewrite <- !app_assoc)
          end.
          exact IH. }
    destruct action as [application | application id name];
      cbn [apply_actions] in *;
      match type of Hs with
      | context [[?c; Spinner (json args) ?s]] =>
          destruct (Hstep c s) as [Hcrash Hnext]
      end; clear Hstep;
      match type of Hnext with
      | context [mutation_failure w ?t] =>
          destruct (mutation_failure w t)
            as [[status error details request_id | message]|] eqn:Ef
      end;
      try (destruct (status =? 400)%Z);
      first [ eapply Hcrash; [reflexivity | discriminate | reflexivity]
            | eapply Hnext; reflexivity ].
Qed.

(** A crash of the second loop comes right after a call that failed. *)
Lemma apply_actions_crash (VALIDATE_INPUT : string) (args : Args) (w : World)
    (actions : list Action) :
  forall trace,
    fst (apply_actions VALIDATE_INPUT args w actions trace) = Crashed ->
    exists before call spinner msg err,
      snd (apply_actions VALIDATE_INPUT args w actions trace)
      = trace ++ before ++ [call; spinner; Crash msg] /\
      is_mutation call = true /\
      mutation_failure w (trace ++ before ++ [call; spinner]) = Some err.
Proof.
  induction actions as [|action actions IH]; intros trace Hc; [discriminate|].
  assert (Hnext : forall call0 spin0 ok,
    fst (apply_actions VALIDATE_INPUT args w actions
           ((trace ++ [call0; Spinner (json args) spin0])
            ++ [Success ok; PrintLine "" (plain "") log])) = Crashed ->
    exists before call spinner msg err,
      snd (apply_actions VALIDATE_INPUT args w actions
             ((trace ++ [call0; Spinner (json args) spin0])
              ++ [Success ok; PrintLine "" (plain "") log]))
      = trace ++ before ++ [call; spinner; Crash msg] /\
      is_mutation call = true /\
      mutation_failure w (trace ++ before ++ [call; spinner]) = Some err).
  { intros call0 spin0 ok H.
    destruct (IH _ H) as (before & call & spinner & msg & err & Hs & Hm & Hf).
    exists ([call0; Spinner (json args) spin0; Success ok;
             PrintLine "" (plain "") log] ++ before), call, spinner, msg, err.
    split; [|split; [exact Hm|]].
    - rewrite Hs. now rewrite <- !app_assoc.
    - rewrite <- Hf. f_equal. now rewrite <- !app_assoc. }
  destruct action as [application | application id name];
    cbn [apply_actions] in *;
    match goal with
    | |- context [mutation_failure w ?t] =>
        destruct (mutation_failure w t)
          as [[status error details request_id | message]|] eqn:Ef
    end;
    try (destruct (status =? 400)%Z);
    try (apply Hnext; exact Hc);
    match goal with
    | |- context [(trace ++ [?c; ?s]) ++ [Crash ?m]] =>
        exists [], c, s, m; eexists;
        (split; [now rewrite <- app_assoc | split; [reflexivity | exact Ef]])
    end.
Qed.

(** X5.  The second loop calls the remote service for the actions in
    their order and stops at the first call that fails.  The calls made
    are those of an initial part of the actions; after a call that did
    not fail comes its success line, and after a call that failed comes
    the crash message and nothing more; when the loop returns every
    action was called; when it crashes the last call made is one that
    failed, and the actions after it are not called. *)
Theorem apply_loop_stops_at_first_failure
    (VALIDATE_INPUT : string) (args : Args) (w : World)
    (actions : list Action) (trace : list Event) :
  exists done rest added,
    actions = done ++ rest /\
    snd (apply_actions VALIDATE_INPUT args w actions trace) = trace ++ added /\
    filter is_mutation added = map call_of done /\
    (forall before call spinner after,
       added = before ++ call :: spinner :: after ->
       is_mutation call = true ->
       match mutation_failure w (trace ++ before ++ [call; spinner]) with
       | Some _ =>
           fst (apply_actions VALIDATE_INPUT args w actions trace) = Crashed /\
           exists msg, after = [Crash msg]
       | None => exists msg after', after = Success msg :: after'
       end) /\
    ((fst (apply_actions VALIDATE_INPUT args w actions trace) = Returned
      /\ rest = [])
     \/
     (fst (apply_actions VALIDATE_INPUT args w actions trace) = Crashed
      /\ done <> []
      /\ exists before call spinner msg err,
           added = before ++ [call; spinner; Crash msg] /\
           is_mutation call = true /\
           mutation_failure w (trace ++ before ++ [call; spinner]) = Some err)).
Proof.
  destruct (apply_actions_adds VALIDATE_INPUT args w actions trace)
    as (done & rest & added & Ha & Hs & Hf & _ & _ & Hout).
  exists done, rest, added. split; [exact Ha|]. split; [exact Hs|].
  split; [exact Hf|]. split.
  - exact (apply_actions_after_call VALIDATE_INPUT args w actions trace added Hs).
  - destruct Hout as [(Ho & Hr & _) | (Ho & Hd & _)].
    + left. auto.
    + right. split; [exact Ho|]. split; [exact Hd|].
      destruct (apply_actions_crash VALIDATE_INPUT args w actions trace Ho)
        as (before & call & spinner & msg & err & Hs' & Hm & Hfail).
      exists before, call, spinner, msg, err.
      split; [|split; [exact Hm | exact Hfail]].
      rewrite Hs in Hs'. now apply app_inv_head in Hs'.
Qed.

(** X6.  When no call fails, the second loop returns after calling the
    remote service once for every action, in their order, and ends the
    section with "Applied changes". *)
Theorem apply_loop_without_failure
    (VALIDATE_INPUT : string) (args : Args) (w : World)
    (actions : list Action) (trace : list Event) :
  (forall t, mutation_failure w t = None) ->
  fst (apply_actions VALIDATE_INPUT args w actions trace) = Returned /\
  filter is_mutation (snd (apply_actions VALIDATE_INPUT args w actions trace))
  = filter is_mutation trace ++ map call_of actions /\
  exists before,
    snd (apply_actions VALIDATE_INPUT args w actions trace)
    = before ++ [EndSection "Applied changes" None].
Proof.
  intros Hok. revert trace.
  induction actions as [|action actions IH]; intros trace.
  - simpl. rewrite filter_mutation_app. simpl. split; [reflexivity|].
    split; [reflexivity|]. now exists trace.
  - destruct action as [application | application id name];
      cbn [apply_actions]; rewrite Hok;
      match goal with
      | |- context [apply_actions _ _ _ _ ?t] =>
          destruct (IH t) as (H1 & H2 & H3)
      end;
      (split; [exact H1|]); (split; [|exact H3]);
      rewrite H2, !filter_mutation_app; simpl;
      rewrite ?app_nil_r, <- ?app_assoc; reflexivity.
Qed.

Lemma apply_loop_without_failure_witness :
  fst (apply_actions "VALIDATE_INPUT" (mkArgs None true)
         (mkWorld (inl []) true (fun _ => None))
         [Create Samples.api; Modify Samples.web_three (Some "id-1") (Some "web")] [])
  = Returned /\
  filter is_mutation
    (snd (apply_actions "VALIDATE_INPUT" (mkArgs None true)
            (mkWorld (inl []) true (fun _ => None))
            [Create Samples.api; Modify Samples.web_three (Some "id-1") (Some "web")] []))
  = filter is_mutation []
    ++ map call_of [Create Samples.api; Modify Samples.web_three (Some "id-1") (Some "web")] /\
  exists before,
    snd (apply_actions "VALIDATE_INPUT" (mkArgs None true)
           (mkWorld (inl []) true (fun _ => None))
           [Create Samples.api; Modify Samples.web_three (Some "id-1") (Some "web")] [])
    = before ++ [EndSection "Applied changes" None].
Proof.
  apply (apply_loop_without_failure "VALIDATE_INPUT" (mkArgs None true)
           (mkWorld (inl []) true (fun _ => None))
           [Create Samples.api; Modify Samples.web_three (Some "id-1") (Some "web")] []).
  reflexivity.
Defined.

(* ----------------------------------------------------------------- *)
(** *** The command as a whole *)

Lemma applyCommand_runs
    (TOML_stringify : JsVal -> string)
    (diffLines : string -> string -> list Change)
    (SchedulingPolicy_REGIONAL : JsVal) (VALIDATE_INPUT : string)
    (args : Args) (config : Config.t) (w : World) :
  Run TOML_stringify diffLines SchedulingPolicy_REGIONAL VALIDATE_INPUT
    args config w
    (applyCommand TOML_stringify diffLines SchedulingPolicy_REGIONAL
       VALIDATE_INPUT args config w).
Proof.
  unfold applyCommand.
  destruct (Config.container_app config) as [|c rest] eqn:E.
  - simpl.
    pose proof (run_nothing_declared TOML_stringify diffLines
                  SchedulingPolicy_REGIONAL VALIDATE_INPUT args config w E) as H.
    exact H.
  - assert (Hne : Config.container_app config <> []) by congruence.
    simpl List.length. simpl Nat.eqb. cbv iota.
    destruct (listing w) as [applications | err] eqn:El.
    + destruct (plan TOML_stringify diffLines (applicationByNames applications)
                  (c :: rest) [] []) as [printed [actions|]] eqn:Ep.
      * rewrite <- E in Ep. destruct actions as [|action actions].
        -- simpl. apply (run_no_changes _ _ _ _ _ _ _ applications printed Hne El Ep).
        -- simpl List.length. simpl Nat.eqb. cbv iota.
           unfold processArgument_confirm.
           destruct (json args) eqn:Ej.
           ++ cbv iota beta. simpl negb. cbv iota.
              pose proof (run_applied TOML_stringify diffLines
                            SchedulingPolicy_REGIONAL VALIDATE_INPUT args config w
                            applications printed action actions [] Hne El Ep
                            (or_introl (conj Ej eq_refl))) as H.
              rewrite app_nil_r in H. unfold preamble in H. rewrite Ej in H.
              simpl in H. simpl. exact H.
           ++ destruct (confirm_answer w) eqn:Ec; cbv iota beta; simpl negb; cbv iota.
              ** pose proof (run_applied TOML_stringify diffLines
                               SchedulingPolicy_REGIONAL VALIDATE_INPUT args config w
                               applications printed action actions
                               [Confirm confirm_question] Hne El Ep
                               (or_intror (conj Ej (conj Ec eq_refl)))) as H.
                 unfold preamble in H. rewrite Ej in H. simpl in H.
                 simpl. rewrite <- ?app_assoc. exact H.
              ** pose proof (run_declined TOML_stringify diffLines
                               SchedulingPolicy_REGIONAL VALIDATE_INPUT args config w
                               applications printed action actions Hne El Ep Ej Ec)
                   as H.
                 unfold preamble in H. rewrite Ej in H. simpl in H.
                 simpl. rewrite <- ?app_assoc. exact H.
      * rewrite <- E in Ep.
        pose proof (run_threw TOML_stringify diffLines SchedulingPolicy_REGIONAL
                      VALIDATE_INPUT args config w applications printed Hne El Ep)
          as H.
        exact H.
    + exact (run_listing_rejected TOML_stringify diffLines
               SchedulingPolicy_REGIONAL VALIDATE_INPUT args config w err Hne El).
Qed.

Lemma lines_are_local (startWith : Text) (printFunc : PrintFunc)
    (lines : list string) :
  Forall (fun e => is_output e = true)
    (map (fun el => PrintLine el startWith printFunc) lines).
Proof. apply Forall_forall. intros e He. apply in_map_iff in He.
  destruct He as (el & <- & _). reflexivity. Qed.

Lemma planned_is_local (TOML_stringify : JsVal -> string)
    (diffLines : string -> string -> list Change)
    (byNames : list (string * Application.t)) (container_app : list AppConfig)
    (printed : list Event) (actions : option (list Action)) :
  plan TOML_stringify diffLines byNames container_app [] [] = (printed, actions) ->
  existsb is_mutation printed = false /\
  existsb is_confirm printed = false /\
  existsb is_listing printed = false.
Proof.
  intros H. apply outputs_are_local.
  pose proof (plan_outputs TOML_stringify diffLines byNames container_app [] []
                (Forall_nil _)) as Ho.
  now rewrite H in Ho.
Qed.

(** X7.  A call that changes the remote state is made only when
    something is declared, the listing has answered, the first loop has
    gone through every declared entry without a throw and pushed an
    action, and the changes were confirmed, by the user or by the JSON
    mode. *)
Theorem mutation_needs_plan_and_consent
    (TOML_stringify : JsVal -> string)
    (diffLines : string -> string -> list Change)
    (SchedulingPolicy_REGIONAL : JsVal) (VALIDATE_INPUT : string)
    (args : Args) (config : Config.t) (w : World) :
  existsb is_mutation
    (snd (applyCommand TOML_stringify diffLines SchedulingPolicy_REGIONAL
            VALIDATE_INPUT args config w)) = true ->
  (json args = true \/ confirm_answer w = true) /\
  exists applications printed action actions,
    listing w = inl applications /\
    plan TOML_stringify diffLines (applicationByNames applications)
      (Config.container_app config) [] [] = (printed, Some (action :: actions)).
Proof.
  pose proof (applyCommand_runs TOML_stringify diffLines SchedulingPolicy_REGIONAL
                VALIDATE_INPUT args config w) as Hrun.
  remember (applyCommand TOML_stringify diffLines SchedulingPolicy_REGIONAL
              VALIDATE_INPUT args config w) as r eqn:Er. clear Er.
  destruct Hrun as [Hempty | err Hne Hl | applications printed Hne Hl Hp
                   | applications printed Hne Hl Hp
                   | applications printed action actions Hne Hl Hp Hj Hc
                   | applications printed action actions asked Hne Hl Hp Hask];
    cbn [snd].
  - simpl. destruct (outputs_are_local _ (lines_are_local (plain "  ") logRaw
        (map trim (split_lines (TOML_stringify
           (endConfig SchedulingPolicy_REGIONAL args config)))))) as (H & _).
    rewrite H. discriminate.
  - discriminate.
  - destruct (planned_is_local _ _ _ _ _ _ Hp) as (H & _).
    unfold preamble. simpl. rewrite H. discriminate.
  - destruct (planned_is_local _ _ _ _ _ _ Hp) as (H & _).
    unfold preamble. simpl. rewrite existsb_app, H. discriminate.
  - destruct (planned_is_local _ _ _ _ _ _ Hp) as (H & _).
    unfold preamble. simpl. rewrite existsb_app, H. discriminate.
  - intros _. split.
    + destruct Hask as [[Hj _] | (_ & Hc & _)]; auto.
    + now exists applications, printed, action, actions.
Qed.

Lemma mutation_needs_plan_and_consent_witness :
  (json (mkArgs None true) = true
   \/ confirm_answer (mkWorld (inl [Samples.web]) false (fun _ => None)) = true) /\
  exists applications printed action actions,
    listing (mkWorld (inl [Samples.web]) false (fun _ => None))
    = inl applications /\
    plan Samples.render Samples.diff (applicationByNames applications)
      (Config.container_app (Config.make [Samples.api] None)) [] []
    = (printed, Some (action :: actions)).
Proof.
  apply (mutation_needs_plan_and_consent Samples.render Samples.diff
           (JStr "regional") "VALIDATE_INPUT" (mkArgs None true)
           (Config.make [Samples.api] None)
           (mkWorld (inl [Samples.web]) false (fun _ => None))).
  reflexivity.
Defined.

(** X8.  In the JSON mode the command never asks for a confirmation. *)
Theorem json_mode_never_asks
    (TOML_stringify : JsVal -> string)
    (diffLines : string -> string -> list Change)
    (SchedulingPolicy_REGIONAL : JsVal) (VALIDATE_INPUT : string)
    (args : Args) (config : Config.t) (w : World) :
  json args = true ->
  existsb is_confirm
    (snd (applyCommand TOML_stringify diffLines SchedulingPolicy_REGIONAL
            VALIDATE_INPUT args config w)) = false.
Proof.
  intros Hjson.
  pose proof (applyCommand_runs TOML_stringify diffLines SchedulingPolicy_REGIONAL
                VALIDATE_INPUT args config w) as Hrun.
  remember (applyCommand TOML_stringify diffLines SchedulingPolicy_REGIONAL
              VALIDATE_INPUT args config w) as r eqn:Er. clear Er.
  destruct Hrun as [Hempty | err Hne Hl | applications printed Hne Hl Hp
                   | applications printed Hne Hl Hp
                   | applications printed action actions Hne Hl Hp Hj Hc
                   | applications printed action actions asked Hne Hl Hp Hask];
    cbn [snd].
  - simpl. now destruct (outputs_are_local _ (lines_are_local (plain "  ") logRaw
        (map trim (split_lines (TOML_stringify
           (endConfig SchedulingPolicy_REGIONAL args config)))))) as (_ & H & _).
  - reflexivity.
  - destruct (planned_is_local _ _ _ _ _ _ Hp) as (_ & H & _).
    unfold preamble. simpl. exact H.
  - destruct (planned_is_local _ _ _ _ _ _ Hp) as (_ & H & _).
    unfold preamble. simpl. now rewrite existsb_app, H.
  - congruence.
  - destruct Hask as [[_ ->] | (Hj & _)]; [|congruence].
    destruct (apply_actions_adds VALIDATE_INPUT args w (action :: actions)
                (preamble args ++ printed ++ []))
      as (done & rest & added & _ & Hs & _ & Hc & _).
    destruct (planned_is_local _ _ _ _ _ _ Hp) as (_ & H & _).
    rewrite Hs, !existsb_app, H, Hc. reflexivity.
Qed.

Lemma json_mode_never_asks_witness :
  existsb is_confirm
    (snd (applyCommand Samples.render Samples.diff (JStr "regional")
            "VALIDATE_INPUT" (mkArgs None true)
            (Config.make [Samples.api; Samples.web_three] None)
            (mkWorld (inl [Samples.web]) false (fun _ => None)))) = false.
Proof.
  apply (json_mode_never_asks Samples.render Samples.diff (JStr "regional")
           "VALIDATE_INPUT" (mkArgs None true)
           (Config.make [Samples.api; Samples.web_three] None)
           (mkWorld (inl [Samples.web]) false (fun _ => None))).
  reflexivity.
Defined.

(** X9.  When something is declared, the listing is requested once, as
    the first thing after the section is opened, whatever the command
    does next. *)
Theorem listing_requested_once_first
    (TOML_stringify : JsVal -> string)
    (diffLines : string -> string -> list Change)
    (SchedulingPolicy_REGIONAL : JsVal) (VALIDATE_INPUT : string)
    (args : Args) (config : Config.t) (w : World) :
  Config.container_app config <> [] ->
  exists rest,
    snd (applyCommand TOML_stringify diffLines SchedulingPolicy_REGIONAL
           VALIDATE_INPUT args config w)
    = StartSection "Deploy a container application"
        "deploy all the changes of your application"
      :: ListApplications :: rest /\
    existsb is_listing rest = false.
Proof.
  intros Hdeclared.
  pose proof (applyCommand_runs TOML_stringify diffLines SchedulingPolicy_REGIONAL
                VALIDATE_INPUT args config w) as Hrun.
  remember (applyCommand TOML_stringify diffLines SchedulingPolicy_REGIONAL
              VALIDATE_INPUT args config w) as r eqn:Er. clear Er.
  destruct Hrun as [Hempty | err Hne Hl | applications printed Hne Hl Hp
                   | applications printed Hne Hl Hp
                   | applications printed action actions Hne Hl Hp Hj Hc
                   | applications printed action actions asked Hne Hl Hp Hask];
    cbn [snd]; [contradiction| | | | |].
  - eexists. split; reflexivity.
  - destruct (planned_is_local _ _ _ _ _ _ Hp) as (_ & _ & H).
    eexists. split; [reflexivity|]. simpl. exact H.
  - destruct (planned_is_local _ _ _ _ _ _ Hp) as (_ & _ & H).
    eexists. split; [reflexivity|]. simpl.
    now rewrite existsb_app, H.
  - destruct (planned_is_local _ _ _ _ _ _ Hp) as (_ & _ & H).
    eexists. split; [reflexivity|]. simpl.
    now rewrite existsb_app, H.
  - destruct (apply_actions_adds VALIDATE_INPUT args w (action :: actions)
                (preamble args ++ printed ++ asked))
      as (done & rest & added & _ & Hs & _ & _ & Hlist & _).
    destruct (planned_is_local _ _ _ _ _ _ Hp) as (_ & _ & H).
    rewrite Hs. eexists. split; [reflexivity|].
    simpl. rewrite !existsb_app, H, Hlist.
    destruct Hask as [[_ ->] | (_ & _ & ->)]; reflexivity.
Qed.

Lemma listing_requested_once_first_witness :
  exists rest,
    snd (applyCommand Samples.render Samples.diff (JStr "regional")
           "VALIDATE_INPUT" (mkArgs None false)
           (Config.make [Samples.api; Samples.web_three] None)
           (mkWorld (inl [Samples.web]) true (fun _ => None)))
    = StartSection "Deploy a container application"
        "deploy all the changes of your application"
      :: ListApplications :: rest /\
    existsb is_listing rest = false.
Proof.
  apply (listing_requested_once_first Samples.render Samples.diff
           (JStr "regional") "VALIDATE_INPUT" (mkArgs None false)
           (Config.make [Samples.api; Samples.web_three] None)
           (mkWorld (inl [Samples.web]) true (fun _ => None))).
  discriminate.
Defined.

(** X10.  The calls that change the remote state, taken from the whole
    trace of the command, are those of an initial part of the declared
    entries for which the first loop pushes an action, in the declared
    order, each carrying the declared entry itself. *)
Theorem remote_calls_follow_declared_order
    (TOML_stringify : JsVal -> string)
    (diffLines : string -> string -> list Change)
    (SchedulingPolicy_REGIONAL : JsVal) (VALIDATE_INPUT : string)
    (args : Args) (config : Config.t) (w : World)
    (applications : list Application.t) :
  listing w = inl applications ->
  exists done rest,
    filter is_mutation
      (snd (applyCommand TOML_stringify diffLines SchedulingPolicy_REGIONAL
              VALIDATE_INPUT args config w))
    = map call_of done /\
    map action_application done ++ rest
    = filter (pushes TOML_stringify diffLines (applicationByNames applications))
        (Config.container_app config).
Proof.
  intros Hlisting.
  pose proof (applyCommand_runs TOML_stringify diffLines SchedulingPolicy_REGIONAL
                VALIDATE_INPUT args config w) as Hrun.
  remember (applyCommand TOML_stringify diffLines SchedulingPolicy_REGIONAL
              VALIDATE_INPUT args config w) as r eqn:Er. clear Er.
  destruct Hrun as [Hempty | err Hne Hl | applications' printed Hne Hl Hp
                   | applications' printed Hne Hl Hp
                   | applications' printed action actions Hne Hl Hp Hj Hc
                   | applications' printed action actions asked Hne Hl Hp Hask];
    cbn [snd].
  - exists [], []. rewrite Hempty. split; [|reflexivity]. simpl.
    apply mutation_exists_filter.
    now destruct (outputs_are_local _ (lines_are_local (plain "  ") logRaw
        (map trim (split_lines (TOML_stringify
           (endConfig SchedulingPolicy_REGIONAL args config)))))) as (H & _).
  - congruence.
  - exists [], (filter (pushes TOML_stringify diffLines
                          (applicationByNames applications))
                  (Config.container_app config)).
    split; [|reflexivity].
    destruct (planned_is_local _ _ _ _ _ _ Hp) as (H & _).
    apply mutation_exists_filter. unfold preamble. simpl. exact H.
  - exists [], (filter (pushes TOML_stringify diffLines
                          (applicationByNames applications))
                  (Config.container_app config)).
    split; [|reflexivity].
    destruct (planned_is_local _ _ _ _ _ _ Hp) as (H & _).
    apply mutation_exists_filter. unfold preamble. simpl.
    now rewrite existsb_app, H.
  - exists [], (filter (pushes TOML_stringify diffLines
                          (applicationByNames applications))
                  (Config.container_app config)).
    split; [|reflexivity].
    destruct (planned_is_local _ _ _ _ _ _ Hp) as (H & _).
    apply mutation_exists_filter. unfold preamble. simpl.
    now rewrite existsb_app, H.
  - assert (applications' = applications) as -> by congruence.
    destruct (apply_actions_adds VALIDATE_INPUT args w (action :: actions)
                (preamble args ++ printed ++ asked))
      as (done & rest & added & Hsplit & Hs & Hm & _).
    exists done, (map action_application rest). split.
    + rewrite Hs, !filter_mutation_app, Hm.
      destruct (planned_is_local _ _ _ _ _ _ Hp) as (H & _).
      apply mutation_exists_filter in H. rewrite H.
      destruct Hask as [[_ ->] | (_ & _ & ->)]; reflexivity.
    + rewrite <- map_app, <- Hsplit.
      exact (ApplyFacts.plan_order _ _ _ _ _ _ _ _ Hp).
Qed.

Lemma remote_calls_follow_declared_order_witness :
  exists done rest,
    filter is_mutation
      (snd (applyCommand Samples.render Samples.diff (JStr "regional")
              "VALIDATE_INPUT" (mkArgs None true)
              (Config.make [Samples.api; Samples.web_three] None)
              (mkWorld (inl [Samples.web]) false (fun _ => None))))
    = map call_of done /\
    map action_application done ++ rest
    = filter (pushes Samples.render Samples.diff
                (applicationByNames [Samples.web]))
        (Config.container_app
           (Config.make [Samples.api; Samples.web_three] None)).
Proof.
  apply (remote_calls_follow_declared_order Samples.render Samples.diff
           (JStr "regional") "VALIDATE_INPUT" (mkArgs None true)
           (Config.make [Samples.api; Samples.web_three] None)
           (mkWorld (inl [Samples.web]) false (fun _ => None)) [Samples.web]).
  reflexivity.
Defined.

(** The first loop over entries that all match an application of the
    same rendered normal form. *)
Lemma plan_all_unchanged (TOML_stringify : JsVal -> string)
    (diffLines : string -> string -> list Change)
    (byNames : list (string * Application.t)) (container_app : list AppConfig) :
  (forall s, changes (diffLines s s) = false) ->
  Forall (up_to_date TOML_stringify byNames) container_app ->
  forall printed0 actions0,
    plan TOML_stringify diffLines byNames container_app printed0 actions0
    = (printed0 ++ flat_map (status_of byNames) container_app, Some actions0).
Proof.
  intros Hsame. induction 1 as [|c rest Hc _ IH]; intros printed0 actions0; simpl.
  - now rewrite app_nil_r.
  - destruct Hc as (application & p & n & Hl & Hp & Hn & Heq).
    rewrite (ApplyFacts.plan_one_same_text TOML_stringify diffLines byNames
               c application p n Hsame Hl Hp Hn Heq).
    rewrite IH. unfold status_of at 2. rewrite Hl. unfold no_changes.
    now rewrite <- app_assoc.
Qed.

(** X11.  Applying a configuration that is up to date does nothing: when
    every declared entry matches an application whose normal form is
    rendered to the same text, the command prints one status line for each
    entry, closes the section with its message, and returns without a
    question and without a call that changes the remote state. *)
Theorem up_to_date_configuration_only_reports
    (TOML_stringify : JsVal -> string)
    (diffLines : string -> string -> list Change)
    (SchedulingPolicy_REGIONAL : JsVal) (VALIDATE_INPUT : string)
    (args : Args) (config : Config.t) (w : World)
    (applications : list Application.t) :
  (forall s, changes (diffLines s s) = false) ->
  Config.container_app config <> [] ->
  listing w = inl applications ->
  Forall (up_to_date TOML_stringify (applicationByNames applications))
    (Config.container_app config) ->
  applyCommand TOML_stringify diffLines SchedulingPolicy_REGIONAL
    VALIDATE_INPUT args config w
  = (Returned,
     preamble args
     ++ flat_map (status_of (applicationByNames applications))
          (Config.container_app config)
     ++ [EndSection "No changes to be made" None]).
Proof.
  intros Hsame Hdeclared Hlisting Hall.
  pose proof (plan_all_unchanged TOML_stringify diffLines _ _ Hsame Hall [] [])
    as Hplan. simpl in Hplan.
  pose proof (applyCommand_runs TOML_stringify diffLines SchedulingPolicy_REGIONAL
                VALIDATE_INPUT args config w) as Hrun.
  remember (applyCommand TOML_stringify diffLines SchedulingPolicy_REGIONAL
              VALIDATE_INPUT args config w) as r eqn:Er. clear Er.
  destruct Hrun as [Hempty | err Hne Hl | applications' printed Hne Hl Hp
                   | applications' printed Hne Hl Hp
                   | applications' printed action actions Hne Hl Hp Hj Hc
                   | applications' printed action actions asked Hne Hl Hp Hask];
    try contradiction; try congruence;
    assert (applications' = applications) as -> by congruence;
    rewrite Hplan in Hp; discriminate.
Qed.

Lemma up_to_date_configuration_only_reports_witness :
  applyCommand Samples.render Samples.diff (JStr "regional")
    "VALIDATE_INPUT" (mkArgs None false)
    (Config.make [Samples.web_same] None)
    (mkWorld (inl [Samples.web]) true (fun _ => None))
  = (Returned,
     preamble (mkArgs None false)
     ++ flat_map (status_of (applicationByNames [Samples.web]))
          (Config.container_app (Config.make [Samples.web_same] None))
     ++ [EndSection "No changes to be made" None]).
Proof.
  apply (up_to_date_configuration_only_reports Samples.render Samples.diff
           (JStr "regional") "VALIDATE_INPUT" (mkArgs None false)
           (Config.make [Samples.web_same] None)
           (mkWorld (inl [Samples.web]) true (fun _ => None)) [Samples.web]).
  - exact ApplyFacts.samples_diff_same.
  - discriminate.
  - reflexivity.
  - repeat constructor. unfold up_to_date.
    exists Samples.web. eexists. eexists.
    split; [reflexivity|]. split; [reflexivity|]. split; reflexivity.
Defined.

(** X12.  When the listing has several applications of one name, the
    declared entry of that name is compared with the last of them. *)
Theorem last_application_of_a_name_wins
    (before after : list Application.t) (application : Application.t) :
  (forall a, In a after -> Application.name a <> Application.name application) ->
  lookup (applicationByNames (before ++ application :: after))
    (Application.name application)
  = Some application.
Proof.
  intros Hafter. rewrite ApplyFacts.applicationByNames_lookup.
  rewrite rev_app_distr. simpl. rewrite <- app_assoc. simpl.
  induction after as [|a after IH] using rev_ind.
  - simpl. now rewrite String.eqb_refl.
  - rewrite rev_app_distr. simpl.
    destruct (String.eqb_spec (Application.name a) (Application.name application))
      as [E|_].
    + exfalso. apply (Hafter a); [apply in_or_app; right; now left | exact E].
    + apply IH. intros a' Ha'. apply Hafter. apply in_or_app. now left.
Qed.

Lemma last_application_of_a_name_wins_witness :
  lookup (applicationByNames ([Samples.web] ++ web_again :: [worker]))
    (Application.name web_again)
  = Some web_again.
Proof.
  apply (last_application_of_a_name_wins [Samples.web] [worker] web_again).
  intros a [<-|[]]. discriminate.
Defined.
End CommandFacts.

(* ================================================================= *)
(** ** Facts about the normal form *)

Module NormalFacts.
Import Js Apply NormalNotions.

Lemma nodup_keys_NoDup (ks : list string) : nodup_keys ks = true -> NoDup ks.
Proof.
  induction ks as [|k rest IH]; simpl; [constructor|].
  intros H. apply andb_prop in H. destruct H as [Hk Hrest].
  constructor; [|now apply IH].
  intros Hin. apply negb_true_iff in Hk.
  assert (existsb (String.eqb k) rest = true) as E.
  { apply existsb_exists. exists k. split; [exact Hin | apply String.eqb_refl]. }
  congruence.
Qed.

Lemma distinct_keys_obj (props : Obj) :
  distinct_keys (JObj props) = true ->
  NoDup (map fst props) /\
  forall k v, In (k, v) props -> distinct_keys v = true.
Proof.
  simpl. intros H. apply andb_prop in H. destruct H as [Hk Hv]. split.
  - now apply nodup_keys_NoDup.
  - intros k v Hin. rewrite forallb_forall in Hv. exact (Hv _ Hin).
Qed.

Lemma value_unique (o : Obj) (k : string) (v v' : JsVal) :
  NoDup (map fst o) -> In (k, v) o -> In (k, v') o -> v = v'.
Proof.
  intros Hnd H H'.
  apply (ApplyFacts.lookup_In_NoDup _ _ _ Hnd) in H.
  apply (ApplyFacts.lookup_In_NoDup _ _ _ Hnd) in H'. congruence.
Qed.

Lemma key_has_value (o : Obj) (k : string) :
  In k (map fst o) -> exists v, In (k, v) o.
Proof.
  intros H. apply in_map_iff in H. destruct H as ([k' v] & <- & Hin). now exists v.
Qed.

(** Two ascending lists of the same keys are the same list. *)
Lemma strict_sorted_unique (l : list string) :
  forall l',
    StronglySorted slt l -> StronglySorted slt l' ->
    (forall k, In k l <-> In k l') -> l = l'.
Proof.
  induction l as [|h t IH]; intros l' Hs Hs' Hsame.
  - destruct l' as [|h' t']; [reflexivity|].
    exfalso. apply (Hsame h'). now left.
  - destruct l' as [|h' t'].
    { exfalso. apply (Hsame h). now left. }
    inversion Hs as [|? ? Hst Hall]; subst.
    inversion Hs' as [|? ? Hst' Hall']; subst.
    rewrite Forall_forall in Hall, Hall'.
    assert (h = h') as <-.
    { destruct (proj1 (Hsame h) (or_introl eq_refl)) as [E | Hin]; [now symmetry|].
      destruct (proj2 (Hsame h') (or_introl eq_refl)) as [E | Hin']; [exact E|].
      apply Hall in Hin'. apply Hall' in Hin. unfold slt in *.
      pose proof (ApplyFacts.ltb_trans _ _ _ Hin Hin') as Hcycle.
      rewrite ApplyFacts.ltb_irrefl in Hcycle. discriminate. }
    f_equal. apply IH; [assumption | assumption |].
    intros k. split; intros Hin.
    + destruct (proj1 (Hsame k) (or_intror Hin)) as [E | Hin']; [|exact Hin'].
      subst k. apply Hall in Hin. unfold slt in Hin.
      rewrite ApplyFacts.ltb_irrefl in Hin. discriminate.
    + destruct (proj2 (Hsame k) (or_intror Hin)) as [E | Hin']; [|exact Hin'].
      subst k. apply Hall' in Hin. unfold slt in Hin.
      rewrite ApplyFacts.ltb_irrefl in Hin. discriminate.
Qed.

(** Two objects of the same keys in the same order, with the same value
    under each key. *)
Lemma same_entries (r : Obj) :
  forall r',
    map fst r = map fst r' ->
    NoDup (map fst r) ->
    (forall k v v', In (k, v) r -> In (k, v') r' -> v = v') ->
    r = r'.
Proof.
  induction r as [|[k v] t IH]; intros r' Hk Hnd Hv.
  - destruct r'; [reflexivity | discriminate].
  - destruct r' as [|[k' v'] t']; [discriminate|].
    simpl in Hk. injection Hk as <- Hk.
    inversion Hnd as [|? ? Hnot Hnd']; subst.
    f_equal.
    + f_equal. apply (Hv k); now left.
    + apply IH; [exact Hk | exact Hnd' |].
      intros k0 v0 v0' H H'. apply (Hv k0); now right.
Qed.

Lemma key_reordering_container (v v' : JsVal) :
  key_reordering v v' -> is_container v' = is_container v.
Proof. destruct 1; reflexivity. Qed.

Lemma key_reordering_leaf (v v' : JsVal) :
  key_reordering v v' -> is_container v = false -> v' = v.
Proof. destruct 1; simpl; [reflexivity | discriminate | discriminate]. Qed.

(** The values the two objects hold under a key, seen from the first. *)
Lemma key_reordering_back (props props' : Obj) :
  NoDup (map fst props) ->
  (forall k, In k (map fst props') <-> In k (map fst props)) ->
  (forall k v', In (k, v') props' ->
     exists v, In (k, v) props /\ key_reordering v v') ->
  forall k v, In (k, v) props ->
    exists v', In (k, v') props' /\ key_reordering v v'.
Proof.
  intros Hnd Hkeys Hfwd k v Hin.
  assert (In k (map fst props')) as Hk.
  { apply Hkeys. now apply (in_map fst) in Hin. }
  destruct (key_has_value _ _ Hk) as [v' Hin'].
  exists v'. split; [exact Hin'|].
  destruct (Hfwd _ _ Hin') as (v0 & Hin0 & Hkr).
  now rewrite (value_unique _ _ _ _ Hnd Hin Hin0).
Qed.

(** X13.  The normal form does not depend on the order of the keys: two
    values that differ only in the order of the keys of their objects, at
    any depth, are given the same normal form, or both make
    [sortObjectDeeply] throw. *)
Theorem key_order_does_not_matter (a : JsVal) :
  forall b,
    key_reordering a b ->
    distinct_keys a = true ->
    distinct_keys b = true ->
    sortObjectDeeply a = sortObjectDeeply b.
Proof.
  induction a as [| | x | n | s | items IH | props IH] using JsVal_nested_ind;
    intros b Hkr Ha Hb;
    try (now rewrite (key_reordering_leaf _ _ Hkr eq_refl)).
  - (* arrays *)
    inversion Hkr as [? Hleaf | ? items' Hall | ]; subst; [discriminate|].
    simpl in Ha, Hb. simpl.
    assert (map_items sortObjectDeeply items = map_items sortObjectDeeply items')
      as ->; [|reflexivity].
    clear Hkr. revert IH Ha Hb.
    induction Hall as [|x y r r' Hxy _ IHr]; intros IH Ha Hb; [reflexivity|].
    simpl in Ha, Hb. apply andb_prop in Ha, Hb.
    destruct Ha as [Hx Hr], Hb as [Hy Hr'].
    inversion IH as [|? ? IHx IHrest]; subst.
    simpl. now rewrite (IHx y Hxy Hx Hy), (IHr IHrest Hr Hr').
  - (* objects *)
    inversion Hkr as [? Hleaf | | ? props' Hkeys Hfwd]; subst; [discriminate|].
    destruct (distinct_keys_obj _ Ha) as [Hnd Hdk].
    destruct (distinct_keys_obj _ Hb) as [Hnd' Hdk'].
    pose proof (key_reordering_back _ _ Hnd Hkeys Hfwd) as Hbwd.
    rewrite Forall_forall in IH.
    assert (Hsame : forall k v v',
              In (k, v) props -> In (k, v') props' ->
              sortObjectDeeply v = sortObjectDeeply v' /\
              is_container v' = is_container v /\
              (is_container v = false -> v' = v)).
    { intros k v v' Hin Hin'.
      destruct (Hfwd _ _ Hin') as (v0 & Hin0 & Hkr0).
      rewrite (value_unique _ _ _ _ Hnd Hin Hin0).
      split; [|split].
      - apply (IH _ Hin0 v' Hkr0); [exact (Hdk _ _ Hin0) | exact (Hdk' _ _ Hin')].
      - now apply key_reordering_container.
      - now apply key_reordering_leaf. }
    destruct (sortObjectDeeply (JObj props)) as [r|] eqn:E;
      destruct (sortObjectDeeply (JObj props')) as [r'|] eqn:E'.
    + destruct (ApplyFacts.sortObjectDeeply_props _ _ E)
        as (o & -> & Hs & Hk & Hv).
      destruct (ApplyFacts.sortObjectDeeply_props _ _ E')
        as (o' & -> & Hs' & Hk' & Hv').
      do 2 f_equal. apply same_entries.
      * apply strict_sorted_unique; [exact Hs | exact Hs' |].
        intros k. rewrite Hk, Hk', Hkeys. tauto.
      * now apply ApplyFacts.strict_NoDup.
      * intros k v v' Hin Hin'.
        destruct (Hv _ _ Hin) as [(w & Hw & Hc & Hsw) | [Hw Hc]];
          destruct (Hv' _ _ Hin') as [(w' & Hw' & Hc' & Hsw') | [Hw' Hc']];
          destruct (Hsame _ _ _ Hw Hw') as (Heq & Hcont & Hleaf).
        -- rewrite Heq in Hsw. congruence.
        -- congruence.
        -- congruence.
        -- now rewrite (Hleaf Hc).
    + exfalso. simpl in E, E'.
      destruct (sort_entries sortObjectDeeply props props) as [c|] eqn:Ec;
        [|discriminate].
      destruct (ApplyFacts.sort_entries_returns sortObjectDeeply props') with
        (copy := props') as [c' Hc'].
      { intros k v' Hin' Hcont'.
        destruct (Hfwd _ _ Hin') as (v & Hin & _).
        destruct (Hsame _ _ _ Hin Hin') as (Heq & Hcont & _).
        rewrite <- Heq.
        apply (ApplyFacts.sort_entries_called _ _ _ _ Ec k v Hin). congruence. }
      rewrite Hc' in E'. discriminate.
    + exfalso. simpl in E, E'.
      destruct (sort_entries sortObjectDeeply props' props') as [c'|] eqn:Ec';
        [|discriminate].
      destruct (ApplyFacts.sort_entries_returns sortObjectDeeply props) with
        (copy := props) as [c Hc].
      { intros k v Hin Hcont.
        destruct (Hbwd _ _ Hin) as (v' & Hin' & _).
        destruct (Hsame _ _ _ Hin Hin') as (Heq & Hcont' & _).
        rewrite Heq.
        apply (ApplyFacts.sort_entries_called _ _ _ _ Ec' k v' Hin'). congruence. }
      rewrite Hc in E. discriminate.
    + reflexivity.
Qed.

Lemma key_order_does_not_matter_witness :
  sortObjectDeeply
    (JObj [("name", JStr "web");
           ("configuration",
            JObj [("image", JStr "registry/web:1"); ("vcpu", JNum 1)])])
  = sortObjectDeeply
      (JObj [("configuration",
              JObj [("vcpu", JNum 1); ("image", JStr "registry/web:1")]);
             ("name", JStr "web")]).
Proof.
  apply (key_order_does_not_matter
           (JObj [("name", JStr "web");
                  ("configuration",
                   JObj [("image", JStr "registry/web:1"); ("vcpu", JNum 1)])])
           (JObj [("configuration",
                   JObj [("vcpu", JNum 1); ("image", JStr "registry/web:1")]);
                  ("name", JStr "web")])).
  - apply kr_obj.
    + simpl. tauto.
    + intros k v' [[= <- <-] | [[= <- <-] | []]].
      * eexists. split; [right; left; reflexivity|].
        apply kr_obj.
        -- simpl. tauto.
        -- intros k v' [[= <- <-] | [[= <- <-] | []]];
             (eexists; split; [simpl; eauto | now apply kr_leaf]).
      * eexists. split; [left; reflexivity | now apply kr_leaf].
  - reflexivity.
  - reflexivity.
Defined.


Lemma sortObjectDeeply_None_null (v : JsVal) :
  sortObjectDeeply v = None -> null_free v = false.
Proof.
  intros E. destruct (null_free v) eqn:N; [|reflexivity].
  destruct (proj1 (ApplyFacts.sortObjectDeeply_returns v) N) as [v' Hv'].
  congruence.
Qed.

(** X14.  [sortObjectDeeply] throws exactly when the value is [null] or
    has [null] as an element of an array, at any depth; a [null] that is
    the value of a key is skipped. *)
Theorem sortObjectDeeply_throws_on_null_in_array (v : JsVal) :
  sortObjectDeeply v = None <-> null_free v = false.
Proof.
  pose proof (ApplyFacts.sortObjectDeeply_returns v) as H. split.
  - intros E. destruct (null_free v); [|reflexivity].
    destruct (proj1 H eq_refl) as [v' Hv']. congruence.
  - intros E. destruct (sortObjectDeeply v) as [v'|] eqn:Ev; [|reflexivity].
    assert (null_free v = true) by (apply H; now exists v'). congruence.
Qed.

(** X15.  The live side of the comparison is an object made of the keys
    [applicationToCreateApplication] writes: the [id] of the live
    application is not among them, and the key [jobs] is there only when
    the live value is truthy, and then holds [true]. *)
Theorem live_side_of_comparison (application : Application.t) (p : JsVal) :
  prevApp application = Some p ->
  exists r,
    p = JObj r /\
    (forall k, In k (map fst r) -> In k projected_keys) /\
    lookup r "id" = None /\
    forall v, In ("jobs", v) r ->
      v = JBool true /\ truthy (Application.jobs application) = true.
Proof.
  unfold prevApp.
  rewrite (ApplyFacts.stripUndefined_filter _
             (ApplyFacts.projection_keys_distinct application)).
  intros H.
  destruct (ApplyFacts.sortObjectDeeply_props _ _ H) as (r & -> & _ & Hk & Hv).
  assert (Hkeys : forall k, In k (map fst r) -> In k projected_keys).
  { intros k Hin. apply Hk in Hin. apply in_map_iff in Hin.
    destruct Hin as ([k' v] & <- & Hin). apply filter_In in Hin.
    destruct Hin as [Hin _]. apply (in_map fst) in Hin. exact Hin. }
  assert (Hjobs : forall v,
            In ("jobs", v) (applicationToCreateApplication application) ->
            v = if truthy (Application.jobs application)
                then JBool true else JUndefined).
  { intros v Hin. simpl in Hin.
    repeat (destruct Hin as [Hin | Hin]; [try discriminate|]);
      [now injection Hin as <- | destruct Hin]. }
  exists r. split; [reflexivity|]. split; [exact Hkeys|]. split.
  - apply ApplyFacts.lookup_None. intros Hin. apply Hkeys in Hin.
    simpl in Hin. intuition discriminate.
  - intros v Hin.
    destruct (Hv _ _ Hin) as [(v0 & Hin0 & Hc & _) | [Hin0 _]];
      apply filter_In in Hin0; destruct Hin0 as [Hin0 Hdef];
      apply Hjobs in Hin0; subst;
      destruct (truthy (Application.jobs application)); try discriminate.
    now split.
Qed.

Lemma live_side_of_comparison_witness :
  exists r,
    JObj [("configuration", JObj [("image", JStr "registry/web:1")]);
          ("instances", JNum 2); ("name", JStr "web");
          ("scheduling_policy", JStr "regional")]
    = JObj r /\
    (forall k, In k (map fst r) -> In k projected_keys) /\
    lookup r "id" = None /\
    forall v, In ("jobs", v) r ->
      v = JBool true /\ truthy (Application.jobs Samples.web) = true.
Proof.
  apply (live_side_of_comparison Samples.web). reflexivity.
Defined.

(** X16.  [stripUndefined] on an object: what is left are the properties
    whose value is not [undefined], each with its value; a second pass
    changes nothing. *)
Theorem stripUndefined_keeps_defined_values (r : Obj) :
  NoDup (map fst r) ->
  (forall k v, In (k, v) (stripUndefined r) <-> In (k, v) r /\ v <> JUndefined) /\
  stripUndefined (stripUndefined r) = stripUndefined r.
Proof.
  intros Hnd. rewrite (ApplyFacts.stripUndefined_filter r Hnd).
  assert (Hnd' : NoDup (map fst (filter defined_value r))).
  { clear -Hnd. induction r as [|[k v] t IH]; simpl; [constructor|].
    simpl in Hnd. inversion Hnd as [|? ? Hnot Hnd']; subst.
    destruct (defined_value (k, v)); [|now apply IH].
    simpl. constructor; [|now apply IH].
    intros Hin. apply Hnot. apply in_map_iff in Hin.
    destruct Hin as ([k' v'] & <- & Hin). apply filter_In in Hin.
    destruct Hin as [Hin _]. now apply (in_map fst) in Hin. }
  split.
  - intros k v. rewrite filter_In. unfold defined_value. simpl.
    destruct v; simpl; intuition congruence.
  - rewrite (ApplyFacts.stripUndefined_filter _ Hnd').
    clear. induction r as [|kv t IH]; simpl; [reflexivity|].
    destruct (defined_value kv) eqn:E; simpl; [|exact IH].
    now rewrite E, IH.
Qed.

Lemma stripUndefined_keeps_defined_values_witness :
  (forall k v,
     In (k, v) (stripUndefined Samples.web_jobs_undefined)
     <-> In (k, v) Samples.web_jobs_undefined /\ v <> JUndefined) /\
  stripUndefined (stripUndefined Samples.web_jobs_undefined)
  = stripUndefined Samples.web_jobs_undefined.
Proof.
  apply (stripUndefined_keeps_defined_values Samples.web_jobs_undefined).
  repeat constructor; simpl; intuition discriminate.
Defined.


(** The first loop stops with a throw only in a turn that throws. *)
Lemma plan_throws_in_a_turn (TOML_stringify : JsVal -> string)
    (diffLines : string -> string -> list Change)
    (byNames : list (string * Application.t)) (container_app : list AppConfig) :
  forall printed0 actions0 printed,
    plan TOML_stringify diffLines byNames container_app printed0 actions0
    = (printed, None) ->
    exists appConfig,
      In appConfig container_app /\
      plan_one TOML_stringify diffLines byNames appConfig = None.
Proof.
  induction container_app as [|c rest IH]; intros printed0 actions0 printed H;
    simpl in H; [discriminate|].
  destruct (plan_one TOML_stringify diffLines byNames c)
    as [[evs [action|]]|] eqn:E.
  - destruct (IH _ _ _ H) as (c' & Hin & Hc'). exists c'. split; [now right | exact Hc'].
  - destruct (IH _ _ _ H) as (c' & Hin & Hc'). exists c'. split; [now right | exact Hc'].
  - exists c. split; [now left | exact E].
Qed.

(** X17.  The command ends in a [TypeError] only when something is found
    under the name of a declared entry, a listed application or a member
    of [Object.prototype], and the declared entry or the projection of
    what was found has [null] where [sortObjectDeeply] throws; no call
    that changes the remote state has been made by then.  (No listed
    application is named [__proto__], which would become the prototype of
    [applicationByNames].) *)
Theorem type_error_comes_from_null
    (TOML_stringify : JsVal -> string)
    (diffLines : string -> string -> list Change)
    (SchedulingPolicy_REGIONAL : JsVal) (VALIDATE_INPUT : string)
    (args : Args) (config : Config.t) (w : World) :
  (forall applications a,
     listing w = inl applications -> In a applications ->
     Application.name a <> "__proto__"%string) ->
  fst (applyCommand TOML_stringify diffLines SchedulingPolicy_REGIONAL
         VALIDATE_INPUT args config w) = Threw_TypeError ->
  existsb ApplyNotions.is_mutation
    (snd (applyCommand TOML_stringify diffLines SchedulingPolicy_REGIONAL
            VALIDATE_INPUT args config w)) = false /\
  exists applications appConfig found,
    listing w = inl applications /\
    In appConfig (Config.container_app config) /\
    read (applicationByNames applications) (nameOf appConfig) = Some found /\
    (null_free (JObj appConfig) = false \/
     null_free (JObj (stripUndefined (projection found))) = false).
Proof.
  intros _.
  pose proof (CommandFacts.applyCommand_runs TOML_stringify diffLines
                SchedulingPolicy_REGIONAL VALIDATE_INPUT args config w) as Hrun.
  remember (applyCommand TOML_stringify diffLines SchedulingPolicy_REGIONAL
              VALIDATE_INPUT args config w) as r eqn:Er. clear Er.
  destruct Hrun as [Hempty | err Hne Hl | applications printed Hne Hl Hp
                   | applications printed Hne Hl Hp
                   | applications printed action actions Hne Hl Hp Hj Hc
                   | applications printed action actions asked Hne Hl Hp Hask];
    cbn [fst snd]; try discriminate.
  - intros _. split.
    + destruct (CommandFacts.planned_is_local _ _ _ _ _ _ Hp) as (H & _).
      unfold ApplyNotions.preamble. simpl. exact H.
    + destruct (plan_throws_in_a_turn _ _ _ _ _ _ _ Hp) as (c & Hin & Hone).
      unfold plan_one in Hone.
      destruct (read (applicationByNames applications) (nameOf c))
        as [found|] eqn:El; [|discriminate].
      exists applications, c, found.
      split; [exact Hl|]. split; [exact Hin|]. split; [exact El|].
      destruct (prevApp_of found) as [p|] eqn:Ep.
      * left. destruct (nowApp c) as [n|] eqn:En.
        -- destruct (negb _) in Hone; discriminate.
        -- now apply sortObjectDeeply_None_null.
      * right. now apply sortObjectDeeply_None_null.
  - intros Hthrew. exfalso.
    destruct (CommandFacts.apply_actions_adds VALIDATE_INPUT args w
                (action :: actions)
                (ApplyNotions.preamble args ++ printed ++ asked))
      as (done & rest & added & _ & _ & _ & _ & _ & [[Hr _] | [Hr _]]);
      congruence.
Qed.

Lemma type_error_comes_from_null_witness :
  existsb ApplyNotions.is_mutation
    (snd (applyCommand Samples.render Samples.diff (JStr "regional")
            "VALIDATE_INPUT" (mkArgs None true)
            (Config.make [Samples.api; web_null_port] None)
            (mkWorld (inl [Samples.web]) false (fun _ => None)))) = false /\
  exists applications appConfig found,
    listing (mkWorld (inl [Samples.web]) false (fun _ => None))
    = inl applications /\
    In appConfig
       (Config.container_app (Config.make [Samples.api; web_null_port] None)) /\
    read (applicationByNames applications) (nameOf appConfig) = Some found /\
    (null_free (JObj appConfig) = false \/
     null_free (JObj (stripUndefined (projection found))) = false).
Proof.
  apply (type_error_comes_from_null Samples.render Samples.diff
           (JStr "regional") "VALIDATE_INPUT" (mkArgs None true)
           (Config.make [Samples.api; web_null_port] None)
           (mkWorld (inl [Samples.web]) false (fun _ => None))).
  - intros applications a [= <-] [<- | []]. discriminate.
  - reflexivity.
Defined.

End NormalFacts.

(* ================================================================= *)
(** ** The comparison of a matched pair, against the specification's
       normalisation *)

Module ComparisonFacts.
Import Js Apply NormalNotions.





Lemma strip_deep_container (v : JsVal) :
  is_container (strip_deep v) = is_container v.
Proof. destruct v; reflexivity. Qed.


Section Mapped.
Variable f : string * JsVal -> string * JsVal.
Hypothesis f_key : forall kv, fst (f kv) = fst kv.
Variable p : string * JsVal -> bool.




End Mapped.















(** C2, at a name that [Object.prototype] holds.  The listing is empty
    and the declared spec is named "constructor": what is read under that
    name is the function [Object], so the turn takes the branch of a
    match.  Whatever the serialiser and the differ, it pushes no
    [Create]; with the sample ones it pushes a [Modify] whose id is
    [undefined] and whose name is "Object", and the command, confirmed,
    calls the remote service to modify and never to create. *)
Theorem constructor_name_is_not_created :
  read (applicationByNames []) (nameOf Samples.constructor_app)
  = Some (inherited (method "Object")) /\
  (forall (TOML_stringify : JsVal -> string)
          (diffLines : string -> string -> list Change),
     exists printed action,
       plan_one TOML_stringify diffLines (applicationByNames [])
         Samples.constructor_app = Some (printed, action) /\
       action <> Some (Create Samples.constructor_app)) /\
  snd (plan Samples.toml Samples.diff (applicationByNames [])
         [Samples.constructor_app] [] [])
  = Some [Modify Samples.constructor_app None (Some "Object")] /\
  In (ModifyApplication None Samples.constructor_app)
     (snd (applyCommand Samples.toml Samples.diff (JStr "regional")
             "VALIDATE_INPUT" (mkArgs None true)
             (Config.make [Samples.constructor_app] None)
             (mkWorld (inl []) true (fun _ => None)))) /\
  ~ In (CreateApplication Samples.constructor_app)
       (snd (applyCommand Samples.toml Samples.diff (JStr "regional")
               "VALIDATE_INPUT" (mkArgs None true)
               (Config.make [Samples.constructor_app] None)
               (mkWorld (inl []) true (fun _ => None)))).
Proof.
  split; [reflexivity|]. split.
  - intros TOML_stringify diffLines. unfold plan_one.
    change (read (applicationByNames []) (nameOf Samples.constructor_app))
      with (Some (inherited (method "Object"))).
    cbv beta iota.
    destruct (prevApp_of (inherited (method "Object"))) as [p|] eqn:Ep;
      [|vm_compute in Ep; discriminate].
    destruct (nowApp Samples.constructor_app) as [n|] eqn:En;
      [|vm_compute in En; discriminate].
    cbv zeta.
    destruct (negb (changes (diffLines (TOML_stringify (container_app_table p))
                               (TOML_stringify (container_app_table n)))));
      eexists; eexists; (split; [reflexivity|]); discriminate.
  - split; [vm_compute; reflexivity|]. split.
    + vm_compute. tauto.
    + vm_compute. intros H.
      repeat (destruct H as [H | H]; [discriminate|]). exact H.
Qed.

End ComparisonFacts.

(* ================================================================= *)
(** ** Further facts about the lifecycle-rule commands *)

Module LifecycleMore.
Import Js Lifecycle LifecycleNotions.
Local Open Scope Z_scope.

(* ----------------------------------------------------------------- *)
(** *** What the steps of [AddHandler] leave alone *)

Lemma keeps_ret {A : Type} (a : A) : keeps_puts (ret a).
Proof. intros st. split; [reflexivity | discriminate]. Qed.

Lemma keeps_stop {A : Type} (o : Outcome) :
  o <> Returned -> keeps_puts (@stop A o).
Proof. intros Ho st. split; [reflexivity | simpl; congruence]. Qed.

Lemma keeps_bind {A B : Type} (m : M A) (f : A -> M B) :
  keeps_puts m -> (forall a, keeps_puts (f a)) -> keeps_puts (bind m f).
Proof.
  intros Hm Hf st. unfold bind. specialize (Hm st).
  destruct (m st) as [[a|o] st1]; simpl in *.
  - destruct (Hf a st1) as [H1 H2]. destruct Hm as [Hm _]. split; congruence.
  - destruct Hm as [Hm Ho]. split; [exact Hm | congruence].
Qed.

Lemma read_text_puts (validate : string -> option string) (inputs : list string) :
  forall shown,
    filter is_put (snd (read_text validate inputs shown)) = filter is_put shown.
Proof.
  induction inputs as [|value rest IH]; intros shown; simpl; [reflexivity|].
  destruct (validate value) as [message|]; [|reflexivity].
  rewrite IH, filter_app. simpl. now rewrite app_nil_r.
Qed.

Lemma read_choices_puts (validate : list string -> option string)
    (inputs : list (list string)) :
  forall shown,
    filter is_put (snd (read_choices validate inputs shown)) = filter is_put shown.
Proof.
  induction inputs as [|values rest IH]; intros shown; simpl; [reflexivity|].
  destruct (validate values) as [message|]; [|reflexivity].
  rewrite IH, filter_app. simpl. now rewrite app_nil_r.
Qed.

Lemma keeps_inputPrompt_text (label question : string)
    (validate : string -> option string) :
  keeps_puts (inputPrompt_text label question validate).
Proof.
  intros st. unfold inputPrompt_text.
  pose proof (read_text_puts validate (pending_text st)
                (trace st ++ [Prompt label question])) as H.
  destruct (read_text validate (pending_text st) _) as [[[value|] rest] shown];
    simpl in *; rewrite H, filter_app; simpl; rewrite app_nil_r;
    (split; [reflexivity | discriminate]).
Qed.

Lemma keeps_inputPrompt_multiselect (label question : string)
    (validate : list string -> option string) :
  keeps_puts (inputPrompt_multiselect label question validate).
Proof.
  intros st. unfold inputPrompt_multiselect.
  pose proof (read_choices_puts validate (pending_choices st)
                (trace st ++ [Prompt label question])) as H.
  destruct (read_choices validate (pending_choices st) _)
    as [[[values|] rest] shown];
    simpl in *; rewrite H, filter_app; simpl; rewrite app_nil_r;
    (split; [reflexivity | discriminate]).
Qed.

Lemma keeps_condition_of_input (conditionInput : string) :
  keeps_puts (condition_of_input conditionInput).
Proof.
  unfold condition_of_input.
  destruct (negb (isNaN (Number conditionInput))); [apply keeps_ret|].
  destruct (isValidDate conditionInput); [|apply keeps_stop; discriminate].
  destruct (Date_parse _); [apply keeps_ret | apply keeps_stop; discriminate].
Qed.

Lemma keeps_add_action (formatActionDescription : string -> string)
    (newRule : LifecycleRule) (action : string) :
  keeps_puts (add_action formatActionDescription newRule action).
Proof.
  unfold add_action. destruct (action =? "abort-multipart")%string.
  - apply keeps_bind; [apply keeps_inputPrompt_text | intros; apply keeps_ret].
  - apply keeps_bind; [apply keeps_inputPrompt_text | intros conditionInput].
    apply keeps_bind; [apply keeps_condition_of_input | intros c].
    destruct (action =? "expire")%string; [apply keeps_ret|].
    destruct (action =? "transition")%string; apply keeps_ret.
Qed.

Lemma keeps_add_actions (formatActionDescription : string -> string)
    (selectedActions : list string) :
  forall newRule,
    keeps_puts (add_actions formatActionDescription newRule selectedActions).
Proof.
  induction selectedActions as [|action rest IH]; intros newRule; simpl.
  - apply keeps_ret.
  - apply keeps_bind; [apply keeps_add_action | intros r; apply IH].
Qed.

Lemma identity_bind {A : Type} (r : LifecycleRule) (m : M A)
    (f : A -> M LifecycleRule) :
  (forall a, keeps_identity r (f a)) -> keeps_identity r (bind m f).
Proof.
  intros Hf st r' st'. unfold bind.
  destruct (m st) as [[a|o] st1]; [apply Hf | discriminate].
Qed.

Lemma identity_ret (r r' : LifecycleRule) :
  id r' = id r -> enabled r' = enabled r -> keeps_identity r (ret r').
Proof. intros Hi He st r0 st' [= <- _]. now split. Qed.

Lemma identity_add_action (formatActionDescription : string -> string)
    (newRule : LifecycleRule) (action : string) :
  keeps_identity newRule (add_action formatActionDescription newRule action).
Proof.
  unfold add_action. destruct (action =? "abort-multipart")%string.
  - apply identity_bind. intros conditionInput. now apply identity_ret.
  - apply identity_bind. intros conditionInput.
    apply identity_bind. intros c.
    destruct (action =? "expire")%string; [now apply identity_ret|].
    destruct (action =? "transition")%string; now apply identity_ret.
Qed.

Lemma identity_add_actions (formatActionDescription : string -> string)
    (selectedActions : list string) :
  forall newRule,
    keeps_identity newRule
      (add_actions formatActionDescription newRule selectedActions).
Proof.
  induction selectedActions as [|action rest IH]; intros newRule; simpl.
  - now apply identity_ret.
  - intros st r' st'. unfold bind.
    destruct (add_action formatActionDescription newRule action st)
      as [[r1|o] st1] eqn:E; [|discriminate].
    intros H. apply IH in H. apply identity_add_action in E.
    destruct H as [-> ->]. exact E.
Qed.

(** The answer a text prompt returns has passed its validator. *)
Lemma read_text_validated (validate : string -> option string)
    (inputs : list string) :
  forall shown value rest shown',
    read_text validate inputs shown = (Some value, rest, shown') ->
    validate value = None.
Proof.
  induction inputs as [|v r IH]; intros shown value rest shown' H; simpl in H;
    [discriminate|].
  destruct (validate v) as [message|] eqn:E.
  - exact (IH _ _ _ _ H).
  - now injection H as <- _ _.
Qed.

Lemma inputPrompt_text_validated (label question : string)
    (validate : string -> option string) (st st' : State) (value : string) :
  inputPrompt_text label question validate st = (inl value, st') ->
  validate value = None.
Proof.
  unfold inputPrompt_text.
  destruct (read_text validate (pending_text st) _) as [[[v|] rest] shown] eqn:E;
    [|discriminate].
  intros [= <- _]. exact (read_text_validated _ _ _ _ _ _ E).
Qed.

(* ----------------------------------------------------------------- *)
(** *** [AddHandler] *)

Lemma bind_inl {A B : Type} (m : M A) (f : A -> M B) (st : State) (a : A)
    (st1 : State) :
  m st = (inl a, st1) -> bind m f st = f a st1.
Proof. intros E. unfold bind. now rewrite E. Qed.

Lemma bind_inr {A B : Type} (m : M A) (f : A -> M B) (st : State) (o : Outcome)
    (st1 : State) :
  m st = (inr o, st1) -> bind m f st = (inr o, st1).
Proof. intros E. unfold bind. now rewrite E. Qed.

(** The body of [AddHandler] at a terminal, from any state: it ends with
    one write behind what was written before, or stops without a write. *)
Lemma AddHandler_body_result
    (formatActionDescription : string -> string)
    (accountId : string) (args : AddArgs) (w : World) (st : State) :
  isTTY w = true ->
  (exists rule st',
     AddHandler_body formatActionDescription accountId args w st = (inl tt, st') /\
     filter is_put (trace st')
     = filter is_put (trace st)
       ++ [PutLifecycleRules accountId (add_bucket args)
             (stored_rules w ++ [rule]) (add_jurisdiction args)] /\
     enabled rule = true /\
     match add_id args with
     | Some i => id rule = i
     | None => id rule <> EmptyString
     end)
  \/
  (exists o st',
     AddHandler_body formatActionDescription accountId args w st = (inr o, st') /\
     o <> Returned /\
     filter is_put (trace st') = filter is_put (trace st)).
Proof.
  intros Htty. unfold AddHandler_body. rewrite Htty. cbn [negb].
  assert (Hid : exists getId : M string,
            getId = match add_id args with
                    | Some i => ret i
                    | None =>
                        inputPrompt_text "id"
                          "Enter a unique identifier for the lifecycle rule"
                          validate_id
                    end /\ keeps_puts getId /\
            forall st ruleId st', getId st = (inl ruleId, st') ->
              match add_id args with
              | Some i => ruleId = i
              | None => ruleId <> EmptyString
              end).
  { eexists. split; [reflexivity|]. destruct (add_id args) as [i|]; split.
    - apply keeps_ret.
    - now intros st0 ruleId st' [= <- _].
    - apply keeps_inputPrompt_text.
    - intros st0 ruleId st' H. apply inputPrompt_text_validated in H.
      unfold validate_id in H.
      destruct ruleId; simpl in H; [discriminate H | discriminate]. }
  destruct Hid as (getId & <- & Hk0 & Hid).
  set (st0 := mkState (pending_text st) (pending_choices st)
                (trace st ++ [GetLifecycleRules accountId (add_bucket args)
                                (add_jurisdiction args)])).
  rewrite (bind_inl (emit (GetLifecycleRules accountId (add_bucket args)
                             (add_jurisdiction args))) _ st tt st0 eq_refl).
  assert (K : filter is_put (trace st0) = filter is_put (trace st)).
  { unfold st0. simpl. rewrite filter_app. simpl. now rewrite app_nil_r. }
  destruct (Hk0 st0) as [K0 R0]. rewrite K in K0. specialize (Hid st0).
  clearbody st0.
  destruct (getId st0) as [[ruleId|o] st1] eqn:E0; simpl in K0, R0;
    [rewrite (bind_inl _ _ _ _ _ E0)
    |rewrite (bind_inr _ _ _ _ _ E0); right; exists o, st1;
     split; [reflexivity | split; congruence]].
  specialize (Hid ruleId st1 eq_refl).
  destruct (keeps_inputPrompt_text "prefix"
              "Enter a prefix for the lifecycle rule (leave empty for all prefixes)"
              (fun _ => None) st1) as [K1 R1].
  destruct (inputPrompt_text "prefix" _ _ st1) as [[prefix'|o] st2] eqn:E1;
    simpl in K1, R1;
    [rewrite (bind_inl _ _ _ _ _ E1)
    |rewrite (bind_inr _ _ _ _ _ E1); right; exists o, st2;
     split; [reflexivity | split; congruence]].
  destruct (keeps_inputPrompt_multiselect "actions"
              "Select the actions to apply" validate_actions st2) as [K2 R2].
  destruct (inputPrompt_multiselect "actions" _ _ st2) as [[selected|o] st3] eqn:E2;
    simpl in K2, R2;
    [rewrite (bind_inl _ _ _ _ _ E2)
    |rewrite (bind_inr _ _ _ _ _ E2); right; exists o, st3;
     split; [reflexivity | split; congruence]].
  set (newRule := mkRule ruleId true _ None None None).
  destruct (keeps_add_actions formatActionDescription selected newRule st3)
    as [K3 R3].
  pose proof (identity_add_actions formatActionDescription selected newRule st3)
    as I3.
  destruct (add_actions formatActionDescription newRule selected st3)
    as [[newRule'|o] st4] eqn:E3; simpl in K3, R3;
    [rewrite (bind_inl _ _ _ _ _ E3)
    |rewrite (bind_inr _ _ _ _ _ E3); right; exists o, st4;
     split; [reflexivity | split; congruence]].
  destruct (I3 newRule' st4 eq_refl) as [Hi He].
  left. exists newRule'. eexists. split; [reflexivity|].
  cbn [trace emit]. rewrite !filter_app, K3, K2, K1, K0. simpl.
  rewrite !app_nil_r. split; [reflexivity|]. split; [exact He|].
  rewrite Hi. exact Hid.
Qed.

(** X18.  [AddHandler] asks for at most one write, and what it asks to
    write is the rules it fetched with one rule put behind them, whatever
    their ids are.  When it returns it has asked for that write, and the
    new rule is enabled and has the id of the command line, taken as it
    is, or else the id typed at the prompt, which is not empty.  When the
    terminal is not interactive it asks for no write. *)
Theorem add_appends_one_rule
    (formatActionDescription : string -> string)
    (accountId : string) (args : AddArgs) (w : World) :
  (fst (AddHandler formatActionDescription accountId args w) = Returned ->
   exists rule,
     filter is_put (snd (AddHandler formatActionDescription accountId args w))
     = [PutLifecycleRules accountId (add_bucket args)
          (stored_rules w ++ [rule]) (add_jurisdiction args)] /\
     enabled rule = true /\
     match add_id args with
     | Some i => id rule = i
     | None => id rule <> EmptyString
     end) /\
  (filter is_put (snd (AddHandler formatActionDescription accountId args w))
   = [] \/
   exists rule,
     filter is_put (snd (AddHandler formatActionDescription accountId args w))
     = [PutLifecycleRules accountId (add_bucket args)
          (stored_rules w ++ [rule]) (add_jurisdiction args)]) /\
  (isTTY w = false ->
   filter is_put (snd (AddHandler formatActionDescription accountId args w))
   = []).
Proof.
  unfold AddHandler, run.
  destruct (isTTY w) eqn:Htty.
  - destruct (AddHandler_body_result formatActionDescription accountId args w
                (mkState (typed w) (ticked w) []) Htty)
      as [(rule & st' & -> & Hput & He & Hi) | (o & st' & -> & Ho & Hput)];
      cbn [fst snd]; simpl in Hput.
    + split; [intros _; now exists rule|].
      split; [right; now exists rule | discriminate].
    + split; [intros H; contradiction|].
      split; [now left | discriminate].
  - unfold AddHandler_body. rewrite Htty. simpl.
    split; [discriminate|]. split; [now left | reflexivity].
Qed.

Lemma add_appends_one_rule_witness :
  exists rule,
    filter is_put
      (snd (AddHandler (fun action => action) "account"
              (mkAddArgs "bucket" None None)
              (mkWorld true [mkRule "old" true (mkConditions None) None None None]
                 [""; "new"; "logs/"; "x"; "30"] [[]; ["expire"]])))
    = [PutLifecycleRules "account" "bucket"
         ([mkRule "old" true (mkConditions None) None None None] ++ [rule]) None] /\
    enabled rule = true /\
    id rule <> EmptyString.
Proof.
  apply (proj1 (add_appends_one_rule (fun action => action) "account"
                  (mkAddArgs "bucket" None None)
                  (mkWorld true
                     [mkRule "old" true (mkConditions None) None None None]
                     [""; "new"; "logs/"; "x"; "30"] [[]; ["expire"]]))).
  reflexivity.
Defined.

(* ----------------------------------------------------------------- *)
(** *** [AddHandler] and [RemoveHandler] together *)

Lemma findIndex_first_match {A : Type} (p : A -> bool) (before after : list A)
    (x : A) :
  (forall r, In r before -> p r = false) -> p x = true ->
  findIndex p (before ++ x :: after) = Some (List.length before).
Proof.
  intros Hb Hx. induction before as [|b rest IH]; simpl.
  - now rewrite Hx.
  - rewrite (Hb b (or_introl eq_refl)), IH; [reflexivity|].
    intros r Hr. apply Hb. now right.
Qed.

(** X19.  Removing, by its id, the rule that [AddHandler] has just added
    writes back the rules the bucket held before, when none of them bears
    that id. *)
Theorem remove_undoes_add
    (formatActionDescription : string -> string)
    (accountId : string) (args : AddArgs) (w : World) :
  fst (AddHandler formatActionDescription accountId args w) = Returned ->
  exists rule,
    filter is_put (snd (AddHandler formatActionDescription accountId args w))
    = [PutLifecycleRules accountId (add_bucket args)
         (stored_rules w ++ [rule]) (add_jurisdiction args)] /\
    forall w',
      stored_rules w' = stored_rules w ++ [rule] ->
      ~ In (id rule) (map id (stored_rules w)) ->
      RemoveHandler accountId
        (mkRemoveArgs (add_bucket args) (id rule) (add_jurisdiction args)) w'
      = (Returned,
         [GetLifecycleRules accountId (add_bucket args) (add_jurisdiction args);
          Log ("Removing lifecycle rule '" ++ id rule ++ "' from bucket '"
               ++ add_bucket args ++ "'...");
          PutLifecycleRules accountId (add_bucket args) (stored_rules w)
            (add_jurisdiction args);
          Log ("Lifcycle rule '" ++ id rule ++ "' removed from bucket '"
               ++ add_bucket args ++ "'.")]).
Proof.
  unfold AddHandler, run.
  destruct (isTTY w) eqn:Htty;
    [|unfold AddHandler_body; rewrite Htty; discriminate].
  destruct (AddHandler_body_result formatActionDescription accountId args w
              (mkState (typed w) (ticked w) []) Htty)
    as [(rule & st' & -> & Hput & _) | (o & st' & -> & Ho & _)];
    cbn [fst snd]; [|intros H; contradiction].
  intros _. exists rule. split; [exact Hput|].
  intros w' Hw' Hfresh. unfold RemoveHandler. cbn [remove_id remove_bucket
    remove_jurisdiction]. rewrite Hw'.
  rewrite (findIndex_first_match _ (stored_rules w) [] rule).
  - rewrite LifecycleFacts.splice_one_split, app_nil_r. reflexivity.
  - intros r Hr. apply String.eqb_neq. intros E. apply Hfresh.
    rewrite <- E. now apply in_map.
  - apply String.eqb_refl.
Qed.

Lemma remove_undoes_add_witness :
  exists rule,
    filter is_put
      (snd (AddHandler (fun action => action) "account"
              (mkAddArgs "bucket" (Some "new") None)
              (mkWorld true [mkRule "old" true (mkConditions None) None None None]
                 ["logs/"; "30"] [["expire"]])))
    = [PutLifecycleRules "account" "bucket"
         (stored_rules
            (mkWorld true [mkRule "old" true (mkConditions None) None None None]
               ["logs/"; "30"] [["expire"]]) ++ [rule])
         None] /\
    forall w',
      stored_rules w'
      = stored_rules
          (mkWorld true [mkRule "old" true (mkConditions None) None None None]
             ["logs/"; "30"] [["expire"]]) ++ [rule] ->
      ~ In (id rule)
          (map id
             (stored_rules
                (mkWorld true
                   [mkRule "old" true (mkConditions None) None None None]
                   ["logs/"; "30"] [["expire"]]))) ->
      RemoveHandler "account" (mkRemoveArgs "bucket" (id rule) None) w'
      = (Returned,
         [GetLifecycleRules "account" "bucket" None;
          Log ("Removing lifecycle rule '" ++ id rule ++ "' from bucket '"
               ++ "bucket" ++ "'...");
          PutLifecycleRules "account" "bucket"
            (stored_rules
               (mkWorld true
                  [mkRule "old" true (mkConditions None) None None None]
                  ["logs/"; "30"] [["expire"]]))
            None;
          Log ("Lifcycle rule '" ++ id rule ++ "' removed from bucket '"
               ++ "bucket" ++ "'.")]).
Proof.
  apply (remove_undoes_add (fun action => action) "account"
           (mkAddArgs "bucket" (Some "new") None)
           (mkWorld true [mkRule "old" true (mkConditions None) None None None]
              ["logs/"; "30"] [["expire"]])).
  reflexivity.
Defined.

(* ----------------------------------------------------------------- *)
(** *** The answers to the condition prompts *)

Lemma Qred_inject_Z (z : Z) : Qred (inject_Z z) = inject_Z z.
Proof.
  unfold Qred, inject_Z. cbn [Qnum Qden].
  pose proof (Z.ggcd_gcd z 1) as Hg.
  pose proof (Z.ggcd_correct_divisors z 1) as Hd.
  destruct (Z.ggcd z 1) as [g [aa bb]]. cbn [fst snd] in *.
  rewrite Z.gcd_1_r in Hg. subst g. destruct Hd as [Ha Hb].
  rewrite Z.mul_1_l in Ha, Hb. now subst.
Qed.

(** A string of digits, not empty, converts to the number it denotes. *)
Lemma Number_digits (s : string) :
  s <> EmptyString -> all_digits s = true ->
  Number s = Finite (inject_Z (decimal s)).
Proof.
  intros Hne H. unfold Number. rewrite (LifecycleFacts.trim_digits _ H).
  destruct (String.eqb_spec s "") as [-> | _]; [contradiction|].
  unfold after_either.
  rewrite !(LifecycleFacts.after_prefix_two_digits _ _ _ H) by reflexivity.
  rewrite !(LifecycleFacts.after_prefix_one_digit _ _ H) by reflexivity.
  unfold StrUnsignedDecimalLiteral.
  assert (Hinf : (s =? "Infinity")%string = false).
  { destruct s as [|c r]; [reflexivity|]. simpl in H.
    destruct (digit_in 10 c) as [d|] eqn:E; [|discriminate].
    simpl. rewrite Ascii.eqb_sym.
    now rewrite (LifecycleFacts.digit_differs c "I" d E eq_refl). }
  rewrite Hinf. unfold decimal.
  destruct (LifecycleFacts.take_all_digits s 0 0%nat H) as [v Hv]. rewrite Hv.
  cbn [fst]. cbn [Nat.add].
  destruct s as [|c r]; [contradiction|].
  cbn [String.length Nat.eqb exponent_part Nat.add]. unfold scale.
  change (Z.of_nat 0) with 0. change (0 - 0) with 0. change (0 <=? 0) with true.
  cbn iota. rewrite Z.pow_0_r. do 2 f_equal. lia.
Qed.


(** The decimal writing of a natural number, read back digit by digit. *)
Lemma take_digits_uint (d : Decimal.uint) :
  forall acc z count,
    z = Z.of_nat acc ->
    fst (fst (take_digits 10 (NilEmpty.string_of_uint d) z count))
    = Z.of_nat (Nat.of_uint_acc d acc).
Proof.
  induction d; intros acc z count Hz;
    cbn [NilEmpty.string_of_uint take_digits]; [exact Hz | ..];
    (match goal with
     | |- context [digit_in 10 ?c] =>
         change (digit_in 10 c) with (Some (Z.of_nat (nat_of_ascii c) - 48))
     end;
     cbn [Nat.of_uint_acc]; apply IHd;
     rewrite ?Nat2Z.inj_succ, Nat.tail_mul_spec, Nat2Z.inj_mul;
     match goal with
     | |- context [Z.of_nat (nat_of_ascii ?c)] =>
         let k := eval compute in (Z.of_nat (nat_of_ascii c)) in
         change (Z.of_nat (nat_of_ascii c)) with k
     end; lia).
Qed.

Lemma decimal_uint (d : Decimal.uint) :
  decimal (NilZero.string_of_uint d) = Z.of_nat (Nat.of_uint d).
Proof.
  unfold decimal, Nat.of_uint.
  destruct d; [reflexivity | ..];
    exact (take_digits_uint _ 0%nat 0 0%nat eq_refl).
Qed.

Lemma all_digits_uint (d : Decimal.uint) :
  all_digits (NilZero.string_of_uint d) = true.
Proof.
  assert (forall d', all_digits (NilEmpty.string_of_uint d') = true) as H.
  { induction d'; simpl; auto. }
  destruct d; [reflexivity | ..]; apply H.
Qed.

Lemma uint_not_empty (d : Decimal.uint) :
  NilZero.string_of_uint d <> EmptyString.
Proof. destruct d; discriminate. Qed.

(** X20.  A whole number of days, written in decimal digits, passes both
    condition prompts and becomes that number of days in seconds, the
    number times 86400, in a condition of the type [Age], as long as the
    seconds are at most [2 ^ 53]: up to there a whole number is a number
    of the program, and the product is exact. *)
Theorem days_become_seconds (n : nat) :
  Z.of_nat n * 86400 <= 2 ^ 53 ->
  let answer := NilZero.string_of_uint (Nat.to_uint n) in
  validate_days answer = None /\
  validate_days_or_date answer = None /\
  times (Number answer) 86400 = Finite (inject_Z (Z.of_nat n * 86400)) /\
  forall st,
    condition_of_input answer st
    = (inl (mkCondition (Some (Finite (inject_Z (Z.of_nat n * 86400)))) None Age),
       st).
Proof.
  intros _ answer.
  assert (HN : Number answer = Finite (inject_Z (Z.of_nat n))).
  { unfold answer.
    rewrite (Number_digits _ (uint_not_empty _) (all_digits_uint _)).
    now rewrite decimal_uint, DecimalNat.Unsigned.of_to. }
  assert (HT : times (Number answer) 86400
               = Finite (inject_Z (Z.of_nat n * 86400))).
  { rewrite HN. unfold times.
    change (inject_Z (Z.of_nat n) * inject_Z 86400)%Q
      with (inject_Z (Z.of_nat n * 86400)).
    now rewrite Qred_inject_Z. }
  unfold validate_days, validate_days_or_date, condition_of_input.
  rewrite HT, HN. simpl. auto.
Qed.

Lemma days_become_seconds_witness :
  validate_days "30" = None /\
  validate_days_or_date "30" = None /\
  times (Number "30") 86400 = Finite (inject_Z 2592000) /\
  forall st,
    condition_of_input "30" st
    = (inl (mkCondition (Some (Finite (inject_Z 2592000))) None Age), st).
Proof.
  apply (days_become_seconds 30). vm_compute. discriminate.
Defined.

(** Stopped by a text prompt, a handler is waiting for input. *)
Lemma inputPrompt_text_stops (label question : string)
    (validate : string -> option string) (st st' : State) (o : Outcome) :
  inputPrompt_text label question validate st = (inr o, st') ->
  o = Awaiting_input.
Proof.
  unfold inputPrompt_text.
  destruct (read_text validate (pending_text st) _) as [[[v|] rest] shown];
    [discriminate | now intros [= <- _]].
Qed.

(** X21.  The error "Invalid condition input." is never raised: the
    prompt hands on only an answer that its validator has accepted, so one
    of the two tests before the [throw] holds. *)
Theorem invalid_condition_input_unreachable
    (formatActionDescription : string -> string)
    (newRule : LifecycleRule) (action : string) (st : State) (message : string) :
  fst (add_action formatActionDescription newRule action st)
  <> inr (Threw_UserError message).
Proof.
  unfold add_action. destruct (action =? "abort-multipart")%string.
  - match goal with
    | |- context [inputPrompt_text ?l ?q ?v] =>
        destruct (inputPrompt_text l q v st) as [[v'|o] st1] eqn:E
    end.
    + rewrite (bind_inl _ _ _ _ _ E). discriminate.
    + rewrite (bind_inr _ _ _ _ _ E). apply inputPrompt_text_stops in E.
      subst o. discriminate.
  - match goal with
    | |- context [inputPrompt_text ?l ?q ?v] =>
        destruct (inputPrompt_text l q v st) as [[v'|o] st1] eqn:E
    end.
    + rewrite (bind_inl _ _ _ _ _ E).
      apply inputPrompt_text_validated in E.
      unfold validate_days_or_date in E.
      destruct (condition_of_input v' st1) as [[c|o] st2] eqn:Ec.
      * rewrite (bind_inl _ _ _ _ _ Ec).
        destruct (action =? "expire")%string; [discriminate|].
        destruct (action =? "transition")%string; discriminate.
      * rewrite (bind_inr _ _ _ _ _ Ec). cbn [fst].
        unfold condition_of_input in Ec.
        destruct (isNaN (Number v')); cbn [negb andb] in *; [|discriminate].
        destruct (isValidDate v'); cbn [negb] in *; [|discriminate].
        destruct (Date_parse _); [discriminate|].
        injection Ec as <- _. discriminate.
    + rewrite (bind_inr _ _ _ _ _ E). apply inputPrompt_text_stops in E.
      subst o. discriminate.
Qed.

End LifecycleMore.

(* ================================================================= *)
(** ** Facts about [SetHandler] *)

Module LifecycleSetFacts.
Import Js LifecycleSet.

Lemma rules_array (rules : JsVal) :
  negb (truthy rules) || negb (isArray rules) = false ->
  rules = JArr (elements rules).
Proof. destruct rules; simpl; try discriminate; try reflexivity.
  - destruct b; discriminate.
  - destruct (negb (n =? 0)%Z); discriminate.
  - destruct (negb (s =? "")%string); discriminate.
Qed.

(** X22.  [SetHandler] asks for a write exactly when the file parses to a
    value whose [rules] are an array and the overwrite is forced or
    confirmed; it then asks once, for the elements of that array as they
    are in the file, and returns when the write is accepted; when the
    write is rejected the handler ends with that rejection. *)
Theorem set_writes_the_rules_of_the_file
    (accountId : string) (args : SetArgs) (w : World) :
  (forall lifecyclePolicy items,
     policy_file w = inr lifecyclePolicy ->
     property_rules lifecyclePolicy = Some (JArr items) ->
     force args = true \/ confirmed w = true ->
     filter is_set_put (snd (SetHandler accountId args w))
     = [PutLifecycleRules accountId (set_bucket args) items
          (set_jurisdiction args)] /\
     fst (SetHandler accountId args w)
     = match put_rejection w with
       | Some error => Rejected error
       | None => Returned
       end) /\
  (filter is_set_put (snd (SetHandler accountId args w)) <> [] ->
   exists lifecyclePolicy items,
     policy_file w = inr lifecyclePolicy /\
     property_rules lifecyclePolicy = Some (JArr items) /\
     (force args = true \/ confirmed w = true)).
Proof.
  unfold SetHandler, put_policy. split.
  - intros lifecyclePolicy items Hf Hr Hyes. rewrite Hf, Hr. simpl.
    destruct (force args); simpl.
    + destruct (put_rejection w); auto.
    + destruct Hyes as [Hyes | Hyes]; [discriminate|]. rewrite Hyes. simpl.
      destruct (put_rejection w); auto.
  - destruct (policy_file w) as [[message|] | lifecyclePolicy];
      try (intros H; now contradiction H).
    destruct (property_rules lifecyclePolicy) as [rules|] eqn:Er;
      [|intros H; now contradiction H].
    destruct (negb (truthy rules) || negb (isArray rules)) eqn:E;
      [intros H; now contradiction H|].
    intros H. exists lifecyclePolicy, (elements rules).
    split; [reflexivity|]. split; [rewrite Er; f_equal; exact (rules_array _ E)|].
    destruct (force args); [now left|].
    destruct (confirmed w); [now right|]. simpl in H. now contradiction H.
Qed.

Lemma set_writes_the_rules_of_the_file_witness :
  filter is_set_put
    (snd (SetHandler "account" (mkSetArgs "bucket" "policy.json" None false)
            (mkWorld (inr two_rules) true (Some "10006"))))
  = [PutLifecycleRules "account" "bucket"
       [JObj [("id", JStr "a"); ("enabled", JBool true)];
        JObj [("id", JStr "b"); ("enabled", JBool false)]]
       None] /\
  fst (SetHandler "account" (mkSetArgs "bucket" "policy.json" None false)
         (mkWorld (inr two_rules) true (Some "10006")))
  = Rejected "10006".
Proof.
  apply (proj1 (set_writes_the_rules_of_the_file "account"
                  (mkSetArgs "bucket" "policy.json" None false)
                  (mkWorld (inr two_rules) true (Some "10006")))
           two_rules
           [JObj [("id", JStr "a"); ("enabled", JBool true)];
            JObj [("id", JStr "b"); ("enabled", JBool false)]]).
  - reflexivity.
  - reflexivity.
  - right. reflexivity.
Defined.



(** X24.  With the force flag [SetHandler] asks nothing; without it, and
    with a file that passes the checks, it asks once, and a refusal ends
    the command with the message that the set was cancelled and without a
    write. *)
Theorem set_asks_unless_forced
    (accountId : string) (args : SetArgs) (w : World) :
  (force args = true ->
   existsb is_set_confirm (snd (SetHandler accountId args w)) = false) /\
  (force args = false -> confirmed w = false ->
   forall lifecyclePolicy items,
     policy_file w = inr lifecyclePolicy ->
     property_rules lifecyclePolicy = Some (JArr items) ->
     SetHandler accountId args w
     = (Returned,
        [ReadFile (set_file args);
         Confirm (overwrite_question (set_bucket args));
         Log "Set cancelled."])).
Proof.
  unfold SetHandler. split.
  - intros Hforce. rewrite Hforce.
    destruct (policy_file w) as [[message|] | lifecyclePolicy];
      try reflexivity.
    destruct (property_rules lifecyclePolicy) as [rules|]; [|reflexivity].
    destruct (negb (truthy rules) || negb (isArray rules)); [reflexivity|].
    unfold put_policy. simpl. destruct (put_rejection w); reflexivity.
  - intros Hforce Hno lifecyclePolicy items Hf Hr.
    rewrite Hf, Hr, Hforce, Hno. reflexivity.
Qed.

Lemma set_asks_unless_forced_witness :
  existsb is_set_confirm
    (snd (SetHandler "account" (mkSetArgs "bucket" "policy.json" None true)
            (mkWorld (inr two_rules) false None))) = false.
Proof.
  apply (proj1 (set_asks_unless_forced "account"
                  (mkSetArgs "bucket" "policy.json" None true)
                  (mkWorld (inr two_rules) false None))).
  reflexivity.
Defined.

End LifecycleSetFacts.

(* ================================================================= *)
(** ** Dates of the condition prompt *)

Module DateFacts.
Import Js Lifecycle LifecycleNotions.
Local Open Scope Z_scope.

(* ----------------------------------------------------------------- *)
(** *** The calendar *)

Lemma upto_spec (n : nat) (p : Z -> bool) :
  upto n p = true -> forall k, 0 <= k < Z.of_nat n -> p k = true.
Proof.
  induction n as [|n IH]; intros H k Hk; [lia|].
  simpl in H. apply andb_prop in H. destruct H as [Hn Hrest].
  destruct (Z.eq_dec k (Z.of_nat n)) as [-> | Hne]; [exact Hn|].
  apply IH; [exact Hrest | lia].
Qed.

(** The days of the four hundred years from 0 on, one by one. *)
Lemma cycle_checked :
  upto 400 (fun y => upto 13 (fun m => upto 32 (fun d => round_trips y m d)))
  = true.
Proof. vm_compute. reflexivity. Qed.

Lemma days_from_civil_shift (y m d k : Z) :
  days_from_civil (y + 400 * k) m d = days_from_civil y m d + 146097 * k.
Proof.
  unfold days_from_civil.
  assert (E : (if m <=? 2 then y + 400 * k - 1 else y + 400 * k)
              = (if m <=? 2 then y - 1 else y) + k * 400)
    by (destruct (m <=? 2); lia).
  rewrite E. set (y' := if m <=? 2 then y - 1 else y).
  rewrite Z.div_add by lia. cbv zeta.
  replace (y' + k * 400 - (y' / 400 + k) * 400) with (y' - y' / 400 * 400)
    by lia.
  lia.
Qed.

Lemma civil_from_days_shift (z k : Z) :
  civil_from_days (z + 146097 * k)
  = (let '(y, m, d) := civil_from_days z in (y + 400 * k, m, d)).
Proof.
  unfold civil_from_days.
  replace (z + 146097 * k + 719468) with (z + 719468 + k * 146097) by lia.
  rewrite Z.div_add by lia.
  set (era := (z + 719468) / 146097).
  replace (z + 719468 + k * 146097 - (era + k) * 146097)
    with (z + 719468 - era * 146097) by lia.
  cbv zeta.
  set (doe := z + 719468 - era * 146097).
  set (yoe := (doe - doe / 1460 + doe / 36524 - doe / 146096) / 365).
  set (doy := doe - (365 * yoe + yoe / 4 - yoe / 100)).
  set (mp := (5 * doy + 2) / 153).
  destruct (mp <? 10); destruct (_ <=? 2); f_equal; f_equal; lia.
Qed.

Lemma is_leap_year_shift (y k : Z) :
  is_leap_year (y + 400 * k) = is_leap_year y.
Proof.
  unfold is_leap_year.
  replace (y + 400 * k) with (y + (100 * k) * 4) at 1 by lia.
  replace (y + 400 * k) with (y + (4 * k) * 100) at 1 by lia.
  replace (y + 400 * k) with (y + k * 400) by lia.
  now rewrite !Z.mod_add by lia.
Qed.

Lemma valid_day_shift (y m d k : Z) :
  valid_day (y + 400 * k) m d = valid_day y m d.
Proof. unfold valid_day, days_in_month. now rewrite is_leap_year_shift. Qed.

Lemma valid_day_bounds (y m d : Z) :
  valid_day y m d = true -> 1 <= m <= 12 /\ 1 <= d <= 31.
Proof.
  unfold valid_day, days_in_month. intros H.
  apply andb_prop in H. destruct H as [H H4].
  apply andb_prop in H. destruct H as [H H3].
  apply andb_prop in H. destruct H as [H1 H2].
  apply Z.leb_le in H1, H2, H3, H4.
  destruct (m =? 2); [destruct (is_leap_year y); lia|].
  destruct ((m =? 4) || (m =? 6) || (m =? 9) || (m =? 11)); lia.
Qed.

(** The day number of a day of the calendar gives the day back. *)
Lemma civil_round_trip (y m d : Z) :
  valid_day y m d = true ->
  civil_from_days (days_from_civil y m d) = (y, m, d).
Proof.
  intros Hv.
  pose proof (Z.div_mod y 400 ltac:(lia)) as Hy.
  pose proof (Z.mod_pos_bound y 400 ltac:(lia)) as Hm.
  set (y0 := y mod 400) in *. set (k := y / 400) in *.
  assert (Ey : y = y0 + 400 * k) by lia. clearbody y0 k. clear Hy. subst y.
  rewrite valid_day_shift in Hv.
  destruct (valid_day_bounds _ _ _ Hv) as [Hmb Hdb].
  pose proof cycle_checked as H.
  assert (B400 : Z.of_nat 400 = 400) by reflexivity.
  assert (B13 : Z.of_nat 13 = 13) by reflexivity.
  assert (B32 : Z.of_nat 32 = 32) by reflexivity.
  pose proof (upto_spec _ _ H y0 ltac:(lia)) as H1. cbv beta in H1.
  pose proof (upto_spec _ _ H1 m ltac:(lia)) as H2. cbv beta in H2.
  pose proof (upto_spec _ _ H2 d ltac:(lia)) as H3. cbv beta in H3.
  clear H H1 H2.
  unfold round_trips in H3. rewrite Hv in H3. cbn [negb orb] in H3.
  rewrite days_from_civil_shift, civil_from_days_shift.
  destruct (civil_from_days (days_from_civil y0 m d)) as [[y' m'] d'].
  apply andb_prop in H3. destruct H3 as [H3 Hd'].
  apply andb_prop in H3. destruct H3 as [Hy' Hm'].
  apply Z.eqb_eq in Hy', Hm', Hd'. subst y' m' d'. reflexivity.
Qed.

(* ----------------------------------------------------------------- *)
(** *** Digits read and digits written *)

Lemma digit_value (c : ascii) (n : Z) :
  digit_in 10 c = Some n ->
  0 <= n <= 9 /\ c = ascii_of_nat (48 + Z.to_nat n).
Proof.
  intros H. pose proof (LifecycleFacts.digit_code _ _ H) as Hc.
  unfold digit_in in H.
  assert (E : (48 <=? Z.of_nat (nat_of_ascii c))
              && (Z.of_nat (nat_of_ascii c) <=? 57) = true).
  { apply andb_true_intro. split; apply Z.leb_le; lia. }
  rewrite E in H.
  destruct (Z.of_nat (nat_of_ascii c) - 48 <? 10); [|discriminate].
  injection H as <-. split; [lia|].
  replace (48 + Z.to_nat (Z.of_nat (nat_of_ascii c) - 48))%nat
    with (nat_of_ascii c) by lia.
  now rewrite ascii_nat_embedding.
Qed.

Lemma append_assoc (a b c : string) : ((a ++ b) ++ c = a ++ (b ++ c))%string.
Proof. induction a as [|x a IH]; simpl; [reflexivity | now rewrite IH]. Qed.

(** A digit put before a number of [n] digits is written first. *)
Lemma pad_leading (n : nat) :
  forall x k,
    0 <= x < 10 ^ Z.of_nat n -> 0 <= k <= 9 ->
    pad (S n) (k * 10 ^ Z.of_nat n + x)
    = String (ascii_of_nat (48 + Z.to_nat k)) (pad n x).
Proof.
  induction n as [|n IH]; intros x k Hx Hk.
  - change (10 ^ Z.of_nat 0) with 1 in *. assert (x = 0) as -> by lia.
    cbn [pad]. replace (k * 1 + 0) with k by lia.
    rewrite Z.mod_small by lia. reflexivity.
  - assert (Hp : 10 ^ Z.of_nat (S n) = 10 ^ Z.of_nat n * 10).
    { rewrite Nat2Z.inj_succ, Z.pow_succ_r by lia. lia. }
    rewrite Hp in *.
    change (pad (S (S n)) (k * (10 ^ Z.of_nat n * 10) + x))
      with ((pad (S n) ((k * (10 ^ Z.of_nat n * 10) + x) / 10)
             ++ String (ascii_of_nat
                          (48 + Z.to_nat ((k * (10 ^ Z.of_nat n * 10) + x) mod 10)))
                  EmptyString)%string).
    replace (k * (10 ^ Z.of_nat n * 10) + x)
      with (x + (k * 10 ^ Z.of_nat n) * 10) by lia.
    rewrite Z.div_add, Z.mod_add by lia.
    replace (x / 10 + k * 10 ^ Z.of_nat n) with (k * 10 ^ Z.of_nat n + x / 10)
      by lia.
    rewrite IH; [reflexivity | | exact Hk].
    split; [apply Z.div_pos; lia | apply Z.div_lt_upper_bound; lia].
Qed.

(** What [fixed_digits] reads is what [pad] writes. *)
Lemma fixed_digits_pad (n : nat) :
  forall s acc v rest,
    fixed_digits n s acc = Some (v, rest) ->
    exists x,
      0 <= x < 10 ^ Z.of_nat n /\
      v = acc * 10 ^ Z.of_nat n + x /\
      s = (pad n x ++ rest)%string.
Proof.
  induction n as [|n IH]; intros s acc v rest H.
  - simpl in H. injection H as <- <-. exists 0. simpl. split; [lia|].
    split; [lia | reflexivity].
  - cbn [fixed_digits] in H. destruct s as [|c s']; [discriminate|].
    destruct (digit_in 10 c) as [k|] eqn:Ek; [|discriminate].
    destruct (digit_value _ _ Ek) as [Hk Hc].
    destruct (IH _ _ _ _ H) as (x & Hx & Hv & Hs).
    assert (Hp : 10 ^ Z.of_nat (S n) = 10 ^ Z.of_nat n * 10).
    { rewrite Nat2Z.inj_succ, Z.pow_succ_r by lia. lia. }
    exists (k * 10 ^ Z.of_nat n + x). split; [nia|]. split; [nia|].
    rewrite (pad_leading n x k Hx Hk), <- Hc, Hs. reflexivity.
Qed.

Lemma fixed_digits_app (n : nat) (t : string) :
  forall s acc v rest,
    fixed_digits n s acc = Some (v, rest) ->
    fixed_digits n (s ++ t) acc = Some (v, (rest ++ t)%string).
Proof.
  induction n as [|n IH]; intros s acc v rest H; simpl in *.
  - now injection H as <- <-.
  - destruct s as [|c s']; [discriminate|]. simpl.
    destruct (digit_in 10 c); [now apply IH | discriminate].
Qed.

Lemma expect_app (c : ascii) (s rest t : string) :
  expect c s = Some rest -> expect c (s ++ t) = Some (rest ++ t)%string.
Proof.
  destruct s as [|c' s']; simpl; [discriminate|].
  destruct (Ascii.eqb c c'); [now intros [= <-] | discriminate].
Qed.

Lemma expect_inv (c : ascii) (s rest : string) :
  expect c s = Some rest -> s = String c rest.
Proof.
  destruct s as [|c' s']; simpl; [discriminate|].
  destruct (Ascii.eqb_spec c c') as [-> | _]; [now intros [= <-] | discriminate].
Qed.

(** The parts of a string that [date_fields] accepts. *)
Lemma date_fields_inv (s : string) (y m d : Z) (rest : string) :
  date_fields s = Some (y, m, d, rest) ->
  exists s1 s2 s3 s4,
    fixed_digits 4 s 0 = Some (y, s1) /\ expect "-" s1 = Some s2 /\
    fixed_digits 2 s2 0 = Some (m, s3) /\ expect "-" s3 = Some s4 /\
    fixed_digits 2 s4 0 = Some (d, rest).
Proof.
  unfold date_fields, bind_opt.
  destruct (fixed_digits 4 s 0) as [[y' s1]|] eqn:E1; [|discriminate].
  destruct (expect "-" s1) as [s2|] eqn:E2; [|discriminate].
  destruct (fixed_digits 2 s2 0) as [[m' s3]|] eqn:E3; [|discriminate].
  destruct (expect "-" s3) as [s4|] eqn:E4; [|discriminate].
  destruct (fixed_digits 2 s4 0) as [[d' s5]|] eqn:E5; [|discriminate].
  intros [= <- <- <- <-]. exists s1, s2, s3, s4. auto.
Qed.

Lemma date_fields_app (s t : string) (y m d : Z) (rest : string) :
  date_fields s = Some (y, m, d, rest) ->
  date_fields (s ++ t) = Some (y, m, d, (rest ++ t)%string).
Proof.
  intros H.
  destruct (date_fields_inv _ _ _ _ _ H) as (s1 & s2 & s3 & s4 & H1 & H2 & H3 & H4 & H5).
  unfold date_fields, bind_opt.
  rewrite (fixed_digits_app _ t _ _ _ _ H1), (expect_app _ _ _ t H2),
    (fixed_digits_app _ t _ _ _ _ H3), (expect_app _ _ _ t H4),
    (fixed_digits_app _ t _ _ _ _ H5).
  reflexivity.
Qed.

Lemma date_fields_written (s : string) (y m d : Z) (rest : string) :
  date_fields s = Some (y, m, d, rest) ->
  s = (pad 4 y ++ "-" ++ pad 2 m ++ "-" ++ pad 2 d ++ rest)%string.
Proof.
  intros H.
  destruct (date_fields_inv _ _ _ _ _ H) as (s1 & s2 & s3 & s4 & H1 & H2 & H3 & H4 & H5).
  destruct (fixed_digits_pad _ _ _ _ _ H1) as (x1 & _ & -> & ->).
  destruct (fixed_digits_pad _ _ _ _ _ H3) as (x2 & _ & -> & ->).
  destruct (fixed_digits_pad _ _ _ _ _ H5) as (x3 & _ & -> & ->).
  apply expect_inv in H2, H4. subst s1 s3.
  rewrite !Z.mul_0_l, !Z.add_0_l. reflexivity.
Qed.

(** The time value of a date of the calendar at midnight, and its
    writing. *)
Lemma midnight_round_trip (s : string) (y m d : Z) :
  date_fields s = Some (y, m, d, EmptyString) ->
  valid_day y m d = true ->
  option_map toISOString (Date_parse (s ++ midnight))
  = Some (s ++ midnight)%string.
Proof.
  intros Hf Hv. unfold Date_parse.
  rewrite (date_fields_app _ midnight _ _ _ _ Hf).
  change (EmptyString ++ midnight)%string with midnight.
  cbn [bind_opt].
  change (expect "T" midnight) with (Some "00:00:00.000Z"%string).
  cbn [bind_opt].
  change (fixed_digits 2 "00:00:00.000Z" 0) with (Some (0, ":00:00.000Z"%string)).
  cbn [bind_opt].
  change (expect ":" ":00:00.000Z") with (Some "00:00.000Z"%string).
  cbn [bind_opt].
  change (fixed_digits 2 "00:00.000Z" 0) with (Some (0, ":00.000Z"%string)).
  cbn [bind_opt].
  change (expect ":" ":00.000Z") with (Some "00.000Z"%string).
  cbn [bind_opt].
  change (fixed_digits 2 "00.000Z" 0) with (Some (0, ".000Z"%string)).
  cbn [bind_opt].
  change (expect "." ".000Z") with (Some "000Z"%string).
  cbn [bind_opt].
  change (fixed_digits 3 "000Z" 0) with (Some (0, "Z"%string)).
  cbn [bind_opt].
  rewrite Hv.
  change (0 <? 24) with true. change (0 <? 60) with true.
  change ("Z" =? "Z")%string with true.
  cbn [andb option_map]. f_equal. unfold toISOString.
  replace ((((days_from_civil y m d * 24 + 0) * 60 + 0) * 60 + 0) * 1000 + 0)
    with (days_from_civil y m d * 86400000) by lia.
  rewrite Z.div_mul, Z.mod_mul by lia.
  rewrite (civil_round_trip _ _ _ Hv).
  rewrite (date_fields_written _ _ _ _ _ Hf).
  change (pad 2 (0 / 3600000)) with "00"%string.
  change (pad 2 (0 / 60000 mod 60)) with "00"%string.
  change (pad 2 (0 / 1000 mod 60)) with "00"%string.
  change (pad 3 (0 mod 1000)) with "000"%string.
  rewrite !append_assoc. reflexivity.
Qed.

(* ----------------------------------------------------------------- *)
(** *** A date is no number *)

Lemma fixed_digits_chars (n : nat) :
  forall s acc v rest,
    fixed_digits n s acc = Some (v, rest) ->
    exists ds,
      s = (ds ++ rest)%string /\ String.length ds = n /\ all_digits ds = true.
Proof.
  induction n as [|n IH]; intros s acc v rest H; simpl in H.
  - injection H as _ <-. now exists EmptyString.
  - destruct s as [|c s']; [discriminate|].
    destruct (digit_in 10 c) as [k|] eqn:Ek; [|discriminate].
    destruct (IH _ _ _ _ H) as (ds & -> & Hlen & Hall).
    exists (String c ds). simpl. rewrite Ek, Hlen. auto.
Qed.

Lemma trimEnd_last (s : string) (c : ascii) :
  is_white_space c = false ->
  trimEnd (s ++ String c EmptyString) = (s ++ String c EmptyString)%string.
Proof.
  intros Hc. induction s as [|a s IH]; simpl; [now rewrite Hc|].
  rewrite IH. now destruct s.
Qed.

Lemma date_is_no_number (s : string) (y m d : Z) :
  date_fields s = Some (y, m, d, EmptyString) -> isNaN (Number s) = true.
Proof.
  intros H.
  destruct (date_fields_inv _ _ _ _ _ H)
    as (s1 & s2 & s3 & s4 & H1 & H2 & H3 & H4 & H5).
  destruct (fixed_digits_chars _ _ _ _ _ H1) as (ds1 & -> & L1 & A1).
  destruct (fixed_digits_chars _ _ _ _ _ H3) as (ds2 & -> & L2 & A2).
  destruct (fixed_digits_chars _ _ _ _ _ H5) as (ds3 & -> & L3 & A3).
  apply expect_inv in H2, H4. subst s1 s3. clear H H1 H3 H5.
  destruct ds1 as [|c1 [|c2 [|c3 [|c4 [|]]]]]; try discriminate L1.
  destruct ds2 as [|c5 [|c6 [|]]]; try discriminate L2.
  destruct ds3 as [|c7 [|c8 [|]]]; try discriminate L3.
  clear L1 L2 L3. simpl in A1, A2, A3.
  destruct (digit_in 10 c1) as [k1|] eqn:D1; [|discriminate].
  destruct (digit_in 10 c2) as [k2|] eqn:D2; [|discriminate].
  destruct (digit_in 10 c3) as [k3|] eqn:D3; [|discriminate].
  destruct (digit_in 10 c4) as [k4|] eqn:D4; [|discriminate].
  destruct (digit_in 10 c8) as [k8|] eqn:D8;
    [|destruct (digit_in 10 c7); discriminate].
  clear A1 A2 A3.
  cbn [append].
  set (back := String c2 (String c3 (String c4
                 (String "-" (String c5 (String c6
                    (String "-" (String c7 (String c8 EmptyString))))))))).
  assert (Htrim : trim (String c1 back) = String c1 back).
  { unfold trim. cbn [trimStart].
    rewrite (LifecycleFacts.digit_not_white_space _ _ D1).
    change (String c1 back)
      with (String c1 (String c2 (String c3 (String c4
              (String "-" (String c5 (String c6
                 (String "-" (String c7 EmptyString))))))))
            ++ String c8 EmptyString)%string.
    apply trimEnd_last. exact (LifecycleFacts.digit_not_white_space _ _ D8). }
  unfold Number. rewrite Htrim.
  change (String c1 back =? "")%string with false. cbn iota.
  assert (Hx : forall a b, digit_in 10 b = None ->
            after_prefix (String a (String b EmptyString)) (String c1 back) = None).
  { intros a b Hb. unfold back. cbn [after_prefix].
    rewrite (LifecycleFacts.digit_differs c2 b k2 D2 Hb).
    now destruct (Ascii.eqb a c1). }
  assert (Hs : forall a, digit_in 10 a = None ->
            after_prefix (String a EmptyString) (String c1 back) = None).
  { intros a Ha. cbn [after_prefix].
    now rewrite (LifecycleFacts.digit_differs c1 a k1 D1 Ha). }
  unfold after_either.
  rewrite !Hx by reflexivity. rewrite !Hs by reflexivity.
  unfold StrUnsignedDecimalLiteral.
  assert (Hinf : (String c1 back =? "Infinity")%string = false).
  { cbn [String.eqb]. rewrite Ascii.eqb_sym.
    now rewrite (LifecycleFacts.digit_differs c1 "I" k1 D1 eq_refl). }
  rewrite Hinf. unfold back. cbn [take_digits]. rewrite D1, D2, D3, D4.
  change (digit_in 10 "-") with (@None Z). cbn iota. reflexivity.
Qed.

(** X25.  A date of the calendar, written [YYYY-MM-DD], passes the prompt
    of the actions that expire or move objects and becomes a condition of
    the type [Date] whose date is that day at midnight, universal time:
    the answer with [T00:00:00.000Z] behind it.  Neither [RangeError] nor
    [UserError] is raised. *)
Theorem date_becomes_midnight (s : string) :
  isValidDate s = true ->
  validate_days_or_date s = None /\
  forall st,
    condition_of_input s st
    = (inl (mkCondition None (Some (s ++ "T00:00:00.000Z")%string) Date), st).
Proof.
  intros Hvalid. unfold validate_days_or_date, condition_of_input.
  rewrite Hvalid.
  unfold isValidDate in Hvalid.
  destruct (date_fields s) as [[[[y m] d] rest]|] eqn:Hf; [|discriminate].
  destruct rest; [|discriminate].
  rewrite (date_is_no_number _ _ _ _ Hf). cbn [negb andb].
  split; [reflexivity|]. intros st.
  pose proof (midnight_round_trip _ _ _ _ Hf Hvalid) as Hr.
  unfold midnight in Hr.
  destruct (Date_parse (s ++ "T00:00:00.000Z")) as [t|]; [|discriminate].
  simpl in Hr. injection Hr as ->. reflexivity.
Qed.

Lemma date_becomes_midnight_witness :
  validate_days_or_date "2024-02-29" = None /\
  forall st,
    condition_of_input "2024-02-29" st
    = (inl (mkCondition None (Some ("2024-02-29" ++ "T00:00:00.000Z")%string) Date),
       st).
Proof.
  apply (date_becomes_midnight "2024-02-29"). reflexivity.
Defined.

End DateFacts.
